(** * A shallow embedding of the ETF/future auto-trader ([trader-3.py])

    The trader is a single Python class, [AutoTrader], whose methods are
    callbacks run to completion one after the other.  Each method becomes a
    function on an explicit state record.

    - Python integers are unbounded: prices, volumes, identifiers and the
      position are [Z].
    - Clock readings are counted in milliseconds, so that the 1.01 second
      horizon of the rate limiter is [1010] and [time.sleep(0.1)] advances
      the clock by [100].  The wall clock belongs to the environment: the
      state carries its last reading, [clock], and the time that goes by
      before each of the coming calls of [time.time()], [ticks], so that two
      sends of one callback read two different times.
    - [time.time()] returns a binary64 number and the limiter compares
      [timestamp < current_time - 1.01] in binary64.  A timestamp that is at
      least one millisecond away from the horizon compares as in exact
      arithmetic; for a timestamp that is 1.01 seconds old to the
      millisecond the outcome is the one of the binary64 operations, which
      are evaluated ([horizon_passed]).
    - The dictionaries [bids] and [asks] are association lists in insertion
      order: the cancel loops iterate over them and every cancel is rate
      gated, so the order of iteration is observable.
    - The sets [hedge_bid] and [hedge_ask] are [gset Z].
    - A handler that indexes a list out of range raises [IndexError]; such a
      handler returns [None].
    - Commands handed to the base class ([send_insert_order],
      [send_cancel_order], [send_hedge_order]) are appended to [outbox].
    - Logging is left out. *)

From stdpp Require Import base numbers option list sorting gmap.
From Stdlib Require Import PrimFloat.

Local Open Scope Z_scope.

(** ** Constants of the module *)

Definition LOT_SIZE : Z := 20.
Definition POSITION_LIMIT : Z := 100.
Definition ARBITRAGE_LIMIT : Z := 20.
Definition TICK_SIZE_IN_CENTS : Z := 100.

(** [MINIMUM_BID] and [MAXIMUM_ASK] are imported from the exchange package;
    the two derived constants are functions of them. *)
Definition MIN_BID_NEAREST_TICK (MINIMUM_BID : Z) : Z :=
  (MINIMUM_BID + TICK_SIZE_IN_CENTS) `div` TICK_SIZE_IN_CENTS * TICK_SIZE_IN_CENTS.
Definition MAX_ASK_NEAREST_TICK (MAXIMUM_ASK : Z) : Z :=
  MAXIMUM_ASK `div` TICK_SIZE_IN_CENTS * TICK_SIZE_IN_CENTS.

(** The rate limiter's literals: [1.01] seconds and [50] messages; and the
    [0.1] second sleep of the hedge loop. *)
Definition RATE_HORIZON : Z := 1010.
Definition RATE_CAPACITY : nat := 50.
Definition HEDGE_SLEEP : Z := 100.

(** ** Enumerations of the exchange package *)

Inductive Instrument := FUTURE | ETF.

(** [Side.ASK] and [Side.BID] are the exchange's aliases of [Side.SELL] and
    [Side.BUY]. *)
Inductive Side := SELL | BUY.
Definition ASK : Side := SELL.
Definition BID : Side := BUY.

Inductive Lifespan := FILL_AND_KILL | GOOD_FOR_DAY.

Global Instance Instrument_eq_dec : EqDecision Instrument.
Proof. solve_decision. Defined.
Global Instance Side_eq_dec : EqDecision Side.
Proof. solve_decision. Defined.
Global Instance Lifespan_eq_dec : EqDecision Lifespan.
Proof. solve_decision. Defined.

(** ** Outbound commands *)

Inductive Command :=
| InsertOrder (client_order_id : Z) (side : Side) (price volume : Z) (lifespan : Lifespan)
| CancelOrder (client_order_id : Z)
| HedgeOrder (client_order_id : Z) (side : Side) (price volume : Z).

Global Instance Command_eq_dec : EqDecision Command.
Proof. solve_decision. Defined.

(** ** Dictionaries keyed by order identifier, in insertion order *)

Abbreviation dict := (list (Z * Z)%type).

Definition dict_mem (k : Z) (d : dict) : bool := bool_decide (k ∈ d.*1).
Definition dict_values (d : dict) : list Z := d.*2.

(** [d[k] = v]: overwrite in place, or append a new entry. *)
Fixpoint dict_set (k v : Z) (d : dict) : dict :=
  match d with
  | [] => [(k, v)]
  | (k', v') :: d' =>
      if bool_decide (k' = k) then (k, v) :: d' else (k', v') :: dict_set k v d'
  end.

(** [d.pop(k, None)] *)
Definition dict_pop (k : Z) (d : dict) : dict := filter (λ kv, kv.1 ≠ k) d.

(** [range(start, stop, step)] for a positive step. *)
Definition py_range (start stop step : Z) : list Z :=
  (λ k : nat, start + step * Z.of_nat k) <$>
    seq 0 (Z.to_nat ((stop - start + step - 1) `div` step)).

(** ** The state of the trader *)

Record AutoTrader := mkAutoTrader {
  order_ids : Z;                (* next value of [itertools.count(1)] *)
  bids : dict;                  (* order id -> limit price *)
  asks : dict;
  hedge_bid : gset Z;
  hedge_ask : gset Z;
  msg_seq : Z;
  order_timestamps : list Z;    (* the deque, oldest first *)
  position : Z;
  future_bid : Z;
  future_ask : Z;
  delta : Z;
  clock : Z;                    (* the last reading of the wall clock, in ms *)
  ticks : list Z;               (* ms that go by before each coming [time.time()] *)
  outbox : list Command         (* commands sent so far, oldest first *)
}.

Definition set_order_ids v s :=
  mkAutoTrader v (bids s) (asks s) (hedge_bid s) (hedge_ask s) (msg_seq s)
    (order_timestamps s) (position s) (future_bid s) (future_ask s) (delta s)
    (clock s) (ticks s) (outbox s).
Definition set_bids v s :=
  mkAutoTrader (order_ids s) v (asks s) (hedge_bid s) (hedge_ask s) (msg_seq s)
    (order_timestamps s) (position s) (future_bid s) (future_ask s) (delta s)
    (clock s) (ticks s) (outbox s).
Definition set_asks v s :=
  mkAutoTrader (order_ids s) (bids s) v (hedge_bid s) (hedge_ask s) (msg_seq s)
    (order_timestamps s) (position s) (future_bid s) (future_ask s) (delta s)
    (clock s) (ticks s) (outbox s).
Definition set_hedge_bid v s :=
  mkAutoTrader (order_ids s) (bids s) (asks s) v (hedge_ask s) (msg_seq s)
    (order_timestamps s) (position s) (future_bid s) (future_ask s) (delta s)
    (clock s) (ticks s) (outbox s).
Definition set_hedge_ask v s :=
  mkAutoTrader (order_ids s) (bids s) (asks s) (hedge_bid s) v (msg_seq s)
    (order_timestamps s) (position s) (future_bid s) (future_ask s) (delta s)
    (clock s) (ticks s) (outbox s).
Definition set_msg_seq v s :=
  mkAutoTrader (order_ids s) (bids s) (asks s) (hedge_bid s) (hedge_ask s) v
    (order_timestamps s) (position s) (future_bid s) (future_ask s) (delta s)
    (clock s) (ticks s) (outbox s).
Definition set_order_timestamps v s :=
  mkAutoTrader (order_ids s) (bids s) (asks s) (hedge_bid s) (hedge_ask s) (msg_seq s)
    v (position s) (future_bid s) (future_ask s) (delta s)
    (clock s) (ticks s) (outbox s).
Definition set_position v s :=
  mkAutoTrader (order_ids s) (bids s) (asks s) (hedge_bid s) (hedge_ask s) (msg_seq s)
    (order_timestamps s) v (future_bid s) (future_ask s) (delta s)
    (clock s) (ticks s) (outbox s).
Definition set_future_bid v s :=
  mkAutoTrader (order_ids s) (bids s) (asks s) (hedge_bid s) (hedge_ask s) (msg_seq s)
    (order_timestamps s) (position s) v (future_ask s) (delta s)
    (clock s) (ticks s) (outbox s).
Definition set_future_ask v s :=
  mkAutoTrader (order_ids s) (bids s) (asks s) (hedge_bid s) (hedge_ask s) (msg_seq s)
    (order_timestamps s) (position s) (future_bid s) v (delta s)
    (clock s) (ticks s) (outbox s).
Definition set_delta v s :=
  mkAutoTrader (order_ids s) (bids s) (asks s) (hedge_bid s) (hedge_ask s) (msg_seq s)
    (order_timestamps s) (position s) (future_bid s) (future_ask s) v
    (clock s) (ticks s) (outbox s).
Definition set_clock v s :=
  mkAutoTrader (order_ids s) (bids s) (asks s) (hedge_bid s) (hedge_ask s) (msg_seq s)
    (order_timestamps s) (position s) (future_bid s) (future_ask s) (delta s)
    v (ticks s) (outbox s).
Definition set_ticks v s :=
  mkAutoTrader (order_ids s) (bids s) (asks s) (hedge_bid s) (hedge_ask s) (msg_seq s)
    (order_timestamps s) (position s) (future_bid s) (future_ask s) (delta s)
    (clock s) v (outbox s).
Definition set_outbox v s :=
  mkAutoTrader (order_ids s) (bids s) (asks s) (hedge_bid s) (hedge_ask s) (msg_seq s)
    (order_timestamps s) (position s) (future_bid s) (future_ask s) (delta s)
    (clock s) (ticks s) v.

(** [__init__], for a trader created when the clock reads [t0]. *)
Definition init (t0 : Z) : AutoTrader :=
  mkAutoTrader 1 [] [] ∅ ∅ 0 [] 0 0 0 0 t0 [] [].

(** The base class's three send methods put a command on the wire. *)
Definition transmit (c : Command) (s : AutoTrader) : AutoTrader :=
  set_outbox (outbox s ++ [c]) s.

(** [next(self.order_ids)] *)
Definition next_order_id (s : AutoTrader) : Z * AutoTrader :=
  (order_ids s, set_order_ids (order_ids s + 1) s).

(** ** The wall clock *)

(** [time.sleep(seconds)], in milliseconds. *)
Definition time_sleep (ms : Z) (s : AutoTrader) : AutoTrader :=
  set_clock (clock s + ms) s.

(** [time.time()]: the next pending tick has gone by since the clock was
    last looked at; once the pending ticks are used up the clock only moves
    when the trader sleeps or the host lets time pass. *)
Definition time_time (s : AutoTrader) : Z * AutoTrader :=
  let current_time := clock s + hd 0 (ticks s) in
  (current_time, set_ticks (tl (ticks s)) (set_clock current_time s)).

(** The binary64 number that a clock reading of [ms] milliseconds stands
    for: the one nearest to [ms / 1000]. *)
Fixpoint float_of_positive (p : positive) : float :=
  match p with
  | xH => 1%float
  | xO p => PrimFloat.mul 2%float (float_of_positive p)
  | xI p => PrimFloat.add (PrimFloat.mul 2%float (float_of_positive p)) 1%float
  end.

Definition float_of_Z (z : Z) : float :=
  match z with
  | Z0 => 0%float
  | Zpos p => float_of_positive p
  | Zneg p => PrimFloat.opp (float_of_positive p)
  end.

Definition seconds (ms : Z) : float := PrimFloat.div (float_of_Z ms) 1000%float.

(** [t < current_time - 1.01], computed in binary64 as Python does. *)
#[warnings="-inexact-float"] Definition horizon_passed (current_time t : Z) : bool :=
  PrimFloat.ltb (seconds t) (PrimFloat.sub (seconds current_time) 1.01%float).

(** ** Rate admission: [check_message_limit] *)

(** The loop test [self.order_timestamps[0] < current_time - 1.01].  Off the
    horizon the rounding of the subtraction, far below a millisecond, cannot
    change the outcome; on the horizon it decides. *)
Definition stale (current_time t : Z) : bool :=
  bool_decide (t < current_time - RATE_HORIZON)
  || bool_decide (t = current_time - RATE_HORIZON) && horizon_passed current_time t.

(** The [while] loop that pops stale timestamps off the front of the deque. *)
Fixpoint popleft_stale (current_time : Z) (w : list Z) : list Z :=
  match w with
  | [] => []
  | t :: w' => if stale current_time t then popleft_stale current_time w' else w
  end.

(** [check_message_limit] on the deque alone, given the clock reading. *)
Definition check_window (current_time : Z) (w : list Z) : bool * list Z :=
  let w := popleft_stale current_time w in
  if bool_decide (length w = RATE_CAPACITY) then (false, w)
  else (true, w ++ [current_time]).

Definition check_message_limit (s : AutoTrader) : bool * AutoTrader :=
  let '(current_time, s) := time_time s in
  let r := check_window current_time (order_timestamps s) in
  (r.1, set_order_timestamps r.2 s).

(** ** Send wrappers *)

Definition send_bid_order (price volume : Z) (type : Lifespan) (s : AutoTrader)
  : bool * AutoTrader :=
  let '(ok, s) := check_message_limit s in
  if negb ok then (false, s) else
  let '(bid_id, s) := next_order_id s in
  let s := transmit (InsertOrder bid_id BUY price volume type) s in
  (true, set_bids (dict_set bid_id price (bids s)) s).

Definition send_ask_order (price volume : Z) (type : Lifespan) (s : AutoTrader)
  : bool * AutoTrader :=
  let '(ok, s) := check_message_limit s in
  if negb ok then (false, s) else
  let '(ask_id, s) := next_order_id s in
  let s := transmit (InsertOrder ask_id SELL price volume type) s in
  (true, set_asks (dict_set ask_id price (asks s)) s).

(** The loop [while not self.check_message_limit(): time.sleep(0.1)], run for
    at most [fuel] admission attempts; [None] when the fuel runs out. *)
Fixpoint hedge_admission (fuel : nat) (s : AutoTrader) : option AutoTrader :=
  match fuel with
  | O => None
  | S fuel' =>
      let '(ok, s) := check_message_limit s in
      if ok then Some s else hedge_admission fuel' (time_sleep HEDGE_SLEEP s)
  end.

(** The least reading the clock can give from now on, should some of the
    pending ticks run backwards. *)
Definition earliest (s : AutoTrader) : Z :=
  clock s + foldr (λ d acc, Z.min 0 d + acc) 0 (ticks s).

(** A number of attempts after which every timestamp of the deque is older
    than the horizon; [hedge_admission_total] shows that it is never
    exhausted, so the loop is modelled in full. *)
Definition hedge_fuel (s : AutoTrader) : nat :=
  S (S (Z.to_nat
    ((foldr Z.max (earliest s) (order_timestamps s) - earliest s + RATE_HORIZON)
       `div` HEDGE_SLEEP))).

Definition send_hedge_order (price volume : Z) (side : Side) (s : AutoTrader)
  : option (bool * AutoTrader) :=
  s ← hedge_admission (hedge_fuel s) s;
  let '(order_id, s) := next_order_id s in
  let s := if bool_decide (side = BID)
           then set_hedge_bid ({[order_id]} ∪ hedge_bid s) s
           else set_hedge_ask ({[order_id]} ∪ hedge_ask s) s in
  Some (true, transmit (HedgeOrder order_id side price volume) s).

Arguments hedge_fuel : simpl never.
Arguments send_hedge_order : simpl never.

Definition send_cancel_order (order_id : Z) (s : AutoTrader) : bool * AutoTrader :=
  let '(ok, s) := check_message_limit s in
  if negb ok then (false, s) else (true, transmit (CancelOrder order_id) s).

(** ** Cancel loops *)

(** [for order_id, price in book.items(): if P(price): self.send_cancel_order(order_id)].
    The dictionary is not changed while it is iterated. *)
Definition cancel_matching (P : Z → bool) (book : dict) (s : AutoTrader) : AutoTrader :=
  foldl (λ s kv, if P kv.2 then (send_cancel_order kv.1 s).2 else s) s book.

Definition trim_orders (s : AutoTrader) : AutoTrader :=
  let s := cancel_matching (λ bid, bool_decide (bid > future_ask s)) (bids s) s in
  cancel_matching (λ ask, bool_decide (ask < future_bid s)) (asks s) s.

(** One cutoff loop of [clear_book]: [volumes] is what is left to visit, [i]
    the index of its head, [vol] the volume accumulated so far and [cutoff]
    the value kept when the loop ends without a [break]. *)
Fixpoint cutoff_scan (prices volumes : list Z) (i : nat) (vol cutoff : Z) : option Z :=
  match volumes with
  | [] => Some cutoff
  | v :: volumes' =>
      let vol := vol + v in
      if bool_decide (vol >= 3 * LOT_SIZE) then prices !! i
      else cutoff_scan prices volumes' (S i) vol cutoff
  end.

Definition clear_book (ask_prices bid_prices ask_volumes bid_volumes : list Z)
    (s : AutoTrader) : option AutoTrader :=
  cutoff_ask ← last ask_prices;
  cutoff_bid ← last bid_prices;
  cutoff_ask ← cutoff_scan ask_prices ask_volumes 0 0 cutoff_ask;
  cutoff_bid ← cutoff_scan bid_prices bid_volumes 0 0 cutoff_bid;
  let s := cancel_matching (λ bid, bool_decide (bid <= cutoff_bid)) (bids s) s in
  Some (cancel_matching (λ ask, bool_decide (ask >= cutoff_ask)) (asks s) s).

(** ** Arbitrage *)

Definition handle_arbitrage (ask_prices ask_volumes bid_prices bid_volumes : list Z)
    (s : AutoTrader) : option AutoTrader :=
  ask0 ← ask_prices !! 0%nat;
  if bool_decide (ask0 < future_bid s) then
    av0 ← ask_volumes !! 0%nat;
    let buy_volume := Z.min av0 (ARBITRAGE_LIMIT - position s) in
    let buy_price := ask0 in
    if bool_decide (buy_volume > 0)
    then Some (send_bid_order buy_price buy_volume FILL_AND_KILL s).2
    else Some s
  else
    bid0 ← bid_prices !! 0%nat;
    if bool_decide (bid0 > future_ask s) then
      bv0 ← bid_volumes !! 0%nat;
      let sell_volume := Z.min bv0 (position s + ARBITRAGE_LIMIT) in
      let sell_price := bid0 in
      if bool_decide (sell_volume > 0)
      then Some (send_ask_order sell_price sell_volume FILL_AND_KILL s).2
      else Some s
    else Some s.

(** ** Market making *)

(** The two ladder loops; the second component is [max_sell_order]
    (respectively [max_buy_order]). *)
Definition quote_ask_step (st : AutoTrader * Z) (i : Z) : AutoTrader * Z :=
  if negb (bool_decide (i ∈ dict_values (asks st.1))) && bool_decide (st.2 > 0)
  then ((send_ask_order i LOT_SIZE GOOD_FOR_DAY st.1).2, st.2 - 1)
  else st.

Definition quote_bid_step (st : AutoTrader * Z) (i : Z) : AutoTrader * Z :=
  if negb (bool_decide (i ∈ dict_values (bids st.1))) && bool_decide (st.2 > 0)
  then ((send_bid_order i LOT_SIZE GOOD_FOR_DAY st.1).2, st.2 - 1)
  else st.

Definition handle_market_making (bid_prices bid_volumes ask_prices ask_volumes : list Z)
    (s : AutoTrader) : option AutoTrader :=
  s ← clear_book ask_prices bid_prices ask_volumes bid_volumes s;
  let max_buy_order :=
    (POSITION_LIMIT - position s) `div` LOT_SIZE - Z.of_nat (length (bids s)) in
  let max_sell_order :=
    (position s + POSITION_LIMIT) `div` LOT_SIZE - Z.of_nat (length (asks s)) in
  let max_bid := future_bid s - 2 * TICK_SIZE_IN_CENTS in
  let min_ask := future_ask s + 2 * TICK_SIZE_IN_CENTS in
  etf_bid ← bid_prices !! 0%nat;
  etf_ask ← ask_prices !! 0%nat;
  let s := (foldl quote_ask_step (s, max_sell_order)
              (py_range min_ask etf_ask TICK_SIZE_IN_CENTS)).1 in
  Some (foldl quote_bid_step (s, max_buy_order)
          (py_range etf_bid max_bid TICK_SIZE_IN_CENTS)).1.

(** ** Callbacks *)

Definition on_order_book_update_message (instrument : Instrument)
    (sequence_number : Z) (ask_prices ask_volumes bid_prices bid_volumes : list Z)
    (s : AutoTrader) : option AutoTrader :=
  let s := set_msg_seq (Z.max (msg_seq s) sequence_number) s in
  if bool_decide (sequence_number ≠ msg_seq s) then Some s else
  bid0 ← bid_prices !! 0%nat;
  if bool_decide (bid0 = 0) then Some s else
  ask0 ← ask_prices !! 0%nat;
  if bool_decide (ask0 = 0) then Some s else
  s ← (if bool_decide (instrument = ETF) then
         if bool_decide (ask0 < future_bid s) || bool_decide (bid0 > future_ask s)
         then handle_arbitrage ask_prices ask_volumes bid_prices bid_volumes s
         else if bool_decide (ask0 > future_ask s) && bool_decide (bid0 < future_bid s)
         then handle_market_making bid_prices bid_volumes ask_prices ask_volumes s
         else Some s
       else Some s);
  if bool_decide (instrument = FUTURE) then
    let s := set_future_bid bid0 s in
    let s := set_future_ask ask0 s in
    Some (trim_orders s)
  else Some s.

Definition on_order_status_message (client_order_id fill_volume remaining_volume fees : Z)
    (s : AutoTrader) : AutoTrader :=
  if bool_decide (remaining_volume = 0) then
    let s := set_bids (dict_pop client_order_id (bids s)) s in
    set_asks (dict_pop client_order_id (asks s)) s
  else s.

Definition on_error_message (client_order_id : Z) (s : AutoTrader) : AutoTrader :=
  if bool_decide (client_order_id ≠ 0)
     && (dict_mem client_order_id (bids s) || dict_mem client_order_id (asks s))
  then on_order_status_message client_order_id 0 0 0 s
  else s.

Definition on_hedge_filled_message (client_order_id price volume : Z)
    (s : AutoTrader) : AutoTrader :=
  if bool_decide (client_order_id ∈ hedge_bid s) then
    let s := set_hedge_bid (hedge_bid s ∖ {[client_order_id]}) s in
    set_delta (delta s + volume) s
  else if bool_decide (client_order_id ∈ hedge_ask s) then
    let s := set_hedge_ask (hedge_ask s ∖ {[client_order_id]}) s in
    set_delta (delta s - volume) s
  else s.

Definition on_trade_ticks_message (instrument : Instrument) (sequence_number : Z)
    (ask_prices ask_volumes bid_prices bid_volumes : list Z) (s : AutoTrader) : AutoTrader :=
  s.

(** What the host delivers, one callback at a time.  Two entries stand for
    the wall clock rather than for a callback: [Elapse] is time passing
    between two callbacks, [Ticks] is the time that will go by before each
    of the coming calls of [time.time()], inside the callbacks that follow. *)
Inductive Event :=
| OrderBookUpdate (instrument : Instrument) (sequence_number : Z)
    (ask_prices ask_volumes bid_prices bid_volumes : list Z)
| TradeTicks (instrument : Instrument) (sequence_number : Z)
    (ask_prices ask_volumes bid_prices bid_volumes : list Z)
| OrderFilled (client_order_id price volume : Z)
| OrderStatus (client_order_id fill_volume remaining_volume fees : Z)
| HedgeFilled (client_order_id price volume : Z)
| ErrorMessage (client_order_id : Z)
| Elapse (ms : Z)
| Ticks (ms : list Z).

Section Exchange.

(** The two bounds exported by the exchange package. *)
Variables MINIMUM_BID MAXIMUM_ASK : Z.

Definition on_order_filled_message (client_order_id price volume : Z)
    (s : AutoTrader) : option AutoTrader :=
  if dict_mem client_order_id (bids s) then
    let s := set_position (position s + volume) s in
    let s := set_delta (delta s + volume) s in
    r ← send_hedge_order (MIN_BID_NEAREST_TICK MINIMUM_BID) volume ASK s;
    Some r.2
  else if dict_mem client_order_id (asks s) then
    let s := set_position (position s - volume) s in
    let s := set_delta (delta s - volume) s in
    r ← send_hedge_order (MAX_ASK_NEAREST_TICK MAXIMUM_ASK) volume BID s;
    Some r.2
  else Some s.

Definition deliver (e : Event) (s : AutoTrader) : option AutoTrader :=
  match e with
  | OrderBookUpdate i n ap av bp bv => on_order_book_update_message i n ap av bp bv s
  | TradeTicks i n ap av bp bv => Some (on_trade_ticks_message i n ap av bp bv s)
  | OrderFilled id p v => on_order_filled_message id p v s
  | OrderStatus id f r fees => Some (on_order_status_message id f r fees s)
  | HedgeFilled id p v => Some (on_hedge_filled_message id p v s)
  | ErrorMessage id => Some (on_error_message id s)
  | Elapse ms => Some (time_sleep ms s)
  | Ticks ms => Some (set_ticks ms s)
  end.

Fixpoint run (events : list Event) (s : AutoTrader) : option AutoTrader :=
  match events with
  | [] => Some s
  | e :: events' => s ← deliver e s; run events' s
  end.

End Exchange.

(** ** Fills that respect the sizes of the orders sent *)

(** The volume of the insert order [id] among the commands sent. *)
Fixpoint order_volume (id : Z) (out : list Command) : option Z :=
  match out with
  | [] => None
  | InsertOrder id' _ _ volume _ :: out' =>
      if bool_decide (id' = id) then Some volume else order_volume id out'
  | _ :: out' => order_volume id out'
  end.

(** The volume already reported filled for order [id] by the events [past]. *)
Fixpoint filled_volume (id : Z) (past : list Event) : Z :=
  match past with
  | [] => 0
  | OrderFilled id' _ volume :: past' =>
      (if bool_decide (id' = id) then volume else 0) + filled_volume id past'
  | _ :: past' => filled_volume id past'
  end.

(** Every [OrderFilled] event of [events] reports a positive volume for an
    order that was sent, and the fills of an order never add up to more than
    the volume it was sent for; [past] holds the events already delivered. *)
Fixpoint fills_within_orders (MINIMUM_BID MAXIMUM_ASK : Z)
    (past events : list Event) (s : AutoTrader) : bool :=
  match events with
  | [] => true
  | e :: events' =>
      match e with
      | OrderFilled id _ volume =>
          match order_volume id (outbox s) with
          | Some sent => bool_decide (0 < volume ∧ filled_volume id past + volume ≤ sent)
          | None => false
          end
      | _ => true
      end
      && match deliver MINIMUM_BID MAXIMUM_ASK e s with
         | Some s' => fills_within_orders MINIMUM_BID MAXIMUM_ASK (past ++ [e]) events' s'
         | None => false
         end
  end.

(** An event other than a book update of the future. *)
Definition not_future_book (e : Event) : Prop :=
  match e with
  | OrderBookUpdate FUTURE _ _ _ _ _ => False
  | _ => True
  end.

(** A book update of the future that, delivered in state [s], gets past the
    sequence gate and the test for a zero best price, and so reaches the
    lines that cache the future's prices. *)
Definition future_processed (e : Event) (s : AutoTrader) : bool :=
  match e with
  | OrderBookUpdate FUTURE n ap av bp bv =>
      match bp !! 0%nat, ap !! 0%nat with
      | Some bid0, Some ask0 => bool_decide (msg_seq s ≤ n ∧ bid0 ≠ 0 ∧ ask0 ≠ 0)
      | _, _ => false
      end
  | _ => false
  end.

(** No event of [events], delivered one after the other from [s], is a
    processed snapshot of the future: those that are delivered are
    discarded as out of date or as holding a zero best price. *)
Fixpoint before_first_future (MINIMUM_BID MAXIMUM_ASK : Z)
    (events : list Event) (s : AutoTrader) : bool :=
  match events with
  | [] => true
  | e :: events' =>
      negb (future_processed e s)
      && match deliver MINIMUM_BID MAXIMUM_ASK e s with
         | Some s' => before_first_future MINIMUM_BID MAXIMUM_ASK events' s'
         | None => true
         end
  end.

(** ** Sequences of admission attempts *)





(** ** What the send wrappers leave alone *)

(** The fields that no send wrapper writes. *)
Definition core (s : AutoTrader) : Z * Z * Z * Z * Z :=
  (msg_seq s, position s, future_bid s, future_ask s, delta s).

(** The order ledger and the identifier counter. *)
Definition ledger (s : AutoTrader) : Z * dict * dict * gset Z * gset Z :=
  (order_ids s, bids s, asks s, hedge_bid s, hedge_ask s).

(** Whether a call to [check_message_limit] in state [s] is admitted. *)
Definition admits (s : AutoTrader) : bool := (check_message_limit s).1.

(** Rounding to the tick grid, as the specification words it. *)
Definition tick_floor (x : Z) : Z := x `div` TICK_SIZE_IN_CENTS * TICK_SIZE_IN_CENTS.
Definition tick_ceiling (x : Z) : Z :=
  - ((- x) `div` TICK_SIZE_IN_CENTS) * TICK_SIZE_IN_CENTS.

(** ** The book-clearing cutoff, as the specification words it *)

Definition Zsum (l : list Z) : Z := foldr Z.add 0 l.

(** The cumulative volume of the levels [0..i], best first, reaches the
    clearing threshold. *)
Definition reaches (volumes : list Z) (i : nat) : Prop :=
  3 * LOT_SIZE ≤ Zsum (take (S i) volumes).

(** [c] is the price of the first level at which the cumulative volume
    reaches the threshold, or the fifth reported price when no level does. *)
Definition is_cutoff (prices volumes : list Z) (c : Z) : Prop :=
  (∃ i : nat, (i < length volumes)%nat ∧ prices !! i = Some c
              ∧ reaches volumes i ∧ ∀ j : nat, (j < i)%nat → ¬ reaches volumes j)
  ∨ ((∀ j : nat, (j < length volumes)%nat → ¬ reaches volumes j)
     ∧ prices !! 4%nat = Some c).

(** The orders whose cancellation is requested: the resting bids at or below
    the bid cutoff, then the resting asks at or above the ask cutoff, each
    side in ledger order. *)
Definition clear_book_requests (cutoff_ask cutoff_bid : Z) (s : AutoTrader) : list Z :=
  (filter (λ kv, kv.2 ≤ cutoff_bid) (bids s)).*1
  ++ (filter (λ kv, cutoff_ask ≤ kv.2) (asks s)).*1.

(** Requesting a cancellation is a call to [send_cancel_order]. *)
Definition request_cancels (ids : list Z) (s : AutoTrader) : AutoTrader :=
  foldl (λ s id, (send_cancel_order id s).2) s ids.

(** What the next call of [time.time()] returns. *)
Definition next_time (s : AutoTrader) : Z := (time_time s).1.

(** The number of timestamps the rate window holds once pruned at the next
    clock reading. *)
Definition window_load (s : AutoTrader) : nat :=
  length (popleft_stale (next_time s) (order_timestamps s)).

(** ** Quotes of the market-making ladder *)

(** The insert command of a resting quote, given its identifier and price. *)
Definition quote (side : Side) (q : Z * Z) : Command :=
  InsertOrder q.1 side q.2 LOT_SIZE GOOD_FOR_DAY.

(** Every identifier of the ledger was drawn from the counter. *)
Definition ledger_fresh (s : AutoTrader) : Prop :=
  Forall (λ k, k < order_ids s) (bids s).*1
  ∧ Forall (λ k, k < order_ids s) (asks s).*1.

(** ** Books used in the examples *)

Definition five (v : Z) : list Z := [v; v; v; v; v].

(** The future quoted 10000 bid, 10100 ask. *)
Definition future_asks : list Z := [10100; 10200; 10300; 10400; 10500].
Definition future_bids : list Z := [10000; 9900; 9800; 9700; 9600].

(** An ETF book wide around the future: 9300 bid, 10800 ask. *)
Definition wide_asks : list Z := [10800; 10900; 11000; 11100; 11200].
Definition wide_bids : list Z := [9300; 9200; 9100; 9000; 8900].

(** An ETF book offered below the future's bid: 20 lots at 9900. *)
Definition cheap_asks : list Z := [9900; 10000; 10100; 10200; 10300].
Definition cheap_ask_volumes : list Z := [20; 50; 50; 50; 50].
Definition cheap_bids : list Z := [9800; 9700; 9600; 9500; 9400].

Definition future_book : Event :=
  OrderBookUpdate FUTURE 1 future_asks (five 50) future_bids (five 50).
Definition wide_book (n : Z) : Event :=
  OrderBookUpdate ETF n wide_asks (five 50) wide_bids (five 50).
Definition cheap_book (n : Z) : Event :=
  OrderBookUpdate ETF n cheap_asks cheap_ask_volumes cheap_bids (five 50).

(** An ETF snapshot numbered 5, then two snapshots of the future that are
    both discarded: one numbered 3, out of date, and one numbered 6 whose
    best bid is 0. *)
Definition unheard_future : list Event :=
  [wide_book 5;
   OrderBookUpdate FUTURE 3 future_asks (five 50) future_bids (five 50);
   OrderBookUpdate FUTURE 6 future_asks (five 50) [0; 0; 0; 0; 0] (five 0)].

(** The ladder is quoted in full (asks 1 to 5, bids 6 to 10), then one lot of
    the first ask is filled. *)
Definition one_lot_sold : list Event :=
  [future_book; wide_book 1; OrderFilled 1 10300 1].

(** The ladder is quoted in full, the ETF is then offered below the future's
    bid and 20 lots are bought by arbitrage (order 11); the arbitrage order
    and the five resting bids are then filled in full. *)
Definition breach : list Event :=
  [future_book; wide_book 1; cheap_book 2;
   OrderFilled 11 9900 20;
   OrderFilled 6 9300 20; OrderFilled 7 9400 20; OrderFilled 8 9500 20;
   OrderFilled 9 9600 20; OrderFilled 10 9700 20].

(** A trader that knows the future's prices and has sent nothing yet. *)
Definition idle_trader : AutoTrader :=
  mkAutoTrader 1 [] [] ∅ ∅ 1 [] 0 10000 10100 0 0 [] [].

(** A trader with two resting bids and two resting asks. *)
Definition quoting_trader : AutoTrader :=
  mkAutoTrader 5 [(1, 9300); (2, 9700)] [(3, 10300); (4, 10900)] ∅ ∅ 1 [] 0
    10000 10100 0 0 [] [].

(** A trader with one resting bid (order 1) and one resting ask (order 2)
    whose rate window is full at the current clock reading. *)
Definition saturated_trader : AutoTrader :=
  mkAutoTrader 3 [(1, 9900)] [(2, 10300)] ∅ ∅ 7 (replicate 50 0) 0 10000 10100 0 0 [] [].





(** ** Further bookkeeping *)

(** The ledger, the identifier counter and the commands sent. *)
Definition book (s : AutoTrader) : (Z * dict * dict * gset Z * gset Z) * list Command :=
  (ledger s, outbox s).

(** The orders [trim_orders] asks to cancel when the future is quoted
    [bid0] bid and [ask0] ask: the resting bids above the future's ask, then
    the resting asks below the future's bid, each side in ledger order. *)
Definition trim_requests (bid0 ask0 : Z) (s : AutoTrader) : list Z :=
  (filter (λ kv, ask0 < kv.2) (bids s)).*1
  ++ (filter (λ kv, kv.2 < bid0) (asks s)).*1.

(** The sequence numbers of the book updates among [events], in order. *)
Definition book_sequence_numbers (events : list Event) : list Z :=
  omap (λ e, match e with OrderBookUpdate _ n _ _ _ _ => Some n | _ => None end)
    events.

(** The rate window is well formed: oldest first, no timestamp later than
    the clock, and at most 50 of them. *)
Definition rate_window_ok (s : AutoTrader) : Prop :=
  StronglySorted Z.le (order_timestamps s)
  ∧ Forall (λ t, t ≤ clock s) (order_timestamps s)
  ∧ (length (order_timestamps s) ≤ RATE_CAPACITY)%nat.

(** The deque, the clock and the pending ticks. *)
Definition time_state (s : AutoTrader) : list Z * Z * list Z :=
  (order_timestamps s, clock s, ticks s).

(** The wall clock does not run backwards: between callbacks, and from one
    reading to the next. *)
Definition forward_only (e : Event) : Prop :=
  match e with
  | Elapse ms => 0 ≤ ms
  | Ticks ms => Forall (λ d, 0 ≤ d) ms
  | _ => True
  end.

(** The pending ticks run forward. *)
Definition forward (s : AutoTrader) : Prop := Forall (λ d, 0 ≤ d) (ticks s).

(** From [s] to [s'] a well-formed rate window stays well formed, the
    pending ticks still run forward and the clock has not gone back. *)
Definition keeps_time (s s' : AutoTrader) : Prop :=
  rate_window_ok s → forward s →
  rate_window_ok s' ∧ forward s' ∧ clock s ≤ clock s'.

(** A trader whose rate window is full of timestamps taken at time 0, and
    whose clock will have moved on by 30 ms at its next reading and by
    another 40 ms at the one after. *)
Definition saturated_ticking : AutoTrader :=
  mkAutoTrader 3 [(1, 9900)] [(2, 10300)] ∅ ∅ 7 (replicate 50 0) 0 10000 10100 0 0
    [30; 40] [].

(** ** The ledger against the commands sent *)

(** The identifier a command draws from the counter: inserts and hedges
    draw one, a cancel names an order that exists. *)
Definition issued (c : Command) : option Z :=
  match c with
  | InsertOrder id _ _ _ _ => Some id
  | HedgeOrder id _ _ _ => Some id
  | CancelOrder _ => None
  end.

Definition issued_ids (out : list Command) : list Z := omap issued out.

(** Every cancel among the commands comes after the insert of the order it
    names. *)
Definition cancels_follow_inserts (out : list Command) : Prop :=
  ∀ (i : nat) id, out !! i = Some (CancelOrder id) →
    ∃ (j : nat) side price volume lifespan,
      (j < i)%nat ∧ out !! j = Some (InsertOrder id side price volume lifespan).

(** The counter [n], the two ledgers, the two hedge sets and the commands
    sent agree: the identifiers drawn are 1, 2, ... up to [n - 1], in the
    order of the commands; a ledger entry is an insert that was sent, on that
    side and at that price; an outstanding hedge is a hedge that was sent, on
    that side; no identifier appears twice in a ledger; cancels follow
    inserts. *)
Definition consistent_book (n : Z) (b a : dict) (hb ha : gset Z)
    (out : list Command) : Prop :=
  1 ≤ n
  ∧ issued_ids out = seqZ 1 (n - 1)
  ∧ (∀ id p, (id, p) ∈ b → ∃ v l, InsertOrder id BUY p v l ∈ out)
  ∧ (∀ id p, (id, p) ∈ a → ∃ v l, InsertOrder id SELL p v l ∈ out)
  ∧ (∀ id, id ∈ hb → ∃ p v, HedgeOrder id BID p v ∈ out)
  ∧ (∀ id, id ∈ ha → ∃ p v, HedgeOrder id ASK p v ∈ out)
  ∧ NoDup b.*1 ∧ NoDup a.*1
  ∧ cancels_follow_inserts out.

Definition consistent (s : AutoTrader) : Prop :=
  consistent_book (order_ids s) (bids s) (asks s) (hedge_bid s) (hedge_ask s)
    (outbox s).

(** The ladder is quoted in full, then the future drops to 9400 bid, 9500
    ask, which leaves two resting bids above the future's ask. *)
Definition trimmed : list Event :=
  [future_book; wide_book 1;
   OrderBookUpdate FUTURE 2 [9500; 9600; 9700; 9800; 9900] (five 50)
     [9400; 9300; 9200; 9100; 9000] (five 50)].

(** Since the state [s0], in which a callback started, one timestamp has
    been recorded for each command sent, none earlier than [T], and none of
    them has been pruned: the deque of [s] is what is left of the deque of
    [s0], followed by those timestamps. *)
Definition accounted (T : Z) (s0 s : AutoTrader) : Prop :=
  ∃ kept stamps,
    order_timestamps s = kept ++ stamps
    ∧ kept `suffix_of` order_timestamps s0
    ∧ Forall (λ t, T ≤ t) stamps
    ∧ (length (outbox s) = length (outbox s0) + length stamps)%nat.

(** The account holds in [s], whose rate window is well formed and whose
    clock runs forward and will not read less than [T]. *)
Definition in_budget (T : Z) (s0 s : AutoTrader) : Prop :=
  accounted T s0 s ∧ rate_window_ok s ∧ forward s ∧ T ≤ next_time s.

(** The step from [s] to [s'] keeps the time, and keeps the account when
    [s'] is reached less than 1.01 seconds after [T]. *)
Definition paced (T : Z) (s0 s s' : AutoTrader) : Prop :=
  keeps_time s s'
  ∧ (in_budget T s0 s → clock s' < T + RATE_HORIZON → in_budget T s0 s').

(** A trader that knows the future's prices, has sent nothing yet, and
    whose clock moves on by a few milliseconds from one reading to the
    next. *)
Definition idle_ticking : AutoTrader :=
  mkAutoTrader 1 [] [] ∅ ∅ 1 [] 0 10000 10100 0 0 [1; 2; 1; 3; 1; 1; 2; 5; 1; 4] [].

(** An event other than a hedge-filled callback. *)
Definition not_hedge_filled (e : Event) : Prop :=
  match e with
  | HedgeFilled _ _ _ => False
  | _ => True
  end.

(** A trader with one hedge order of each side outstanding. *)
Definition hedging_trader : AutoTrader :=
  mkAutoTrader 5 [(1, 9900)] [(2, 10300)] {[3]} {[4]} 7 [] 20 10000 10100 5 0 [] [].

(** * Properties *)

(** ** The staleness test *)

Lemma stale_lt current_time t :
  t < current_time - RATE_HORIZON → stale current_time t = true.
Proof. intros Ht. unfold stale. by rewrite bool_decide_eq_true_2. Qed.

Lemma stale_gt current_time t :
  current_time - RATE_HORIZON < t → stale current_time t = false.
Proof.
  intros Ht. unfold stale.
  rewrite (bool_decide_eq_false_2 (t < _)), (bool_decide_eq_false_2 (t = _)) by lia.
  done.
Qed.


Lemma stale_ge current_time t :
  stale current_time t = false → current_time - RATE_HORIZON ≤ t.
Proof.
  intros Hs. destruct (decide (current_time - RATE_HORIZON ≤ t)) as [|Hlt]; [done|].
  rewrite stale_lt in Hs by lia. done.
Qed.

Arguments stale : simpl never.

(** ** The rate window *)

Section RateWindow.

Implicit Types (w h ts : list Z) (t b : Z).


Lemma popleft_stale_length t w : (length (popleft_stale t w) ≤ length w)%nat.
Proof.
  induction w as [|x w IH]; [done|].
  cbn [popleft_stale]. destruct (stale t x); simpl in *; lia.
Qed.

Lemma popleft_stale_suffix t w : popleft_stale t w `suffix_of` w.
Proof.
  induction w as [|x w IH]; [done|].
  cbn [popleft_stale]. destruct (stale t x); [by apply suffix_cons_r|done].
Qed.






End RateWindow.

Lemma popleft_stale_all t w :
  Forall (λ a, a < t - RATE_HORIZON) w → popleft_stale t w = [].
Proof.
  induction 1 as [|x l Hx _ IH]; [done|].
  cbn [popleft_stale]. by rewrite stale_lt.
Qed.







(** ** Framing of the send wrappers *)

Lemma check_message_limit_frame s :
  core (check_message_limit s).2 = core s
  ∧ ledger (check_message_limit s).2 = ledger s
  ∧ outbox (check_message_limit s).2 = outbox s
  ∧ clock (check_message_limit s).2 = next_time s.
Proof. by destruct s. Qed.

Lemma check_message_limit_timestamps s :
  order_timestamps (check_message_limit s).2
  = (check_window (next_time s) (order_timestamps s)).2.
Proof. by destruct s. Qed.

Lemma check_message_limit_ticks s : ticks (check_message_limit s).2 = tl (ticks s).
Proof. by destruct s. Qed.

Lemma send_cancel_order_frame id s :
  core (send_cancel_order id s).2 = core s
  ∧ ledger (send_cancel_order id s).2 = ledger s
  ∧ clock (send_cancel_order id s).2 = next_time s.
Proof.
  unfold send_cancel_order. destruct s; cbn.
  by destruct (check_window _ _) as [[] ?].
Qed.

Lemma send_cancel_order_outbox id s :
  outbox (send_cancel_order id s).2
  = outbox s ++ (if admits s then [CancelOrder id] else []).
Proof.
  unfold send_cancel_order, admits. destruct s; cbn.
  destruct (check_window _ _) as [[] ?]; cbn; by rewrite ?app_nil_r.
Qed.

Lemma send_bid_order_frame price volume type s :
  core (send_bid_order price volume type s).2 = core s
  ∧ asks (send_bid_order price volume type s).2 = asks s
  ∧ clock (send_bid_order price volume type s).2 = next_time s.
Proof.
  unfold send_bid_order. destruct s; cbn.
  by destruct (check_window _ _) as [[] ?].
Qed.

Lemma send_ask_order_frame price volume type s :
  core (send_ask_order price volume type s).2 = core s
  ∧ bids (send_ask_order price volume type s).2 = bids s
  ∧ clock (send_ask_order price volume type s).2 = next_time s.
Proof.
  unfold send_ask_order. destruct s; cbn.
  by destruct (check_window _ _) as [[] ?].
Qed.

Lemma send_bid_order_outbox price volume type s :
  outbox (send_bid_order price volume type s).2
  = outbox s ++ (if admits s
                 then [InsertOrder (order_ids s) BUY price volume type] else []).
Proof.
  unfold send_bid_order, admits. destruct s; cbn.
  destruct (check_window _ _) as [[] ?]; cbn; by rewrite ?app_nil_r.
Qed.

Lemma send_ask_order_outbox price volume type s :
  outbox (send_ask_order price volume type s).2
  = outbox s ++ (if admits s
                 then [InsertOrder (order_ids s) SELL price volume type] else []).
Proof.
  unfold send_ask_order, admits. destruct s; cbn.
  destruct (check_window _ _) as [[] ?]; cbn; by rewrite ?app_nil_r.
Qed.

Lemma send_bid_order_bids price volume type s :
  bids (send_bid_order price volume type s).2
  = if admits s then dict_set (order_ids s) price (bids s) else bids s.
Proof.
  unfold send_bid_order, admits. destruct s; cbn.
  by destruct (check_window _ _) as [[] ?].
Qed.

Lemma send_ask_order_asks price volume type s :
  asks (send_ask_order price volume type s).2
  = if admits s then dict_set (order_ids s) price (asks s) else asks s.
Proof.
  unfold send_ask_order, admits. destruct s; cbn.
  by destruct (check_window _ _) as [[] ?].
Qed.

(** ** The blocking admission of hedges *)

Lemma foldr_max_ge (a c : Z) (w : list Z) : a ∈ w → a ≤ foldr Z.max c w.
Proof.
  induction w as [|x w IH]; [by intros ?%elem_of_nil|].
  intros [->|Ha]%elem_of_cons; simpl; [lia|]. specialize (IH Ha). lia.
Qed.

Lemma check_message_limit_answer s :
  (check_message_limit s).1 = (check_window (next_time s) (order_timestamps s)).1.
Proof. by destruct s. Qed.

(** A refused attempt leaves the pruned deque, which holds 50 timestamps. *)
Lemma check_message_limit_refused s :
  (check_message_limit s).1 = false →
  order_timestamps (check_message_limit s).2
  = popleft_stale (next_time s) (order_timestamps s)
  ∧ length (order_timestamps (check_message_limit s).2) = RATE_CAPACITY.
Proof.
  rewrite check_message_limit_answer, check_message_limit_timestamps.
  unfold check_window. by case_bool_decide.
Qed.

Lemma backward_ticks_nonpos (l : list Z) : foldr (λ d acc, Z.min 0 d + acc) 0 l ≤ 0.
Proof. induction l as [|d l IH]; simpl; lia. Qed.

Lemma earliest_next_time s : earliest s ≤ next_time s.
Proof.
  unfold earliest, next_time, time_time. cbn [fst].
  destruct (ticks s) as [|d l]; cbn [foldr hd]; [lia|].
  pose proof (backward_ticks_nonpos l). lia.
Qed.

Lemma earliest_after_attempt ms s :
  earliest s + ms ≤ earliest (time_sleep ms (check_message_limit s).2).
Proof.
  unfold earliest, time_sleep.
  assert (clock (set_clock (clock (check_message_limit s).2 + ms) (check_message_limit s).2)
          = next_time s + ms) as ->.
  { destruct (check_message_limit_frame s) as (_ & _ & _ & <-).
    by destruct (check_message_limit s).2. }
  assert (ticks (set_clock (clock (check_message_limit s).2 + ms) (check_message_limit s).2)
          = tl (ticks s)) as ->.
  { rewrite <- check_message_limit_ticks. by destruct (check_message_limit s).2. }
  unfold next_time, time_time. cbn [fst].
  destruct (ticks s) as [|d l]; cbn [foldr hd tl]; lia.
Qed.

Lemma hedge_admission_enough fuel : ∀ s,
  (1 ≤ fuel)%nat →
  (∀ a, a ∈ order_timestamps s →
        a - (earliest s - RATE_HORIZON) < HEDGE_SLEEP * (Z.of_nat fuel - 1)) →
  ∃ s', hedge_admission fuel s = Some s'
        ∧ core s' = core s ∧ ledger s' = ledger s ∧ outbox s' = outbox s.
Proof.
  induction fuel as [|fuel IH]; intros s Hfuel Hold; [lia|].
  cbn [hedge_admission].
  pose proof (check_message_limit_frame s) as (Hc & Hl & Ho & Hk).
  pose proof (check_message_limit_refused s) as Href.
  pose proof (earliest_after_attempt HEDGE_SLEEP s) as Hearly.
  pose proof (earliest_next_time s) as Hnext.
  destruct (check_message_limit s) as [ok s1] eqn:Hchk. cbn [fst snd] in *.
  destruct ok; [by exists s1|].
  destruct (Href eq_refl) as [Hw Hlen].
  assert (Hsub : ∀ a, a ∈ order_timestamps s1 → a ∈ order_timestamps s).
  { intros a Ha. rewrite Hw in Ha.
    eapply elem_of_suffix; [exact Ha|apply popleft_stale_suffix]. }
  destruct (decide (fuel = 0%nat)) as [->|Hpos].
  { (* a single attempt is only granted when every timestamp is stale *)
    exfalso. rewrite Hw, popleft_stale_all in Hlen; [done|].
    apply Forall_forall. intros a Ha. specialize (Hold a Ha).
    unfold HEDGE_SLEEP in Hold. lia. }
  destruct (IH (time_sleep HEDGE_SLEEP s1)) as (s' & Hrun & Hc' & Hl' & Ho').
  - lia.
  - intros a Ha.
    assert (Ha' : a ∈ order_timestamps s1) by (by destruct s1).
    specialize (Hold a (Hsub a Ha')).
    unfold HEDGE_SLEEP in *. lia.
  - exists s'. split; [exact Hrun|].
    rewrite Hc', Hl', Ho'. rewrite <- Hc, <- Hl, <- Ho. by destruct s1.
Qed.

(** The fuel computed by [hedge_fuel] is never exhausted. *)
Lemma hedge_admission_total s :
  ∃ s', hedge_admission (hedge_fuel s) s = Some s'
        ∧ core s' = core s ∧ ledger s' = ledger s ∧ outbox s' = outbox s.
Proof.
  apply hedge_admission_enough; unfold hedge_fuel; [lia|].
  intros a Ha. pose proof (foldr_max_ge a (earliest s) _ Ha) as Hmax.
  set (m := foldr Z.max (earliest s) (order_timestamps s)) in *.
  unfold RATE_HORIZON, HEDGE_SLEEP in *.
  rewrite !Nat2Z.inj_succ, Z2Nat.id.
  - pose proof (Z.mul_succ_div_gt (m - earliest s + 1010) 100). lia.
  - apply Z.div_pos; [|lia].
    assert (earliest s ≤ m); [|lia].
    subst m. clear. induction (order_timestamps s); simpl; lia.
Qed.

(** ** Fills and hedges *)

Lemma send_hedge_order_spec price volume side s :
  ∃ s', send_hedge_order price volume side s = Some (true, s')
        ∧ core s' = core s
        ∧ outbox s' = outbox s ++ [HedgeOrder (order_ids s) side price volume]
        ∧ bids s' = bids s ∧ asks s' = asks s
        ∧ order_ids s' = order_ids s + 1.
Proof.
  destruct (hedge_admission_total s) as (s1 & Hrun & Hc & Hl & Ho).
  unfold send_hedge_order. rewrite Hrun. cbn [mbind option_bind next_order_id].
  eexists. split; [reflexivity|].
  unfold core, ledger in *. destruct s1, s; cbn in *.
  simplify_eq. by case_bool_decide.
Qed.

Lemma on_order_filled_message_spec MINIMUM_BID MAXIMUM_ASK id price volume s :
  ∃ s', on_order_filled_message MINIMUM_BID MAXIMUM_ASK id price volume s = Some s'
    ∧ if dict_mem id (bids s) then
        outbox s' = outbox s ++
          [HedgeOrder (order_ids s) ASK (MIN_BID_NEAREST_TICK MINIMUM_BID) volume]
        ∧ position s' = position s + volume
      else if dict_mem id (asks s) then
        outbox s' = outbox s ++
          [HedgeOrder (order_ids s) BID (MAX_ASK_NEAREST_TICK MAXIMUM_ASK) volume]
        ∧ position s' = position s - volume
      else s' = s.
Proof.
  unfold on_order_filled_message.
  destruct (dict_mem id (bids s)); [|destruct (dict_mem id (asks s))].
  - edestruct send_hedge_order_spec as (s' & -> & Hc & Ho & _).
    exists s'. split; [done|]. rewrite Ho. split; [by destruct s|].
    unfold core in Hc. destruct s; cbn in *. by simplify_eq.
  - edestruct send_hedge_order_spec as (s' & -> & Hc & Ho & _).
    exists s'. split; [done|]. rewrite Ho. split; [by destruct s|].
    unfold core in Hc. destruct s; cbn in *. by simplify_eq.
  - by exists s.
Qed.

(** C2. A fill reported for an order of the ledger ([bids] or [asks], the
    resting ETF orders) makes [on_order_filled_message] return, having sent
    exactly one hedge order for the filled volume, a sell for a filled bid
    and a buy for a filled ask.  This holds in every state, whatever the
    rate window holds: the blocking admission always ends. *)
Theorem on_order_filled_message_hedges MINIMUM_BID MAXIMUM_ASK id price volume s :
  id ∈ (bids s).*1 ∨ id ∈ (asks s).*1 →
  ∃ s' hedge_price,
    on_order_filled_message MINIMUM_BID MAXIMUM_ASK id price volume s = Some s'
    ∧ outbox s' = outbox s ++
        [HedgeOrder (order_ids s)
           (if bool_decide (id ∈ (bids s).*1) then SELL else BUY)
           hedge_price volume].
Proof.
  intros Hin.
  destruct (on_order_filled_message_spec MINIMUM_BID MAXIMUM_ASK id price volume s)
    as (s' & Hrun & Hspec).
  unfold dict_mem in Hspec. exists s'.
  case_bool_decide as Hb.
  - eexists. split; [exact Hrun|]. by destruct Hspec as [-> _].
  - destruct Hin as [?|Ha]; [done|].
    rewrite bool_decide_eq_true_2 in Hspec by done.
    eexists. split; [exact Hrun|]. by destruct Hspec as [-> _].
Qed.

Lemma on_order_filled_message_hedges_witness :
  ∃ s' hedge_price,
    on_order_filled_message 1 2147483647 1 9900 20 saturated_trader = Some s'
    ∧ outbox s' = [HedgeOrder 3 SELL hedge_price 20].
Proof.
  apply (on_order_filled_message_hedges 1 2147483647 1 9900 20 saturated_trader).
  left. vm_compute. apply list_elem_of_here.
Defined.

(** C3, as amended. The hedge sell sent on a filled bid is priced at
    [MIN_BID_NEAREST_TICK], the tick floor of [MINIMUM_BID] plus one tick:
    the least multiple of the tick strictly above [MINIMUM_BID].  The hedge
    buy sent on a filled ask is priced at [MAX_ASK_NEAREST_TICK], the tick
    floor of [MAXIMUM_ASK]: the greatest multiple of the tick that is at
    most [MAXIMUM_ASK]. *)
Theorem hedge_prices_inside_bounds MINIMUM_BID MAXIMUM_ASK id price volume s :
  id ∈ (bids s).*1 ∨ id ∈ (asks s).*1 →
  ∃ s' side hedge_price,
    on_order_filled_message MINIMUM_BID MAXIMUM_ASK id price volume s = Some s'
    ∧ outbox s' = outbox s ++ [HedgeOrder (order_ids s) side hedge_price volume]
    ∧ if bool_decide (id ∈ (bids s).*1) then
        side = SELL
        ∧ hedge_price = tick_floor MINIMUM_BID + TICK_SIZE_IN_CENTS
        ∧ hedge_price `mod` TICK_SIZE_IN_CENTS = 0
        ∧ MINIMUM_BID < hedge_price ≤ MINIMUM_BID + TICK_SIZE_IN_CENTS
      else
        side = BUY
        ∧ hedge_price = tick_floor MAXIMUM_ASK
        ∧ hedge_price `mod` TICK_SIZE_IN_CENTS = 0
        ∧ hedge_price ≤ MAXIMUM_ASK < hedge_price + TICK_SIZE_IN_CENTS.
Proof.
  intros Hin.
  destruct (on_order_filled_message_spec MINIMUM_BID MAXIMUM_ASK id price volume s)
    as (s' & Hrun & Hspec).
  unfold dict_mem in Hspec. exists s'.
  assert (Hfloor : ∀ x, tick_floor x `mod` 100 = 0 ∧ tick_floor x ≤ x < tick_floor x + 100).
  { intros x. unfold tick_floor, TICK_SIZE_IN_CENTS.
    pose proof (Z.div_mod x 100). pose proof (Z.mod_pos_bound x 100).
    rewrite Z.mod_mul by lia. lia. }
  case_bool_decide as Hb.
  - exists SELL, (MIN_BID_NEAREST_TICK MINIMUM_BID).
    destruct Hspec as [-> _]. split_and!; try done.
    + unfold MIN_BID_NEAREST_TICK, tick_floor, TICK_SIZE_IN_CENTS.
      replace (MINIMUM_BID + 100) with (MINIMUM_BID + 1 * 100) by lia.
      rewrite Z.div_add by lia. lia.
    + unfold MIN_BID_NEAREST_TICK, TICK_SIZE_IN_CENTS. by rewrite Z.mod_mul.
    + unfold MIN_BID_NEAREST_TICK, TICK_SIZE_IN_CENTS.
      destruct (Hfloor (MINIMUM_BID + 100)) as [_ H]. unfold tick_floor, TICK_SIZE_IN_CENTS in H. lia.
    + unfold MIN_BID_NEAREST_TICK, TICK_SIZE_IN_CENTS.
      destruct (Hfloor (MINIMUM_BID + 100)) as [_ H]. unfold tick_floor, TICK_SIZE_IN_CENTS in H. lia.
  - destruct Hin as [?|Ha]; [done|].
    rewrite bool_decide_eq_true_2 in Hspec by done.
    exists BUY, (MAX_ASK_NEAREST_TICK MAXIMUM_ASK).
    destruct Hspec as [-> _]. split_and!; try done.
    + apply (Hfloor MAXIMUM_ASK).
    + apply (Hfloor MAXIMUM_ASK).
    + apply (Hfloor MAXIMUM_ASK).
Qed.

Lemma hedge_prices_inside_bounds_witness :
  ∃ s' side hedge_price,
    on_order_filled_message 1 2147483647 2 10300 20 saturated_trader = Some s'
    ∧ outbox s' = [HedgeOrder 3 side hedge_price 20]
    ∧ side = BUY
    ∧ hedge_price = tick_floor 2147483647
    ∧ hedge_price `mod` TICK_SIZE_IN_CENTS = 0
    ∧ hedge_price ≤ 2147483647 < hedge_price + TICK_SIZE_IN_CENTS.
Proof.
  apply (hedge_prices_inside_bounds 1 2147483647 2 10300 20 saturated_trader).
  right. vm_compute. apply list_elem_of_here.
Defined.

(** C3, as stated, fails: with the bounds [1] and [2^31 - 1], the hedge sell
    for a filled bid is priced [100], not at the tick floor [0] of the
    minimum bid, and the hedge buy for a filled ask is priced [2147483600],
    not at the tick ceiling [2147483700] of the maximum ask.  Whatever the
    minimum bid is, the price of the hedge sell is never its tick floor. *)
Lemma hedge_prices_not_floor_ceiling :
  (∃ s' p, on_order_filled_message 1 2147483647 1 9900 20 saturated_trader = Some s'
           ∧ outbox s' = [HedgeOrder 3 SELL p 20]
           ∧ p ≠ tick_floor 1)
  ∧ (∃ s' p, on_order_filled_message 1 2147483647 2 10300 20 saturated_trader = Some s'
             ∧ outbox s' = [HedgeOrder 3 BUY p 20]
             ∧ p ≠ tick_ceiling 2147483647)
  ∧ (∀ minimum_bid, MIN_BID_NEAREST_TICK minimum_bid ≠ tick_floor minimum_bid).
Proof.
  split_and!.
  - do 2 eexists. split_and!; [by vm_compute..|]. vm_compute. discriminate.
  - do 2 eexists. split_and!; [by vm_compute..|]. vm_compute. discriminate.
  - intros m. unfold MIN_BID_NEAREST_TICK, tick_floor, TICK_SIZE_IN_CENTS.
    replace (m + 100) with (m + 1 * 100) by lia.
    rewrite Z.div_add by lia. lia.
Qed.

Lemma handle_arbitrage_overvalued ap av bp bv s ask0 bid0 bv0 :
  ap !! 0%nat = Some ask0 → bp !! 0%nat = Some bid0 → bv !! 0%nat = Some bv0 →
  ¬ ask0 < future_bid s → bid0 > future_ask s →
  let sell_volume := Z.min bv0 (position s + ARBITRAGE_LIMIT) in
  ∃ s', handle_arbitrage ap av bp bv s = Some s'
    ∧ s' = (if bool_decide (0 < sell_volume)
            then (send_ask_order bid0 sell_volume FILL_AND_KILL s).2 else s)
    ∧ outbox s' = outbox s ++
        (if bool_decide (0 < sell_volume) && admits s
         then [InsertOrder (order_ids s) SELL bid0 sell_volume FILL_AND_KILL]
         else []).
Proof.
  intros Hap Hbp Hbv Hnot Hover sell_volume.
  unfold handle_arbitrage. rewrite Hap. cbn [mbind option_bind].
  rewrite bool_decide_eq_false_2 by done. rewrite Hbp. cbn [mbind option_bind].
  rewrite bool_decide_eq_true_2 by done. rewrite Hbv. cbn [mbind option_bind].
  fold sell_volume.
  rewrite (bool_decide_ext (sell_volume > 0) (0 < sell_volume)) by lia.
  case_bool_decide; cbn [andb]; (eexists; split; [reflexivity|split; [done|]]).
  + apply send_ask_order_outbox.
  + by rewrite app_nil_r.
Qed.

(** C4. [handle_arbitrage] on a book whose best ask is [ask0] and best bid
    is [bid0].  (1) Undervalued, [ask0 < future_bid]: it calls the bid
    wrapper for a fill-and-kill buy at [ask0] of volume
    [min(ask_volumes[0], ARBITRAGE_LIMIT - position)] when that volume is
    positive, and sends nothing otherwise.  (2) Overvalued,
    [bid0 > future_ask], the [elif] branch: it calls the ask wrapper for a
    fill-and-kill sell at [bid0] of volume
    [min(bid_volumes[0], position + ARBITRAGE_LIMIT)] when that volume is
    positive, and sends nothing otherwise.  (3) Whatever the book, at most
    one command leaves, it is a fill-and-kill order of positive volume, and
    filled in full it leaves the position at most [ARBITRAGE_LIMIT] for a
    buy and at least [-ARBITRAGE_LIMIT] for a sell. *)
Theorem handle_arbitrage_sizing ask_prices ask_volumes bid_prices bid_volumes s :
  (∀ ask0 av0,
      ask_prices !! 0%nat = Some ask0 → ask_volumes !! 0%nat = Some av0 →
      ask0 < future_bid s →
      let buy_volume := Z.min av0 (ARBITRAGE_LIMIT - position s) in
      ∃ s', handle_arbitrage ask_prices ask_volumes bid_prices bid_volumes s = Some s'
        ∧ s' = (if bool_decide (0 < buy_volume)
                then (send_bid_order ask0 buy_volume FILL_AND_KILL s).2 else s)
        ∧ outbox s' = outbox s ++
            (if bool_decide (0 < buy_volume) && admits s
             then [InsertOrder (order_ids s) BUY ask0 buy_volume FILL_AND_KILL]
             else []))
  ∧ (∀ ask0 bid0 bv0,
      ask_prices !! 0%nat = Some ask0 → bid_prices !! 0%nat = Some bid0 →
      bid_volumes !! 0%nat = Some bv0 →
      ¬ ask0 < future_bid s → bid0 > future_ask s →
      let sell_volume := Z.min bv0 (position s + ARBITRAGE_LIMIT) in
      ∃ s', handle_arbitrage ask_prices ask_volumes bid_prices bid_volumes s = Some s'
        ∧ s' = (if bool_decide (0 < sell_volume)
                then (send_ask_order bid0 sell_volume FILL_AND_KILL s).2 else s)
        ∧ outbox s' = outbox s ++
            (if bool_decide (0 < sell_volume) && admits s
             then [InsertOrder (order_ids s) SELL bid0 sell_volume FILL_AND_KILL]
             else []))
  ∧ (∀ s', handle_arbitrage ask_prices ask_volumes bid_prices bid_volumes s = Some s' →
      ∃ new, outbox s' = outbox s ++ new ∧ (length new ≤ 1)%nat
        ∧ ∀ c, c ∈ new →
            ∃ id side price volume,
              c = InsertOrder id side price volume FILL_AND_KILL
              ∧ 0 < volume
              ∧ (side = BUY → position s + volume ≤ ARBITRAGE_LIMIT)
              ∧ (side = SELL → - ARBITRAGE_LIMIT ≤ position s - volume)).
Proof.
  split_and!.
  - intros ask0 av0 Hap Hav Hunder buy_volume.
    unfold handle_arbitrage. rewrite Hap. cbn [mbind option_bind].
    rewrite bool_decide_eq_true_2 by done. rewrite Hav. cbn [mbind option_bind].
    fold buy_volume.
    rewrite (bool_decide_ext (buy_volume > 0) (0 < buy_volume)) by lia.
    case_bool_decide; cbn [andb]; (eexists; split; [reflexivity|split; [done|]]).
    + apply send_bid_order_outbox.
    + by rewrite app_nil_r.
  - intros ask0 bid0 bv0. apply handle_arbitrage_overvalued.
  - intros s' Hrun. unfold handle_arbitrage in Hrun.
    destruct (ask_prices !! 0%nat) as [ask0|]; [|done]. cbn [mbind option_bind] in Hrun.
    assert (Hnone : ∃ new : list Command, outbox s = outbox s ++ new ∧ (length new ≤ 1)%nat
      ∧ ∀ c, c ∈ new → ∃ id side price volume,
              c = InsertOrder id side price volume FILL_AND_KILL ∧ 0 < volume
              ∧ (side = BUY → position s + volume ≤ ARBITRAGE_LIMIT)
              ∧ (side = SELL → - ARBITRAGE_LIMIT ≤ position s - volume)).
    { exists []. rewrite app_nil_r. split_and!; [done|simpl; lia|].
      by intros c ?%elem_of_nil. }
    case_bool_decide.
    + destruct (ask_volumes !! 0%nat) as [av0|]; [|done]. cbn [mbind option_bind] in Hrun.
      case_bool_decide; simplify_eq; [|done].
      rewrite send_bid_order_outbox. eexists. split; [reflexivity|].
      destruct (admits s); split; simpl; try lia.
      * intros c ->%list_elem_of_singleton. do 4 eexists.
        split_and!; [reflexivity|lia|lia|done].
      * by intros c ?%elem_of_nil.
    + destruct (bid_prices !! 0%nat) as [bid0|]; [|done]. cbn [mbind option_bind] in Hrun.
      case_bool_decide; simplify_eq; [|done].
      destruct (bid_volumes !! 0%nat) as [bv0|]; [|done]. cbn [mbind option_bind] in Hrun.
      case_bool_decide; simplify_eq; [|done].
      rewrite send_ask_order_outbox. eexists. split; [reflexivity|].
      destruct (admits s); split; simpl; try lia.
      * intros c ->%list_elem_of_singleton. do 4 eexists.
        split_and!; [reflexivity|lia|done|lia].
      * by intros c ?%elem_of_nil.
Qed.

(** ** Framing of the strategy functions *)

Lemma cancel_matching_frame P book : ∀ s,
  core (cancel_matching P book s) = core s
  ∧ ledger (cancel_matching P book s) = ledger s.
Proof.
  unfold cancel_matching.
  induction book as [|kv book IH]; intros s; [done|].
  cbn [foldl]. destruct (IH (if P kv.2 then (send_cancel_order kv.1 s).2 else s))
    as (-> & ->).
  destruct (P kv.2); [|done].
  destruct (send_cancel_order_frame kv.1 s) as (? & ? & _). done.
Qed.

Lemma trim_orders_frame s :
  core (trim_orders s) = core s ∧ ledger (trim_orders s) = ledger s.
Proof.
  unfold trim_orders. cbv zeta.
  match goal with |- context [cancel_matching ?P ?b ?s0] =>
    destruct (cancel_matching_frame P b s0) as (-> & ->) end.
  apply cancel_matching_frame.
Qed.

Lemma clear_book_frame ap bp av bv s s' :
  clear_book ap bp av bv s = Some s' →
  core s' = core s ∧ ledger s' = ledger s.
Proof.
  unfold clear_book. intros Hrun.
  destruct (last ap) as [ca0|]; [|done].
  destruct (last bp) as [cb0|]; [|done]. cbn [mbind option_bind] in Hrun.
  destruct (cutoff_scan ap av 0 0 ca0) as [ca|]; [|done].
  destruct (cutoff_scan bp bv 0 0 cb0) as [cb|]; [|done].
  cbn [mbind option_bind] in Hrun. simplify_eq.
  match goal with |- context [cancel_matching ?P ?b ?s0] =>
    destruct (cancel_matching_frame P b s0) as (-> & ->) end.
  apply cancel_matching_frame.
Qed.

Lemma handle_arbitrage_core ap av bp bv s s' :
  handle_arbitrage ap av bp bv s = Some s' → core s' = core s.
Proof.
  unfold handle_arbitrage. intros Hrun.
  destruct (ap !! 0%nat) as [ask0|]; [|done]. cbn [mbind option_bind] in Hrun.
  case_bool_decide.
  - destruct (av !! 0%nat) as [av0|]; [|done]. cbn [mbind option_bind] in Hrun.
    case_bool_decide; simplify_eq; [|done]. apply send_bid_order_frame.
  - destruct (bp !! 0%nat) as [bid0|]; [|done]. cbn [mbind option_bind] in Hrun.
    case_bool_decide; simplify_eq; [|done].
    destruct (bv !! 0%nat) as [bv0|]; [|done]. cbn [mbind option_bind] in Hrun.
    case_bool_decide; simplify_eq; [|done]. apply send_ask_order_frame.
Qed.

Lemma quote_ask_loop_frame prices : ∀ st,
  core (foldl quote_ask_step st prices).1 = core st.1
  ∧ bids (foldl quote_ask_step st prices).1 = bids st.1.
Proof.
  induction prices as [|i prices IH]; intros st; [done|].
  cbn [foldl]. destruct (IH (quote_ask_step st i)) as (-> & ->).
  unfold quote_ask_step. destruct (_ && _); [|done].
  destruct (send_ask_order_frame i LOT_SIZE GOOD_FOR_DAY st.1) as (? & ? & _). done.
Qed.

Lemma quote_bid_loop_frame prices : ∀ st,
  core (foldl quote_bid_step st prices).1 = core st.1
  ∧ asks (foldl quote_bid_step st prices).1 = asks st.1.
Proof.
  induction prices as [|i prices IH]; intros st; [done|].
  cbn [foldl]. destruct (IH (quote_bid_step st i)) as (-> & ->).
  unfold quote_bid_step. destruct (_ && _); [|done].
  destruct (send_bid_order_frame i LOT_SIZE GOOD_FOR_DAY st.1) as (? & ? & _). done.
Qed.

Lemma handle_market_making_core bp bv ap av s s' :
  handle_market_making bp bv ap av s = Some s' → core s' = core s.
Proof.
  unfold handle_market_making. intros Hrun.
  destruct (clear_book ap bp av bv s) as [s1|] eqn:Hclear; [|done].
  cbn [mbind option_bind] in Hrun.
  destruct (bp !! 0%nat) as [etf_bid|]; [|done].
  destruct (ap !! 0%nat) as [etf_ask|]; [|done].
  cbn [mbind option_bind] in Hrun. simplify_eq.
  destruct (clear_book_frame _ _ _ _ _ _ Hclear) as (<- & _).
  match goal with |- context [foldl quote_bid_step ?st ?l] =>
    destruct (quote_bid_loop_frame l st) as (-> & _) end.
  cbn [fst].
  match goal with |- context [foldl quote_ask_step ?st ?l] =>
    destruct (quote_ask_loop_frame l st) as (-> & _) end.
  done.
Qed.

(** ** The sequence gate *)

Lemma set_msg_seq_same s : set_msg_seq (msg_seq s) s = s.
Proof. by destruct s. Qed.

Lemma on_order_book_update_message_stale instrument n ap av bp bv s :
  n < msg_seq s → on_order_book_update_message instrument n ap av bp bv s = Some s.
Proof.
  intros Hn. unfold on_order_book_update_message.
  rewrite Z.max_l by lia. rewrite set_msg_seq_same.
  rewrite bool_decide_eq_true_2 by lia. done.
Qed.

Lemma on_order_book_update_message_msg_seq instrument n ap av bp bv s s' :
  on_order_book_update_message instrument n ap av bp bv s = Some s' →
  msg_seq s' = Z.max (msg_seq s) n
  ∧ position s' = position s ∧ delta s' = delta s
  ∧ (n < msg_seq s ∨ instrument = ETF →
     future_bid s' = future_bid s ∧ future_ask s' = future_ask s).
Proof.
  unfold on_order_book_update_message. intros Hrun.
  set (s0 := set_msg_seq (Z.max (msg_seq s) n) s) in *.
  assert (H0 : core s0 = (Z.max (msg_seq s) n, position s, future_bid s,
                          future_ask s, delta s)) by (by destruct s).
  assert (Hseq : msg_seq s0 = Z.max (msg_seq s) n) by (by destruct s).
  assert (Hgoal : ∀ s1, core s1 = core s0 →
     msg_seq s1 = Z.max (msg_seq s) n
     ∧ position s1 = position s ∧ delta s1 = delta s
     ∧ (n < msg_seq s ∨ instrument = ETF →
        future_bid s1 = future_bid s ∧ future_ask s1 = future_ask s)).
  { intros s1 Hc. rewrite H0 in Hc. unfold core in Hc. by simplify_eq. }
  case_bool_decide as Hgate; [simplify_eq; by apply Hgoal|].
  destruct (bp !! 0%nat) as [bid0|]; [|done]. cbn [mbind option_bind] in Hrun.
  case_bool_decide; [simplify_eq; by apply Hgoal|].
  destruct (ap !! 0%nat) as [ask0|]; [|done]. cbn [mbind option_bind] in Hrun.
  case_bool_decide; [simplify_eq; by apply Hgoal|].
  destruct instrument.
  - (* FUTURE *)
    rewrite (bool_decide_eq_false_2 (FUTURE = ETF)) in Hrun by done.
    cbn [mbind option_bind] in Hrun.
    rewrite (bool_decide_eq_true_2 (FUTURE = FUTURE)) in Hrun by done. simplify_eq.
    destruct (trim_orders_frame (set_future_ask ask0 (set_future_bid bid0 s0)))
      as [Hc _].
    unfold core in Hc. rewrite Hseq in Hgate.
    pose proof (f_equal (λ c : Z * Z * Z * Z * Z, c.1.1.1.1) Hc) as Hm.
    pose proof (f_equal (λ c : Z * Z * Z * Z * Z, c.1.1.1.2) Hc) as Hp.
    pose proof (f_equal (λ c : Z * Z * Z * Z * Z, c.2) Hc) as Hd.
    cbn [fst snd] in Hm, Hp, Hd. rewrite Hm, Hp, Hd. subst s0.
    split_and!; [by destruct s..|].
    intros [?|?]; [lia|done].
  - (* ETF *)
    rewrite (bool_decide_eq_true_2 (ETF = ETF)) in Hrun by done.
    rewrite (bool_decide_eq_false_2 (ETF = FUTURE)) in Hrun by done.
    destruct (_ || _).
    + destruct (handle_arbitrage ap av bp bv s0) as [s1|] eqn:Harb; [|done].
      cbn [mbind option_bind] in Hrun. simplify_eq.
      apply Hgoal. by eapply handle_arbitrage_core.
    + destruct (_ && _).
      * destruct (handle_market_making bp bv ap av s0) as [s1|] eqn:Hmm; [|done].
        cbn [mbind option_bind] in Hrun. simplify_eq.
        apply Hgoal. by eapply handle_market_making_core.
      * cbn [mbind option_bind] in Hrun. simplify_eq. by apply Hgoal.
Qed.

Lemma handle_arbitrage_sizing_witness :
  ∃ s', handle_arbitrage [9900; 10000; 10100; 10200; 10300] [15; 50; 50; 50; 50]
          cheap_bids (five 50) idle_trader = Some s'
    ∧ s' = (send_bid_order 9900 15 FILL_AND_KILL idle_trader).2
    ∧ outbox s' = [InsertOrder 1 BUY 9900 15 FILL_AND_KILL].
Proof.
  apply (proj1 (handle_arbitrage_sizing [9900; 10000; 10100; 10200; 10300]
                  [15; 50; 50; 50; 50] cheap_bids (five 50) idle_trader) 9900 15).
  - reflexivity.
  - reflexivity.
  - vm_compute. reflexivity.
Defined.

(** C6, as amended. A snapshot whose sequence number is strictly below the
    running maximum [msg_seq] is a no-op: the gate returns before any
    strategy logic, the state is unchanged and nothing is sent.  A snapshot
    whose sequence number equals the running maximum, as a second delivery
    of the latest snapshot has, is not discarded: for the future instrument
    with non-zero best prices the cached prices are written and the resting
    orders trimmed again. *)
Theorem stale_snapshot_is_discarded instrument n ap av bp bv s :
  (n < msg_seq s →
     on_order_book_update_message instrument n ap av bp bv s = Some s)
  ∧ (∀ bid0 ask0,
       n = msg_seq s → bp !! 0%nat = Some bid0 → ap !! 0%nat = Some ask0 →
       bid0 ≠ 0 → ask0 ≠ 0 →
       on_order_book_update_message FUTURE n ap av bp bv s
       = Some (trim_orders (set_future_ask ask0 (set_future_bid bid0 s)))).
Proof.
  split; [apply on_order_book_update_message_stale|].
  intros bid0 ask0 -> Hbp Hap Hb Ha. unfold on_order_book_update_message.
  rewrite Z.max_id, set_msg_seq_same.
  rewrite bool_decide_eq_false_2 by (intros ?; done).
  rewrite Hbp. cbn [mbind option_bind]. rewrite bool_decide_eq_false_2 by done.
  rewrite Hap. cbn [mbind option_bind]. rewrite bool_decide_eq_false_2 by done.
  done.
Qed.

Lemma stale_snapshot_is_discarded_witness :
  on_order_book_update_message ETF 0 cheap_asks cheap_ask_volumes cheap_bids (five 50)
    idle_trader = Some idle_trader.
Proof.
  apply (proj1 (stale_snapshot_is_discarded ETF 0 cheap_asks cheap_ask_volumes
                  cheap_bids (five 50) idle_trader)).
  vm_compute. reflexivity.
Defined.

(** C6, as stated, fails: the ETF snapshot with sequence number 2 is
    delivered twice, and the second delivery sends a second fill-and-kill
    buy. *)
Lemma duplicate_snapshot_is_processed :
  ∃ s1 s2,
    on_order_book_update_message ETF 2 cheap_asks cheap_ask_volumes cheap_bids (five 50)
      idle_trader = Some s1
    ∧ on_order_book_update_message ETF 2 cheap_asks cheap_ask_volumes cheap_bids (five 50)
        s1 = Some s2
    ∧ outbox s1 = [InsertOrder 1 BUY 9900 20 FILL_AND_KILL]
    ∧ outbox s2 = [InsertOrder 1 BUY 9900 20 FILL_AND_KILL;
                   InsertOrder 2 BUY 9900 20 FILL_AND_KILL]
    ∧ s2 ≠ s1.
Proof.
  do 2 eexists. split_and!; [by vm_compute..|].
  intros Heq. apply (f_equal order_ids) in Heq. vm_compute in Heq. discriminate.
Qed.

(** C10. The gate keeps a single running maximum: once a snapshot with
    sequence number [n] has been handled, for any instrument [i], a snapshot
    with a lower sequence number [m] is discarded unchanged for every
    instrument [j], also another one whose own snapshots never reached [m]. *)
Theorem sequence_gate_is_shared i j n m ap av bp bv ap' av' bp' bv' s s' :
  on_order_book_update_message i n ap av bp bv s = Some s' →
  m < n →
  on_order_book_update_message j m ap' av' bp' bv' s' = Some s'.
Proof.
  intros Hrun Hm.
  apply on_order_book_update_message_msg_seq in Hrun as [Hseq _].
  apply on_order_book_update_message_stale. lia.
Qed.

(** The first ETF snapshot ever, numbered 3, after a future snapshot
    numbered 5. *)
Lemma sequence_gate_is_shared_witness :
  ∃ s',
    on_order_book_update_message FUTURE 5 future_asks (five 50) future_bids (five 50)
      (init 0) = Some s'
    ∧ on_order_book_update_message ETF 3 cheap_asks cheap_ask_volumes cheap_bids (five 50)
        s' = Some s'.
Proof.
  eexists. split; [by vm_compute|].
  apply (sequence_gate_is_shared FUTURE ETF 5 3 future_asks (five 50) future_bids
           (five 50) cheap_asks cheap_ask_volumes cheap_bids (five 50) (init 0)).
  - by vm_compute.
  - lia.
Defined.

(** ** Book clearing *)

Lemma Zsum_app l1 l2 : Zsum (l1 ++ l2) = Zsum l1 + Zsum l2.
Proof. unfold Zsum. induction l1 as [|x l1 IH]; simpl; lia. Qed.

Lemma cutoff_scan_spec prices full : ∀ rest (i : nat) vol cutoff,
  drop i full = rest →
  vol = Zsum (take i full) →
  (∀ j : nat, (j < i)%nat → ¬ reaches full j) →
  (length full ≤ length prices)%nat →
  ∃ c, cutoff_scan prices rest i vol cutoff = Some c
    ∧ ((∃ k : nat, (k < length full)%nat ∧ prices !! k = Some c
                  ∧ reaches full k ∧ ∀ j : nat, (j < k)%nat → ¬ reaches full j)
       ∨ ((∀ j : nat, (j < length full)%nat → ¬ reaches full j) ∧ c = cutoff)).
Proof.
  induction rest as [|v rest IH]; intros i vol cutoff Hdrop Hvol Hbelow Hlen.
  - exists cutoff. split; [done|]. right. split; [|done].
    intros j Hj. apply Hbelow.
    apply (f_equal length) in Hdrop. rewrite length_drop in Hdrop. simpl in Hdrop. lia.
  - assert (Hi : full !! i = Some v).
    { pose proof (lookup_drop full i 0) as H. rewrite Hdrop in H.
      rewrite Nat.add_0_r in H. by rewrite <- H. }
    assert (Hsum : Zsum (take (S i) full) = vol + v).
    { rewrite (take_S_r _ _ _ Hi), Zsum_app, Hvol. unfold Zsum. simpl. lia. }
    pose proof (lookup_lt_Some _ _ _ Hi) as Hlt.
    cbn [cutoff_scan]. case_bool_decide as Hreach.
    + destruct (lookup_lt_is_Some_2 prices i) as [c Hc]; [lia|].
      exists c. split; [done|]. left. exists i.
      split_and!; try done. unfold reaches. rewrite Hsum. lia.
    + apply IH; try done.
      * rewrite (drop_S _ _ _ Hi) in Hdrop. by simplify_eq.
      * intros j Hj. destruct (decide (j = i)) as [->|]; [|apply Hbelow; lia].
        unfold reaches. rewrite Hsum. lia.
Qed.

Lemma cancel_matching_requests (P : Z → bool) book : ∀ s,
  cancel_matching P book s = request_cancels (filter (λ kv, P kv.2) book).*1 s.
Proof.
  unfold cancel_matching, request_cancels.
  induction book as [|kv book IH]; intros s; [done|].
  cbn [foldl]. rewrite IH, filter_cons.
  by destruct (P kv.2).
Qed.

Lemma request_cancels_app ids1 ids2 s :
  request_cancels (ids1 ++ ids2) s = request_cancels ids2 (request_cancels ids1 s).
Proof. unfold request_cancels. apply foldl_app. Qed.

Lemma request_cancels_sent ids : ∀ s,
  ∃ sent, outbox (request_cancels ids s) = outbox s ++ (CancelOrder <$> sent)
          ∧ sent `sublist_of` ids.
Proof.
  unfold request_cancels.
  induction ids as [|id ids IH]; intros s.
  - exists []. by rewrite app_nil_r.
  - cbn [foldl]. destruct (IH (send_cancel_order id s).2) as (sent & -> & Hsub).
    rewrite send_cancel_order_outbox. destruct (admits s).
    + exists (id :: sent). rewrite <- app_assoc. split; [done|]. by apply sublist_skip.
    + exists sent. rewrite app_nil_r. split; [done|]. by apply sublist_cons.
Qed.

(** With room in the pruned window the attempt is admitted. *)
Lemma admits_room s : (window_load s < RATE_CAPACITY)%nat → admits s = true.
Proof.
  unfold admits, window_load. intros Hroom.
  rewrite check_message_limit_answer. unfold check_window.
  by rewrite bool_decide_eq_false_2 by lia.
Qed.

(** Whatever the clock reads next, the send has taken at most one slot. *)
Lemma send_cancel_order_admitted id s :
  (window_load s < RATE_CAPACITY)%nat →
  admits s = true
  ∧ (window_load (send_cancel_order id s).2 ≤ S (window_load s))%nat.
Proof.
  intros Hroom. split; [by apply admits_room|].
  assert (Hts : order_timestamps (send_cancel_order id s).2
                = (check_window (next_time s) (order_timestamps s)).2).
  { unfold send_cancel_order, next_time. destruct s; cbn.
    by destruct (check_window _ _) as [[] ?]. }
  unfold window_load at 1.
  etrans; [apply popleft_stale_length|]. rewrite Hts.
  unfold check_window, window_load in *.
  rewrite bool_decide_eq_false_2 by lia. cbn [snd].
  rewrite length_app. simpl. lia.
Qed.

Lemma request_cancels_all_sent ids : ∀ s,
  (window_load s + length ids ≤ RATE_CAPACITY)%nat →
  outbox (request_cancels ids s) = outbox s ++ (CancelOrder <$> ids).
Proof.
  unfold request_cancels.
  induction ids as [|id ids IH]; intros s Hroom.
  - by rewrite app_nil_r.
  - cbn [foldl length] in *.
    destruct (send_cancel_order_admitted id s) as [Hadm Hload]; [lia|].
    rewrite IH by lia. rewrite send_cancel_order_outbox, Hadm.
    by rewrite <- app_assoc.
Qed.

Lemma cutoff_scan_five prices volumes p4 :
  length prices = 5%nat → length volumes = 5%nat → last prices = Some p4 →
  ∃ c, cutoff_scan prices volumes 0 0 p4 = Some c ∧ is_cutoff prices volumes c.
Proof.
  intros Hp Hv Hlast.
  destruct (cutoff_scan_spec prices volumes volumes 0 0 p4) as (c & Hscan & Hc);
    [done|done|lia|lia|].
  exists c. split; [done|]. destruct Hc as [Hc|[Hnone ->]]; [by left|].
  right. split; [done|].
  destruct prices as [|a0 [|a1 [|a2 [|a3 [|a4 [|]]]]]]; try done.
Qed.

(** C8. On a snapshot of five levels a side, [clear_book] takes as ask
    (respectively bid) cutoff the price of the first level, best first, at
    which the cumulative volume reaches [3 * LOT_SIZE], and the fifth
    reported price when no level does; it then requests, through
    [send_cancel_order], the cancellation of every resting bid priced at or
    below the bid cutoff and of every resting ask priced at or above the ask
    cutoff, and of no other order.  Every cancel command that leaves is one
    of these requests, and all of them leave when the rate window has room
    for them. *)
Theorem clear_book_cutoffs ap bp av bv s :
  length ap = 5%nat → length bp = 5%nat → length av = 5%nat → length bv = 5%nat →
  ∃ cutoff_ask cutoff_bid,
    is_cutoff ap av cutoff_ask ∧ is_cutoff bp bv cutoff_bid
    ∧ clear_book ap bp av bv s
      = Some (request_cancels (clear_book_requests cutoff_ask cutoff_bid s) s)
    ∧ (∃ sent,
         outbox (request_cancels (clear_book_requests cutoff_ask cutoff_bid s) s)
         = outbox s ++ (CancelOrder <$> sent)
         ∧ sent `sublist_of` clear_book_requests cutoff_ask cutoff_bid s)
    ∧ ((window_load s + length (clear_book_requests cutoff_ask cutoff_bid s)
        ≤ RATE_CAPACITY)%nat →
       outbox (request_cancels (clear_book_requests cutoff_ask cutoff_bid s) s)
       = outbox s ++ (CancelOrder <$> clear_book_requests cutoff_ask cutoff_bid s)).
Proof.
  intros Hap Hbp Hav Hbv.
  assert (∃ a4, last ap = Some a4) as [a4 Ha4].
  { destruct ap as [|a0 [|a1 [|a2 [|a3 [|a4 [|]]]]]]; try done. by eexists. }
  assert (∃ b4, last bp = Some b4) as [b4 Hb4].
  { destruct bp as [|b0 [|b1 [|b2 [|b3 [|b4 [|]]]]]]; try done. by eexists. }
  destruct (cutoff_scan_five ap av a4 Hap Hav Ha4) as (ca & Hsa & Hca).
  destruct (cutoff_scan_five bp bv b4 Hbp Hbv Hb4) as (cb & Hsb & Hcb).
  exists ca, cb. split_and!; [done|done| |apply request_cancels_sent|
                             apply request_cancels_all_sent].
  unfold clear_book. rewrite Ha4, Hb4. cbn [mbind option_bind].
  rewrite Hsa, Hsb. cbn [mbind option_bind]. f_equal.
  match goal with |- context [cancel_matching ?P (bids s) s] =>
    destruct (cancel_matching_frame P (bids s) s) as (_ & Hl);
    assert (Hasks : asks (cancel_matching P (bids s) s) = asks s)
      by (unfold ledger in Hl; by simplify_eq)
  end.
  rewrite Hasks. clear Hasks Hl.
  rewrite !cancel_matching_requests.
  unfold clear_book_requests. rewrite request_cancels_app.
  rewrite (list_filter_iff (λ kv : Z * Z, bool_decide (kv.2 >= ca)) (λ kv, ca ≤ kv.2))
    by (intros kv; rewrite bool_decide_spec; lia).
  rewrite (list_filter_iff (λ kv : Z * Z, bool_decide (kv.2 <= cb)) (λ kv, kv.2 ≤ cb))
    by (intros kv; rewrite bool_decide_spec; lia).
  done.
Qed.

Lemma clear_book_cutoffs_witness :
  ∃ cutoff_ask cutoff_bid,
    is_cutoff wide_asks (five 50) cutoff_ask ∧ is_cutoff wide_bids (five 10) cutoff_bid
    ∧ clear_book wide_asks wide_bids (five 50) (five 10) quoting_trader
      = Some (request_cancels
                (clear_book_requests cutoff_ask cutoff_bid quoting_trader) quoting_trader)
    ∧ (∃ sent,
         outbox (request_cancels
                   (clear_book_requests cutoff_ask cutoff_bid quoting_trader) quoting_trader)
         = outbox quoting_trader ++ (CancelOrder <$> sent)
         ∧ sent `sublist_of` clear_book_requests cutoff_ask cutoff_bid quoting_trader)
    ∧ ((window_load quoting_trader
        + length (clear_book_requests cutoff_ask cutoff_bid quoting_trader)
        ≤ RATE_CAPACITY)%nat →
       outbox (request_cancels
                 (clear_book_requests cutoff_ask cutoff_bid quoting_trader) quoting_trader)
       = outbox quoting_trader
         ++ (CancelOrder <$> clear_book_requests cutoff_ask cutoff_bid quoting_trader)).
Proof.
  apply (clear_book_cutoffs wide_asks wide_bids (five 50) (five 10) quoting_trader);
    reflexivity.
Defined.

(** ** The quote ladder *)

Lemma dict_set_fresh k v (d : dict) : k ∉ d.*1 → dict_set k v d = d ++ [(k, v)].
Proof.
  induction d as [|[k' v'] d IH]; intros Hk; [done|].
  cbn [dict_set]. rewrite fmap_cons, not_elem_of_cons in Hk. destruct Hk as [Hne Hk].
  cbn [fst] in Hne. rewrite bool_decide_eq_false_2 by congruence.
  by rewrite IH.
Qed.

Lemma send_ask_order_ids price volume type s :
  order_ids (send_ask_order price volume type s).2
  = if admits s then order_ids s + 1 else order_ids s.
Proof.
  unfold send_ask_order, admits. destruct s; cbn.
  by destruct (check_window _ _) as [[] ?].
Qed.

Lemma send_bid_order_ids price volume type s :
  order_ids (send_bid_order price volume type s).2
  = if admits s then order_ids s + 1 else order_ids s.
Proof.
  unfold send_bid_order, admits. destruct s; cbn.
  by destruct (check_window _ _) as [[] ?].
Qed.

Lemma py_range_elem start stop p :
  p ∈ py_range start stop TICK_SIZE_IN_CENTS →
  start ≤ p < stop ∧ (p - start) `mod` TICK_SIZE_IN_CENTS = 0.
Proof.
  unfold py_range, TICK_SIZE_IN_CENTS.
  intros (k & -> & Hk)%list_elem_of_fmap.
  apply elem_of_seq in Hk as [_ Hk]. simpl in Hk.
  replace (start + 100 * Z.of_nat k - start) with (Z.of_nat k * 100) by lia.
  rewrite Z.mod_mul by lia. split; [|done].
  pose proof (Z.mul_div_le (stop - start + 100 - 1) 100).
  set (n := (stop - start + 100 - 1) `div` 100) in *. lia.
Qed.

Lemma py_range_NoDup start stop : NoDup (py_range start stop TICK_SIZE_IN_CENTS).
Proof.
  unfold py_range. apply NoDup_fmap_2; [|apply NoDup_seq].
  intros k1 k2 Hk. unfold TICK_SIZE_IN_CENTS in Hk. lia.
Qed.

Lemma quote_ask_loop_spec prices : ∀ s room,
  Forall (λ k, k < order_ids s) (asks s).*1 →
  ∃ quotes : list (Z * Z),
    outbox (foldl quote_ask_step (s, room) prices).1
    = outbox s ++ (quote SELL <$> quotes)
    ∧ quotes.*2 `sublist_of` prices
    ∧ Forall (λ p, p ∉ dict_values (asks s)) quotes.*2
    ∧ Z.of_nat (length quotes) ≤ Z.max 0 room
    ∧ order_ids s ≤ order_ids (foldl quote_ask_step (s, room) prices).1.
Proof.
  induction prices as [|i prices IH]; intros s room Hfresh.
  - exists []. simpl. rewrite app_nil_r. split_and!; [done|done|constructor|lia|lia].
  - cbn [foldl]. unfold quote_ask_step at 2 4. cbn [fst snd].
    destruct (negb (bool_decide (i ∈ dict_values (asks s))) && bool_decide (room > 0))
      eqn:Hcond.
    + apply andb_true_iff in Hcond as [Hnew Hroom].
      apply negb_true_iff, bool_decide_eq_false in Hnew.
      apply bool_decide_eq_true in Hroom.
      set (s1 := (send_ask_order i LOT_SIZE GOOD_FOR_DAY s).2).
      pose proof (send_ask_order_outbox i LOT_SIZE GOOD_FOR_DAY s) as Hout.
      pose proof (send_ask_order_asks i LOT_SIZE GOOD_FOR_DAY s) as Hasks.
      pose proof (send_ask_order_ids i LOT_SIZE GOOD_FOR_DAY s) as Hids.
      fold s1 in Hout, Hasks, Hids.
      destruct (admits s).
      * rewrite dict_set_fresh in Hasks.
        2:{ intros Hin. eapply Forall_forall in Hfresh; [|exact Hin]. simpl in Hfresh. lia. }
        destruct (IH s1 (room - 1)) as (quotes & Ho & Hsub & Hnot & Hlen & Hid).
        { rewrite Hasks, Hids, fmap_app. apply Forall_app. split.
          - eapply Forall_impl; [exact Hfresh|]. intros k Hk; simpl in Hk; lia.
          - repeat constructor. simpl. lia. }
        exists ((order_ids s, i) :: quotes). split_and!.
        -- rewrite Ho, Hout, <- app_assoc. done.
        -- simpl. by apply sublist_skip.
        -- simpl. constructor; [done|].
           eapply Forall_impl; [exact Hnot|]. intros p Hp Hin. apply Hp.
           unfold dict_values in *. rewrite Hasks, fmap_app. apply elem_of_app. by left.
        -- simpl length. lia.
        -- lia.
      * destruct (IH s1 (room - 1)) as (quotes & Ho & Hsub & Hnot & Hlen & Hid).
        { by rewrite Hasks, Hids. }
        exists quotes. split_and!.
        -- rewrite Ho, Hout, app_nil_r. done.
        -- by apply sublist_cons.
        -- by rewrite Hasks in Hnot.
        -- lia.
        -- lia.
    + destruct (IH s room Hfresh) as (quotes & Ho & Hsub & Hnot & Hlen & Hid).
      exists quotes. split_and!; try done. by apply sublist_cons.
Qed.

Lemma quote_bid_loop_spec prices : ∀ s room,
  Forall (λ k, k < order_ids s) (bids s).*1 →
  ∃ quotes : list (Z * Z),
    outbox (foldl quote_bid_step (s, room) prices).1
    = outbox s ++ (quote BUY <$> quotes)
    ∧ quotes.*2 `sublist_of` prices
    ∧ Forall (λ p, p ∉ dict_values (bids s)) quotes.*2
    ∧ Z.of_nat (length quotes) ≤ Z.max 0 room
    ∧ order_ids s ≤ order_ids (foldl quote_bid_step (s, room) prices).1.
Proof.
  induction prices as [|i prices IH]; intros s room Hfresh.
  - exists []. simpl. rewrite app_nil_r. split_and!; [done|done|constructor|lia|lia].
  - cbn [foldl]. unfold quote_bid_step at 2 4. cbn [fst snd].
    destruct (negb (bool_decide (i ∈ dict_values (bids s))) && bool_decide (room > 0))
      eqn:Hcond.
    + apply andb_true_iff in Hcond as [Hnew Hroom].
      apply negb_true_iff, bool_decide_eq_false in Hnew.
      apply bool_decide_eq_true in Hroom.
      set (s1 := (send_bid_order i LOT_SIZE GOOD_FOR_DAY s).2).
      pose proof (send_bid_order_outbox i LOT_SIZE GOOD_FOR_DAY s) as Hout.
      pose proof (send_bid_order_bids i LOT_SIZE GOOD_FOR_DAY s) as Hbids.
      pose proof (send_bid_order_ids i LOT_SIZE GOOD_FOR_DAY s) as Hids.
      fold s1 in Hout, Hbids, Hids.
      destruct (admits s).
      * rewrite dict_set_fresh in Hbids.
        2:{ intros Hin. eapply Forall_forall in Hfresh; [|exact Hin]. simpl in Hfresh. lia. }
        destruct (IH s1 (room - 1)) as (quotes & Ho & Hsub & Hnot & Hlen & Hid).
        { rewrite Hbids, Hids, fmap_app. apply Forall_app. split.
          - eapply Forall_impl; [exact Hfresh|]. intros k Hk; simpl in Hk; lia.
          - repeat constructor. simpl. lia. }
        exists ((order_ids s, i) :: quotes). split_and!.
        -- rewrite Ho, Hout, <- app_assoc. done.
        -- simpl. by apply sublist_skip.
        -- simpl. constructor; [done|].
           eapply Forall_impl; [exact Hnot|]. intros p Hp Hin. apply Hp.
           unfold dict_values in *. rewrite Hbids, fmap_app. apply elem_of_app. by left.
        -- simpl length. lia.
        -- lia.
      * destruct (IH s1 (room - 1)) as (quotes & Ho & Hsub & Hnot & Hlen & Hid).
        { by rewrite Hbids, Hids. }
        exists quotes. split_and!.
        -- rewrite Ho, Hout, app_nil_r. done.
        -- by apply sublist_cons.
        -- by rewrite Hbids in Hnot.
        -- lia.
        -- lia.
    + destruct (IH s room Hfresh) as (quotes & Ho & Hsub & Hnot & Hlen & Hid).
      exists quotes. split_and!; try done. by apply sublist_cons.
Qed.

Lemma clear_book_outbox ap bp av bv s s' :
  clear_book ap bp av bv s = Some s' →
  ∃ sent, outbox s' = outbox s ++ (CancelOrder <$> sent).
Proof.
  unfold clear_book. intros Hrun.
  destruct (last ap) as [ca0|]; [|done].
  destruct (last bp) as [cb0|]; [|done]. cbn [mbind option_bind] in Hrun.
  destruct (cutoff_scan ap av 0 0 ca0) as [ca|]; [|done].
  destruct (cutoff_scan bp bv 0 0 cb0) as [cb|]; [|done].
  cbn [mbind option_bind] in Hrun. simplify_eq.
  rewrite !cancel_matching_requests.
  match goal with |- context [request_cancels ?ids2 (request_cancels ?ids1 s)] =>
    destruct (request_cancels_sent ids1 s) as (sent1 & Ho1 & _);
    destruct (request_cancels_sent ids2 (request_cancels ids1 s)) as (sent2 & Ho2 & _)
  end.
  exists (sent1 ++ sent2). rewrite Ho2, Ho1, fmap_app, app_assoc. done.
Qed.

(** C7, as amended. When [handle_market_making] runs in a state whose ledger
    identifiers were drawn from the counter, the commands it sends are the
    cancels of the book clearing, then asks, then bids.  Every ask is a
    good-for-day sell of [LOT_SIZE] at a price in [[min_ask, etf_ask)] with
    [min_ask = future_ask + 2 ticks], a whole number of ticks above
    [min_ask], not quoted by any resting ask and not repeated; every bid is
    a good-for-day buy of [LOT_SIZE] at a price in [[etf_bid, max_bid)] with
    [max_bid = future_bid - 2 ticks], a whole number of ticks above
    [etf_bid], not quoted by any resting bid and not repeated.  The number
    of new quotes of a side is at most
    [floor((POSITION_LIMIT ± position) / LOT_SIZE)] minus the number of
    resting orders of that side when that difference is not negative, and
    zero when it is negative. *)
Theorem handle_market_making_ladder bp bv ap av s s' etf_bid etf_ask :
  ledger_fresh s →
  bp !! 0%nat = Some etf_bid → ap !! 0%nat = Some etf_ask →
  handle_market_making bp bv ap av s = Some s' →
  let min_ask := future_ask s + 2 * TICK_SIZE_IN_CENTS in
  let max_bid := future_bid s - 2 * TICK_SIZE_IN_CENTS in
  let sell_room :=
    (position s + POSITION_LIMIT) `div` LOT_SIZE - Z.of_nat (length (asks s)) in
  let buy_room :=
    (POSITION_LIMIT - position s) `div` LOT_SIZE - Z.of_nat (length (bids s)) in
  ∃ cancelled new_asks new_bids,
    outbox s' = outbox s ++ (CancelOrder <$> cancelled)
                  ++ (quote SELL <$> new_asks) ++ (quote BUY <$> new_bids)
    ∧ Forall (λ p, min_ask ≤ p < etf_ask
                   ∧ (p - min_ask) `mod` TICK_SIZE_IN_CENTS = 0
                   ∧ p ∉ dict_values (asks s)) new_asks.*2
    ∧ NoDup new_asks.*2
    ∧ Z.of_nat (length new_asks) ≤ Z.max 0 sell_room
    ∧ Forall (λ p, etf_bid ≤ p < max_bid
                   ∧ (p - etf_bid) `mod` TICK_SIZE_IN_CENTS = 0
                   ∧ p ∉ dict_values (bids s)) new_bids.*2
    ∧ NoDup new_bids.*2
    ∧ Z.of_nat (length new_bids) ≤ Z.max 0 buy_room.
Proof.
  intros [Hfb Hfa] Hbp Hap Hrun min_ask max_bid sell_room buy_room.
  unfold handle_market_making in Hrun.
  destruct (clear_book ap bp av bv s) as [s1|] eqn:Hclear; [|done].
  cbn [mbind option_bind] in Hrun. rewrite Hbp, Hap in Hrun.
  cbn [mbind option_bind] in Hrun. simplify_eq.
  destruct (clear_book_frame _ _ _ _ _ _ Hclear) as (Hc & Hl).
  destruct (clear_book_outbox _ _ _ _ _ _ Hclear) as (cancelled & Hout1).
  unfold core, ledger in Hc, Hl.
  assert (position s1 = position s ∧ future_bid s1 = future_bid s
          ∧ future_ask s1 = future_ask s ∧ order_ids s1 = order_ids s
          ∧ bids s1 = bids s ∧ asks s1 = asks s)
    as (Hpos & Hfbid & Hfask & Hids & Hbids & Hasks).
  { by simplify_eq. }
  rewrite Hpos, Hfbid, Hfask, Hbids, Hasks.
  fold min_ask max_bid sell_room buy_room.
  destruct (quote_ask_loop_spec (py_range min_ask etf_ask TICK_SIZE_IN_CENTS)
              s1 sell_room) as (new_asks & Ho2 & Hsub2 & Hnot2 & Hlen2 & Hid2).
  { by rewrite Hasks, Hids. }
  destruct (quote_ask_loop_frame (py_range min_ask etf_ask TICK_SIZE_IN_CENTS)
              (s1, sell_room)) as (_ & Hb2).
  set (s2 := (foldl quote_ask_step (s1, sell_room)
                (py_range min_ask etf_ask TICK_SIZE_IN_CENTS)).1) in *.
  cbn [fst] in Hb2.
  destruct (quote_bid_loop_spec (py_range etf_bid max_bid TICK_SIZE_IN_CENTS)
              s2 buy_room) as (new_bids & Ho3 & Hsub3 & Hnot3 & Hlen3 & _).
  { rewrite Hb2, Hbids. eapply Forall_impl; [exact Hfb|].
    intros k Hk; simpl in Hk; lia. }
  exists cancelled, new_asks, new_bids. split_and!.
  - rewrite Ho3, Ho2, Hout1, <- !app_assoc. done.
  - apply Forall_forall. intros p Hp.
    pose proof (elem_of_sublist _ _ _ Hp Hsub2) as Hin.
    apply py_range_elem in Hin as [Hr Hm].
    eapply Forall_forall in Hnot2; [|exact Hp]. by rewrite Hasks in Hnot2.
  - eapply sublist_NoDup; [apply py_range_NoDup|exact Hsub2].
  - done.
  - apply Forall_forall. intros p Hp.
    pose proof (elem_of_sublist _ _ _ Hp Hsub3) as Hin.
    apply py_range_elem in Hin as [Hr Hm].
    eapply Forall_forall in Hnot3; [|exact Hp]. by rewrite Hb2, Hbids in Hnot3.
  - eapply sublist_NoDup; [apply py_range_NoDup|exact Hsub3].
  - done.
Qed.

Lemma handle_market_making_ladder_witness :
  ∃ s', handle_market_making wide_bids (five 50) wide_asks (five 50) idle_trader
        = Some s'
    ∧ ∃ cancelled new_asks new_bids,
        outbox s' = outbox idle_trader ++ (CancelOrder <$> cancelled)
                      ++ (quote SELL <$> new_asks) ++ (quote BUY <$> new_bids)
        ∧ Forall (λ p, 10300 ≤ p < 10800
                       ∧ (p - 10300) `mod` TICK_SIZE_IN_CENTS = 0
                       ∧ p ∉ dict_values (asks idle_trader)) new_asks.*2
        ∧ NoDup new_asks.*2
        ∧ Z.of_nat (length new_asks) ≤ Z.max 0 5
        ∧ Forall (λ p, 9300 ≤ p < 9800
                       ∧ (p - 9300) `mod` TICK_SIZE_IN_CENTS = 0
                       ∧ p ∉ dict_values (bids idle_trader)) new_bids.*2
        ∧ NoDup new_bids.*2
        ∧ Z.of_nat (length new_bids) ≤ Z.max 0 5.
Proof.
  eexists. split; [by vm_compute|].
  apply (handle_market_making_ladder wide_bids (five 50) wide_asks (five 50)
           idle_trader _ 9300 10800).
  - split; constructor.
  - reflexivity.
  - reflexivity.
  - by vm_compute.
Defined.

(** C7, as stated, fails on its last part: after one lot of a resting ask is
    filled, [floor((position + POSITION_LIMIT) / LOT_SIZE)] minus the five
    resting asks is [-1]; the quoter sends nothing, and its zero new asks
    exceed that number. *)
Lemma no_quotes_exceed_negative_room :
  ∃ s s',
    run 1 2147483647 one_lot_sold (init 0) = Some s
    ∧ handle_market_making wide_bids (five 50) wide_asks (five 50) s = Some s'
    ∧ outbox s' = outbox s
    ∧ (position s + POSITION_LIMIT) `div` LOT_SIZE - Z.of_nat (length (asks s)) = -1
    ∧ ¬ (0 ≤ (position s + POSITION_LIMIT) `div` LOT_SIZE - Z.of_nat (length (asks s))).
Proof.
  do 2 eexists. split_and!; [by vm_compute..|]. vm_compute. by intros H.
Qed.

(** ** What each callback may write *)

Lemma on_order_filled_message_core MINIMUM_BID MAXIMUM_ASK id price volume s s' :
  on_order_filled_message MINIMUM_BID MAXIMUM_ASK id price volume s = Some s' →
  msg_seq s' = msg_seq s ∧ future_bid s' = future_bid s ∧ future_ask s' = future_ask s.
Proof.
  unfold on_order_filled_message. intros Hrun.
  destruct (dict_mem id (bids s)); [|destruct (dict_mem id (asks s))].
  - edestruct send_hedge_order_spec as (s1 & Hs1 & Hc & _).
    rewrite Hs1 in Hrun. cbn in Hrun. simplify_eq. clear Hs1.
    unfold core in Hc. destruct s; cbn in *. by simplify_eq.
  - edestruct send_hedge_order_spec as (s1 & Hs1 & Hc & _).
    rewrite Hs1 in Hrun. cbn in Hrun. simplify_eq. clear Hs1.
    unfold core in Hc. destruct s; cbn in *. by simplify_eq.
  - by simplify_eq.
Qed.

(** Only a book update of the future writes the cached future prices. *)
Lemma deliver_future_prices MINIMUM_BID MAXIMUM_ASK e s s' :
  not_future_book e →
  deliver MINIMUM_BID MAXIMUM_ASK e s = Some s' →
  future_bid s' = future_bid s ∧ future_ask s' = future_ask s.
Proof.
  intros He Hrun. destruct e as [i n ap av bp bv| | | | | | |]; cbn in Hrun.
  - destruct i; [done|].
    apply on_order_book_update_message_msg_seq in Hrun as (_ & _ & _ & Hf).
    apply Hf. by right.
  - by simplify_eq.
  - by apply on_order_filled_message_core in Hrun as (_ & ? & ?).
  - simplify_eq. unfold on_order_status_message. by case_bool_decide.
  - simplify_eq. unfold on_hedge_filled_message. by repeat case_bool_decide.
  - simplify_eq. unfold on_error_message, on_order_status_message.
    destruct (_ && _); [|done]. by case_bool_decide.
  - by simplify_eq.
  - by simplify_eq.
Qed.

(** Only [on_order_filled_message] writes the position. *)
Lemma deliver_position MINIMUM_BID MAXIMUM_ASK e s s' :
  deliver MINIMUM_BID MAXIMUM_ASK e s = Some s' →
  position s' ≠ position s →
  ∃ id price volume, e = OrderFilled id price volume.
Proof.
  intros Hrun Hpos. destruct e as [i n ap av bp bv| | | | | | |]; cbn in Hrun.
  - apply on_order_book_update_message_msg_seq in Hrun as (_ & ? & _). done.
  - by simplify_eq.
  - by do 3 eexists.
  - simplify_eq. unfold on_order_status_message in Hpos. by case_bool_decide.
  - simplify_eq. unfold on_hedge_filled_message in Hpos. by repeat case_bool_decide.
  - simplify_eq. unfold on_error_message, on_order_status_message in Hpos.
    destruct (_ && _); [|done]. by case_bool_decide.
  - by simplify_eq.
  - by simplify_eq.
Qed.

(** A snapshot of the future that is not processed only advances the
    sequence number. *)
Lemma future_snapshot_discarded n ap av bp bv s s' :
  future_processed (OrderBookUpdate FUTURE n ap av bp bv) s = false →
  on_order_book_update_message FUTURE n ap av bp bv s = Some s' →
  s' = set_msg_seq (Z.max (msg_seq s) n) s.
Proof.
  unfold future_processed, on_order_book_update_message. intros Hnot Hrun.
  set (s0 := set_msg_seq (Z.max (msg_seq s) n) s) in *.
  assert (Hseq : msg_seq s0 = Z.max (msg_seq s) n) by (by destruct s).
  case_bool_decide as Hgate; [by simplify_eq|]. rewrite Hseq in Hgate.
  destruct (bp !! 0%nat) as [bid0|]; [|done]. cbn [mbind option_bind] in Hrun.
  case_bool_decide as Hbid; [by simplify_eq|].
  destruct (ap !! 0%nat) as [ask0|]; [|done]. cbn [mbind option_bind] in Hrun.
  case_bool_decide as Hask; [by simplify_eq|].
  apply bool_decide_eq_false in Hnot. exfalso. apply Hnot. lia.
Qed.

Lemma deliver_unprocessed MINIMUM_BID MAXIMUM_ASK e s s' :
  future_processed e s = false →
  deliver MINIMUM_BID MAXIMUM_ASK e s = Some s' →
  future_bid s' = future_bid s ∧ future_ask s' = future_ask s.
Proof.
  intros Hnot Hrun.
  destruct e as [[] n ap av bp bv| | | | | | |];
    try (eapply deliver_future_prices; [|exact Hrun]; done).
  cbn in Hrun. rewrite (future_snapshot_discarded _ _ _ _ _ _ _ Hnot Hrun).
  by destruct s.
Qed.

Lemma run_before_first_future MINIMUM_BID MAXIMUM_ASK events : ∀ s s',
  before_first_future MINIMUM_BID MAXIMUM_ASK events s = true →
  run MINIMUM_BID MAXIMUM_ASK events s = Some s' →
  future_bid s' = future_bid s ∧ future_ask s' = future_ask s.
Proof.
  induction events as [|e events IH]; intros s s' Hall Hrun.
  - cbn in Hrun. by simplify_eq.
  - cbn [before_first_future run] in Hall, Hrun.
    destruct (deliver MINIMUM_BID MAXIMUM_ASK e s) as [s1|] eqn:Hd; [|done].
    cbn [mbind option_bind] in Hrun.
    apply andb_true_iff in Hall as [He Hall]. apply negb_true_iff in He.
    destruct (deliver_unprocessed _ _ _ _ _ He Hd) as [<- <-].
    by apply IH.
Qed.

(** ** Before the first snapshot of the future *)

(** C9. While no book update of the future has been processed (those that
    were delivered were discarded, as out of date or for a zero best
    price), the cached future prices are 0.  An ETF snapshot that passes the
    sequence gate with positive best prices then has its best bid above
    [future_ask], is handed to [handle_arbitrage] and takes the overvalued
    branch: market making does not run, and whenever
    [min(bid_volumes[0], position + ARBITRAGE_LIMIT)] is positive the ask
    wrapper is called for a fill-and-kill sell of that volume at the best
    bid, which goes out when the rate window admits it, as it does whenever
    the pruned window holds fewer than 50 timestamps. *)
Theorem arbitrage_before_first_future MINIMUM_BID MAXIMUM_ASK t0 events s
    n ap av bp bv bid0 ask0 bv0 :
  before_first_future MINIMUM_BID MAXIMUM_ASK events (init t0) = true →
  run MINIMUM_BID MAXIMUM_ASK events (init t0) = Some s →
  bp !! 0%nat = Some bid0 → ap !! 0%nat = Some ask0 → bv !! 0%nat = Some bv0 →
  0 < bid0 → 0 < ask0 → msg_seq s ≤ n →
  future_bid s = 0 ∧ future_ask s = 0 ∧ bid0 > future_ask s
  ∧ on_order_book_update_message ETF n ap av bp bv s
    = handle_arbitrage ap av bp bv (set_msg_seq n s)
  ∧ ∃ s', on_order_book_update_message ETF n ap av bp bv s = Some s'
      ∧ let sell_volume := Z.min bv0 (position s + ARBITRAGE_LIMIT) in
        s' = (if bool_decide (0 < sell_volume)
              then (send_ask_order bid0 sell_volume FILL_AND_KILL (set_msg_seq n s)).2
              else set_msg_seq n s)
        ∧ outbox s' = outbox s ++
            (if bool_decide (0 < sell_volume) && admits s
             then [InsertOrder (order_ids s) SELL bid0 sell_volume FILL_AND_KILL]
             else [])
        ∧ (0 < sell_volume → (window_load s < RATE_CAPACITY)%nat →
           outbox s' = outbox s ++
             [InsertOrder (order_ids s) SELL bid0 sell_volume FILL_AND_KILL]).
Proof.
  intros Hall Hrun Hbp Hap Hbv Hbid Hask Hseq.
  destruct (run_before_first_future _ _ _ _ _ Hall Hrun) as [Hfb Hfa].
  cbn in Hfb, Hfa.
  assert (Harb : on_order_book_update_message ETF n ap av bp bv s
                 = handle_arbitrage ap av bp bv (set_msg_seq n s)).
  { unfold on_order_book_update_message.
    rewrite Z.max_r by lia.
    rewrite bool_decide_eq_false_2 by (by destruct s; cbn; intros ?).
    rewrite Hbp. cbn [mbind option_bind]. rewrite bool_decide_eq_false_2 by lia.
    rewrite Hap. cbn [mbind option_bind]. rewrite bool_decide_eq_false_2 by lia.
    rewrite (bool_decide_eq_true_2 (ETF = ETF)) by done.
    rewrite (bool_decide_eq_false_2 (ETF = FUTURE)) by done.
    assert (future_ask (set_msg_seq n s) = 0) as -> by (by destruct s).
    assert (future_bid (set_msg_seq n s) = 0) as -> by (by destruct s).
    rewrite (bool_decide_eq_false_2 (ask0 < 0)) by lia.
    rewrite (bool_decide_eq_true_2 (bid0 > 0)) by lia. cbn [orb].
    by destruct (handle_arbitrage _ _ _ _ _). }
  split_and!; [done|done|lia|done|].
  - destruct (handle_arbitrage_overvalued ap av bp bv (set_msg_seq n s) ask0 bid0 bv0)
      as (s' & Hs' & Heq & Hout); try done.
    { assert (future_bid (set_msg_seq n s) = 0) as -> by (by destruct s). lia. }
    { assert (future_ask (set_msg_seq n s) = 0) as -> by (by destruct s). lia. }
    exists s'. rewrite Harb. split; [done|].
    assert (position (set_msg_seq n s) = position s) as Hp by (by destruct s).
    assert (admits (set_msg_seq n s) = admits s) as Ha by (by destruct s).
    assert (outbox (set_msg_seq n s) = outbox s) as Ho by (by destruct s).
    assert (order_ids (set_msg_seq n s) = order_ids s) as Hi by (by destruct s).
    rewrite Hp, Ha, Ho, Hi in *. cbv zeta in *. split_and!; [done|done|].
    intros Hpos Hroom. rewrite Hout.
    rewrite bool_decide_eq_true_2 by done. by rewrite (admits_room s Hroom).
Qed.

Lemma arbitrage_before_first_future_witness :
  ∃ s, run 1 2147483647 unheard_future (init 0) = Some s
    ∧ (outbox <$> on_order_book_update_message ETF 7 cheap_asks cheap_ask_volumes
                    cheap_bids (five 50) s)
      = Some [InsertOrder 1 SELL 9300 20 FILL_AND_KILL;
              InsertOrder 2 SELL 9800 20 FILL_AND_KILL]
    ∧ future_bid s = 0 ∧ future_ask s = 0 ∧ 9800 > future_ask s
    ∧ on_order_book_update_message ETF 7 cheap_asks cheap_ask_volumes cheap_bids
        (five 50) s
      = handle_arbitrage cheap_asks cheap_ask_volumes cheap_bids (five 50)
          (set_msg_seq 7 s)
    ∧ ∃ s', on_order_book_update_message ETF 7 cheap_asks cheap_ask_volumes
              cheap_bids (five 50) s = Some s'
        ∧ let sell_volume := Z.min 50 (position s + ARBITRAGE_LIMIT) in
          s' = (if bool_decide (0 < sell_volume)
                then (send_ask_order 9800 sell_volume FILL_AND_KILL
                        (set_msg_seq 7 s)).2
                else set_msg_seq 7 s)
          ∧ outbox s' = outbox s ++
              (if bool_decide (0 < sell_volume) && admits s
               then [InsertOrder (order_ids s) SELL 9800 sell_volume FILL_AND_KILL]
               else [])
          ∧ (0 < sell_volume → (window_load s < RATE_CAPACITY)%nat →
             outbox s' = outbox s ++
               [InsertOrder (order_ids s) SELL 9800 sell_volume FILL_AND_KILL]).
Proof.
  eexists. split; [by vm_compute|]. split; [by vm_compute|].
  apply (arbitrage_before_first_future 1 2147483647 0 unheard_future _ 7
           cheap_asks cheap_ask_volumes cheap_bids (five 50) 9800 9900 50).
  - by vm_compute.
  - by vm_compute.
  - reflexivity.
  - reflexivity.
  - reflexivity.
  - lia.
  - lia.
  - by vm_compute.
Defined.

(** ** The position limit *)

(** C1, evaluated where it fails. The events of [breach] only report fills of
    orders the trader sent, each for no more than the volume it was sent
    for: five resting bids of [LOT_SIZE] quoted by the market maker at
    position 0 and one arbitrage buy of 20 lots, sized against
    [ARBITRAGE_LIMIT] without regard for the resting bids.  Once all six are
    filled the position is 120, above [POSITION_LIMIT]. *)
Theorem position_limit_breach :
  fills_within_orders 1 2147483647 [] breach (init 0) = true
  ∧ position <$> run 1 2147483647 breach (init 0) = Some 120
  ∧ POSITION_LIMIT < 120.
Proof. split_and!; [by vm_compute..|]. unfold POSITION_LIMIT. lia. Qed.

(** ** The ledger only holds identifiers drawn from the counter *)

Lemma ledger_fresh_ledger s s' : ledger s' = ledger s → ledger_fresh s → ledger_fresh s'.
Proof.
  unfold ledger, ledger_fresh. intros Hl. simplify_eq.
  by repeat match goal with H : _ s' = _ s |- _ => rewrite H end.
Qed.

Lemma dict_pop_keys k (d : dict) c :
  Forall (λ k', k' < c) d.*1 → Forall (λ k', k' < c) (dict_pop k d).*1.
Proof.
  intros Hall. apply Forall_forall. intros k' (kv & -> & Hkv)%list_elem_of_fmap.
  unfold dict_pop in Hkv. apply list_elem_of_filter in Hkv as [_ Hkv].
  eapply Forall_forall in Hall; [exact Hall|]. apply list_elem_of_fmap. by exists kv.
Qed.

Lemma dict_set_keys k v (d : dict) c :
  k < c → Forall (λ k', k' < c) d.*1 → Forall (λ k', k' < c) (dict_set k v d).*1.
Proof.
  intros Hk. induction d as [|[k' v'] d IH]; intros Hall.
  - by repeat constructor.
  - cbn [dict_set]. rewrite fmap_cons in Hall. apply Forall_cons in Hall as [Hk' Hall].
    case_bool_decide; rewrite fmap_cons; constructor; auto.
Qed.

Lemma Forall_lt_mono (l : list Z) c c' :
  c ≤ c' → Forall (λ k, k < c) l → Forall (λ k, k < c') l.
Proof. intros Hc H. eapply Forall_impl; [exact H|]. intros k Hk. simpl in Hk. lia. Qed.

Lemma send_bid_order_fresh price volume type s :
  ledger_fresh s → ledger_fresh (send_bid_order price volume type s).2.
Proof.
  intros [Hb Ha]. unfold ledger_fresh.
  rewrite send_bid_order_bids, send_bid_order_ids.
  destruct (send_bid_order_frame price volume type s) as (_ & -> & _).
  destruct (admits s); [|done]. split.
  - apply dict_set_keys; [lia|]. eapply Forall_lt_mono; [|exact Hb]. lia.
  - eapply Forall_lt_mono; [|exact Ha]. lia.
Qed.

Lemma send_ask_order_fresh price volume type s :
  ledger_fresh s → ledger_fresh (send_ask_order price volume type s).2.
Proof.
  intros [Hb Ha]. unfold ledger_fresh.
  rewrite send_ask_order_asks, send_ask_order_ids.
  destruct (send_ask_order_frame price volume type s) as (_ & -> & _).
  destruct (admits s); [|done]. split.
  - eapply Forall_lt_mono; [|exact Hb]. lia.
  - apply dict_set_keys; [lia|]. eapply Forall_lt_mono; [|exact Ha]. lia.
Qed.

Lemma quote_ask_loop_fresh prices : ∀ st,
  ledger_fresh st.1 → ledger_fresh (foldl quote_ask_step st prices).1.
Proof.
  induction prices as [|i prices IH]; intros st Hfresh; [done|].
  cbn [foldl]. apply IH. unfold quote_ask_step.
  destruct (_ && _); [|done]. by apply send_ask_order_fresh.
Qed.

Lemma quote_bid_loop_fresh prices : ∀ st,
  ledger_fresh st.1 → ledger_fresh (foldl quote_bid_step st prices).1.
Proof.
  induction prices as [|i prices IH]; intros st Hfresh; [done|].
  cbn [foldl]. apply IH. unfold quote_bid_step.
  destruct (_ && _); [|done]. by apply send_bid_order_fresh.
Qed.

Lemma handle_arbitrage_fresh ap av bp bv s s' :
  handle_arbitrage ap av bp bv s = Some s' → ledger_fresh s → ledger_fresh s'.
Proof.
  unfold handle_arbitrage. intros Hrun Hfresh.
  destruct (ap !! 0%nat) as [ask0|]; [|done]. cbn [mbind option_bind] in Hrun.
  case_bool_decide.
  - destruct (av !! 0%nat) as [av0|]; [|done]. cbn [mbind option_bind] in Hrun.
    case_bool_decide; simplify_eq; [|done]. by apply send_bid_order_fresh.
  - destruct (bp !! 0%nat) as [bid0|]; [|done]. cbn [mbind option_bind] in Hrun.
    case_bool_decide; simplify_eq; [|done].
    destruct (bv !! 0%nat) as [bv0|]; [|done]. cbn [mbind option_bind] in Hrun.
    case_bool_decide; simplify_eq; [|done]. by apply send_ask_order_fresh.
Qed.

Lemma handle_market_making_fresh bp bv ap av s s' :
  handle_market_making bp bv ap av s = Some s' → ledger_fresh s → ledger_fresh s'.
Proof.
  unfold handle_market_making. intros Hrun Hfresh.
  destruct (clear_book ap bp av bv s) as [s1|] eqn:Hclear; [|done].
  cbn [mbind option_bind] in Hrun.
  destruct (bp !! 0%nat) as [etf_bid|]; [|done].
  destruct (ap !! 0%nat) as [etf_ask|]; [|done].
  cbn [mbind option_bind] in Hrun. simplify_eq.
  destruct (clear_book_frame _ _ _ _ _ _ Hclear) as (_ & Hl).
  apply quote_bid_loop_fresh. cbn [fst]. apply quote_ask_loop_fresh. cbn [fst].
  by eapply ledger_fresh_ledger.
Qed.

Lemma on_order_book_update_message_fresh i n ap av bp bv s s' :
  on_order_book_update_message i n ap av bp bv s = Some s' →
  ledger_fresh s → ledger_fresh s'.
Proof.
  unfold on_order_book_update_message. intros Hrun Hfresh.
  set (s0 := set_msg_seq (Z.max (msg_seq s) n) s) in *.
  assert (H0 : ledger_fresh s0) by (by destruct s).
  clearbody s0. clear Hfresh.
  case_bool_decide; [by simplify_eq|].
  destruct (bp !! 0%nat) as [bid0|]; [|done]. cbn [mbind option_bind] in Hrun.
  case_bool_decide; [by simplify_eq|].
  destruct (ap !! 0%nat) as [ask0|]; [|done]. cbn [mbind option_bind] in Hrun.
  case_bool_decide; [by simplify_eq|].
  destruct i.
  - rewrite (bool_decide_eq_false_2 (FUTURE = ETF)) in Hrun by done.
    cbn [mbind option_bind] in Hrun.
    rewrite (bool_decide_eq_true_2 (FUTURE = FUTURE)) in Hrun by done. simplify_eq.
    eapply ledger_fresh_ledger; [apply trim_orders_frame|]. by destruct s0.
  - rewrite (bool_decide_eq_true_2 (ETF = ETF)) in Hrun by done.
    rewrite (bool_decide_eq_false_2 (ETF = FUTURE)) in Hrun by done.
    destruct (_ || _).
    + destruct (handle_arbitrage ap av bp bv s0) as [s1|] eqn:Harb; [|done].
      cbn [mbind option_bind] in Hrun. simplify_eq.
      by eapply handle_arbitrage_fresh.
    + destruct (_ && _).
      * destruct (handle_market_making bp bv ap av s0) as [s1|] eqn:Hmm; [|done].
        cbn [mbind option_bind] in Hrun. simplify_eq.
        by eapply handle_market_making_fresh.
      * cbn [mbind option_bind] in Hrun. by simplify_eq.
Qed.

Lemma on_order_status_message_fresh id fill remaining fees s :
  ledger_fresh s → ledger_fresh (on_order_status_message id fill remaining fees s).
Proof.
  intros [Hb Ha]. unfold on_order_status_message. case_bool_decide; [|done].
  destruct s; cbn in *. split; by apply dict_pop_keys.
Qed.

Lemma on_order_filled_message_fresh MINIMUM_BID MAXIMUM_ASK id price volume s s' :
  on_order_filled_message MINIMUM_BID MAXIMUM_ASK id price volume s = Some s' →
  ledger_fresh s → ledger_fresh s'.
Proof.
  unfold on_order_filled_message. intros Hrun [Hb Ha].
  destruct (dict_mem id (bids s)); [|destruct (dict_mem id (asks s))].
  - edestruct send_hedge_order_spec as (s1 & Hs1 & _ & _ & Hb1 & Ha1 & Hi1).
    rewrite Hs1 in Hrun. cbn in Hrun. simplify_eq.
    unfold ledger_fresh. rewrite Hb1, Ha1, Hi1. destruct s; cbn in *.
    split; eapply Forall_lt_mono; try eassumption; lia.
  - edestruct send_hedge_order_spec as (s1 & Hs1 & _ & _ & Hb1 & Ha1 & Hi1).
    rewrite Hs1 in Hrun. cbn in Hrun. simplify_eq.
    unfold ledger_fresh. rewrite Hb1, Ha1, Hi1. destruct s; cbn in *.
    split; eapply Forall_lt_mono; try eassumption; lia.
  - by simplify_eq.
Qed.

Lemma deliver_fresh MINIMUM_BID MAXIMUM_ASK e s s' :
  deliver MINIMUM_BID MAXIMUM_ASK e s = Some s' → ledger_fresh s → ledger_fresh s'.
Proof.
  intros Hrun Hfresh. destruct e; cbn in Hrun.
  - by eapply on_order_book_update_message_fresh.
  - by simplify_eq.
  - by eapply on_order_filled_message_fresh.
  - simplify_eq. by apply on_order_status_message_fresh.
  - simplify_eq. unfold on_hedge_filled_message.
    repeat case_bool_decide; by destruct s.
  - simplify_eq. unfold on_error_message.
    destruct (_ && _); [|done]. by apply on_order_status_message_fresh.
  - simplify_eq. by destruct s.
  - simplify_eq. by destruct s.
Qed.

(** Every state the trader reaches from [__init__] has a fresh ledger. *)
Lemma run_ledger_fresh MINIMUM_BID MAXIMUM_ASK events : ∀ s s',
  run MINIMUM_BID MAXIMUM_ASK events s = Some s' → ledger_fresh s → ledger_fresh s'.
Proof.
  induction events as [|e events IH]; intros s s' Hrun Hfresh.
  - cbn in Hrun. by simplify_eq.
  - cbn [run] in Hrun.
    destruct (deliver MINIMUM_BID MAXIMUM_ASK e s) as [s1|] eqn:Hd; [|done].
    cbn [mbind option_bind] in Hrun.
    eapply IH; [exact Hrun|]. by eapply deliver_fresh.
Qed.

Lemma init_ledger_fresh t0 : ledger_fresh (init t0).
Proof. split; constructor. Qed.

(** * Further properties of the callbacks *)

(** ** Retiring orders: [on_order_status_message] and [on_error_message] *)

Lemma dict_pop_elem k k' p (d : dict) : (k', p) ∈ dict_pop k d ↔ (k', p) ∈ d ∧ k' ≠ k.
Proof. unfold dict_pop. rewrite list_elem_of_filter. simpl. tauto. Qed.

Lemma dict_pop_not_mem k (d : dict) : k ∉ (dict_pop k d).*1.
Proof.
  intros ([k' p] & Hk & Hin)%list_elem_of_fmap. simpl in Hk. subst k'.
  apply dict_pop_elem in Hin as [_ Hne]. done.
Qed.

Lemma dict_pop_id k (d : dict) : k ∉ d.*1 → dict_pop k d = d.
Proof.
  induction d as [|[k' p] d IH]; intros Hk; [done|].
  rewrite fmap_cons, not_elem_of_cons in Hk. destruct Hk as [Hne Hk].
  unfold dict_pop in *. rewrite filter_cons. simpl in *.
  rewrite decide_True by congruence. by rewrite IH.
Qed.

Lemma dict_pop_sublist k (d : dict) : dict_pop k d `sublist_of` d.
Proof. unfold dict_pop. apply sublist_filter. Qed.

Lemma dict_pop_pop k (d : dict) : dict_pop k (dict_pop k d) = dict_pop k d.
Proof. apply dict_pop_id, dict_pop_not_mem. Qed.

(** X1. A status message with no remaining volume retires the order: the
    identifier leaves both maps, every other entry stays, in the same order,
    nothing is sent and no other field is written; a second such message for
    the same identifier changes nothing. *)
Theorem on_order_status_message_retires id fill fees fill' fees' s :
  let s' := on_order_status_message id fill 0 fees s in
  (id ∉ (bids s').*1) ∧ (id ∉ (asks s').*1)
  ∧ (∀ k p, (k, p) ∈ bids s' ↔ (k, p) ∈ bids s ∧ k ≠ id)
  ∧ (∀ k p, (k, p) ∈ asks s' ↔ (k, p) ∈ asks s ∧ k ≠ id)
  ∧ bids s' `sublist_of` bids s ∧ asks s' `sublist_of` asks s
  ∧ outbox s' = outbox s ∧ core s' = core s ∧ order_ids s' = order_ids s
  ∧ on_order_status_message id fill' 0 fees' s' = s'.
Proof.
  unfold on_order_status_message. rewrite !bool_decide_eq_true_2 by done.
  destruct s; cbn -[dict_pop]. split_and!; try done.
  - apply dict_pop_not_mem.
  - apply dict_pop_not_mem.
  - intros k p. apply dict_pop_elem.
  - intros k p. apply dict_pop_elem.
  - apply dict_pop_sublist.
  - apply dict_pop_sublist.
  - by rewrite !dict_pop_pop.
Qed.

(** X2. An error message for a non-zero identifier acts as a status message
    with no remaining volume, whether or not the order is in the ledger; an
    error with identifier 0 changes nothing.  No error sends a command or
    writes the position. *)
Theorem on_error_message_retires id s :
  on_error_message id s
  = (if bool_decide (id = 0) then s else on_order_status_message id 0 0 0 s)
  ∧ outbox (on_error_message id s) = outbox s
  ∧ core (on_error_message id s) = core s.
Proof.
  unfold on_error_message, on_order_status_message, dict_mem.
  rewrite (bool_decide_eq_true_2 (0 = 0)) by done.
  destruct (decide (id = 0)) as [->|Hid].
  - rewrite (bool_decide_eq_false_2 (0 ≠ 0)) by (intros H; by apply H). done.
  - rewrite (bool_decide_eq_true_2 (id ≠ 0)), (bool_decide_eq_false_2 (id = 0)) by done.
    cbn [andb].
    destruct (bool_decide (id ∈ (bids s).*1)) eqn:Hb;
      [by destruct s|].
    destruct (bool_decide (id ∈ (asks s).*1)) eqn:Ha;
      [by destruct s|].
    cbn [orb]. apply bool_decide_eq_false in Hb, Ha.
    destruct s; cbn -[dict_pop] in *. by rewrite !dict_pop_id.
Qed.

(** ** Fills that find no order *)

Lemma dict_mem_pop k (d : dict) : dict_mem k (dict_pop k d) = false.
Proof. unfold dict_mem. apply bool_decide_eq_false, dict_pop_not_mem. Qed.

(** X3. A fill reported after the order was retired is ignored: once a
    status message with no remaining volume has been handled for an order,
    [on_order_filled_message] for that order returns the state unchanged, so
    the position is not updated and no hedge is sent. *)
Theorem fill_after_retirement_is_ignored MINIMUM_BID MAXIMUM_ASK
    id price volume fill fees s :
  on_order_filled_message MINIMUM_BID MAXIMUM_ASK id price volume
    (on_order_status_message id fill 0 fees s)
  = Some (on_order_status_message id fill 0 fees s).
Proof.
  unfold on_order_filled_message, on_order_status_message.
  rewrite bool_decide_eq_true_2 by done.
  destruct s; cbn -[dict_pop dict_mem]. by rewrite !dict_mem_pop.
Qed.

(** ** Hedge orders and the delta counter *)

Lemma gset_add_remove (x : Z) (A : gset Z) : x ∉ A → ({[x]} ∪ A) ∖ {[x]} = A.
Proof.
  intros Hx. apply set_eq. intros y.
  rewrite elem_of_difference, elem_of_union, elem_of_singleton.
  split; [tauto|]. intros Hy. split; [by right|]. intros ->. done.
Qed.

Lemma gset_add_elem (x : Z) (A : gset Z) : x ∈ {[x]} ∪ A.
Proof. apply elem_of_union_l, elem_of_singleton. done. Qed.

Lemma gset_remove_not_elem (x : Z) (A : gset Z) : x ∉ A ∖ {[x]}.
Proof. rewrite elem_of_difference, elem_of_singleton. tauto. Qed.

Lemma send_hedge_order_book price volume side s :
  ∃ s', send_hedge_order price volume side s = Some (true, s')
    ∧ core s' = core s
    ∧ book s'
      = ((order_ids s + 1, bids s, asks s,
          (if bool_decide (side = BID) then {[order_ids s]} ∪ hedge_bid s
           else hedge_bid s),
          (if bool_decide (side = BID) then hedge_ask s
           else {[order_ids s]} ∪ hedge_ask s)),
         outbox s ++ [HedgeOrder (order_ids s) side price volume]).
Proof.
  destruct (hedge_admission_total s) as (s1 & Hrun & Hc & Hl & Ho).
  unfold send_hedge_order. rewrite Hrun. cbn [mbind option_bind next_order_id].
  eexists. split; [reflexivity|].
  unfold core, ledger, book in *. destruct s1, s; cbn in *.
  simplify_eq. by case_bool_decide.
Qed.

Lemma on_order_filled_message_book MINIMUM_BID MAXIMUM_ASK id price volume s :
  ∃ s', on_order_filled_message MINIMUM_BID MAXIMUM_ASK id price volume s = Some s'
    ∧ msg_seq s' = msg_seq s ∧ future_bid s' = future_bid s
    ∧ future_ask s' = future_ask s
    ∧ if dict_mem id (bids s) then
        position s' = position s + volume ∧ delta s' = delta s + volume
        ∧ book s'
          = ((order_ids s + 1, bids s, asks s, hedge_bid s,
              {[order_ids s]} ∪ hedge_ask s),
             outbox s ++ [HedgeOrder (order_ids s) ASK
                            (MIN_BID_NEAREST_TICK MINIMUM_BID) volume])
      else if dict_mem id (asks s) then
        position s' = position s - volume ∧ delta s' = delta s - volume
        ∧ book s'
          = ((order_ids s + 1, bids s, asks s, {[order_ids s]} ∪ hedge_bid s,
              hedge_ask s),
             outbox s ++ [HedgeOrder (order_ids s) BID
                            (MAX_ASK_NEAREST_TICK MAXIMUM_ASK) volume])
      else s' = s.
Proof.
  unfold on_order_filled_message.
  destruct (dict_mem id (bids s)); [|destruct (dict_mem id (asks s))].
  - edestruct send_hedge_order_book as (s' & -> & Hc & Hb).
    exists s'. cbn [mbind option_bind snd]. split; [done|].
    rewrite Hb. unfold core in Hc. destruct s; cbn in *. by simplify_eq.
  - edestruct send_hedge_order_book as (s' & -> & Hc & Hb).
    exists s'. cbn [mbind option_bind snd]. split; [done|].
    rewrite Hb. unfold core in Hc. destruct s; cbn in *. by simplify_eq.
  - by exists s.
Qed.

(** X4. The hedge sent for a fill and the later fill of that hedge cancel in
    [delta]: when the next identifier is in neither hedge set, a fill of a
    ledger order followed by the hedge-filled callback for the hedge just
    sent, with the same volume, leaves [delta] and both hedge sets as they
    were before the fill; the hedge callback neither writes the position nor
    sends a command, and the ETF fill moves [delta] and the position by the
    same amount. *)
Theorem hedge_fill_restores_delta MINIMUM_BID MAXIMUM_ASK
    id price volume hedge_price s s1 :
  order_ids s ∉ hedge_bid s → order_ids s ∉ hedge_ask s →
  id ∈ (bids s).*1 ∨ id ∈ (asks s).*1 →
  on_order_filled_message MINIMUM_BID MAXIMUM_ASK id price volume s = Some s1 →
  let s2 := on_hedge_filled_message (order_ids s) hedge_price volume s1 in
  delta s2 = delta s ∧ hedge_bid s2 = hedge_bid s ∧ hedge_ask s2 = hedge_ask s
  ∧ position s2 = position s1 ∧ outbox s2 = outbox s1
  ∧ delta s1 - position s1 = delta s - position s.
Proof.
  intros Hnb Hna Hin Hrun.
  destruct (on_order_filled_message_book MINIMUM_BID MAXIMUM_ASK id price volume s)
    as (s1' & Hrun' & _ & _ & _ & Hspec).
  rewrite Hrun in Hrun'. injection Hrun' as <-. unfold dict_mem in Hspec.
  unfold on_hedge_filled_message.
  case_bool_decide as Hb.
  - destruct Hspec as (Hp & Hd & Hbook). unfold book, ledger in Hbook.
    assert (hedge_bid s1 = hedge_bid s ∧ hedge_ask s1 = {[order_ids s]} ∪ hedge_ask s)
      as [Hhb Hha] by (by simplify_eq).
    rewrite Hhb, Hha.
    rewrite (bool_decide_eq_false_2 (order_ids s ∈ hedge_bid s)) by done.
    rewrite bool_decide_eq_true_2 by apply gset_add_elem.
    destruct s1; cbn in *. subst. split_and!; try done; try lia.
    by apply gset_add_remove.
  - destruct Hin as [?|Ha]; [done|].
    rewrite bool_decide_eq_true_2 in Hspec by done.
    destruct Hspec as (Hp & Hd & Hbook). unfold book, ledger in Hbook.
    assert (hedge_bid s1 = {[order_ids s]} ∪ hedge_bid s ∧ hedge_ask s1 = hedge_ask s)
      as [Hhb Hha] by (by simplify_eq).
    rewrite Hhb.
    rewrite bool_decide_eq_true_2 by apply gset_add_elem.
    destruct s1; cbn in *. subst. split_and!; try done; try lia.
    by apply gset_add_remove.
Qed.

Lemma hedge_fill_restores_delta_witness :
  ∃ s1, on_order_filled_message 1 2147483647 1 9900 20 hedging_trader = Some s1
    ∧ let s2 := on_hedge_filled_message 5 100 20 s1 in
      delta s2 = 5 ∧ hedge_bid s2 = {[3]} ∧ hedge_ask s2 = {[4]}
      ∧ position s2 = position s1 ∧ outbox s2 = outbox s1
      ∧ delta s1 - position s1 = 5 - 20.
Proof.
  eexists. split; [by vm_compute|].
  apply (hedge_fill_restores_delta 1 2147483647 1 9900 20 100 hedging_trader).
  - by vm_compute.
  - by vm_compute.
  - left. vm_compute. apply list_elem_of_here.
  - by vm_compute.
Defined.

(** X5. A hedge is booked once: when an identifier is not in both hedge sets
    at once, a second hedge-filled callback for it changes nothing, so a
    hedge reported filled in two parts only has the first part counted in
    [delta]; a callback for an identifier in neither set changes nothing
    either.  The callback never sends a command and never writes the
    position or the ledger of ETF orders. *)
Theorem on_hedge_filled_message_once id price1 volume1 price2 volume2 s :
  ¬ (id ∈ hedge_bid s ∧ id ∈ hedge_ask s) →
  let s1 := on_hedge_filled_message id price1 volume1 s in
  on_hedge_filled_message id price2 volume2 s1 = s1
  ∧ (id ∉ hedge_bid s → id ∉ hedge_ask s → s1 = s)
  ∧ position s1 = position s ∧ outbox s1 = outbox s
  ∧ bids s1 = bids s ∧ asks s1 = asks s ∧ order_ids s1 = order_ids s.
Proof.
  intros Hboth. unfold on_hedge_filled_message.
  destruct (decide (id ∈ hedge_bid s)) as [Hb|Hb].
  - assert (id ∉ hedge_ask s) as Ha by tauto.
    rewrite (bool_decide_eq_true_2 (id ∈ hedge_bid s)) by done.
    destruct s; cbn in *.
    rewrite bool_decide_eq_false_2 by apply gset_remove_not_elem.
    rewrite bool_decide_eq_false_2 by done. done.
  - rewrite (bool_decide_eq_false_2 (id ∈ hedge_bid s)) by done.
    destruct (decide (id ∈ hedge_ask s)) as [Ha|Ha].
    + rewrite (bool_decide_eq_true_2 (id ∈ hedge_ask s)) by done.
      destruct s; cbn in *.
      rewrite bool_decide_eq_false_2 by done.
      rewrite bool_decide_eq_false_2 by apply gset_remove_not_elem. done.
    + rewrite (bool_decide_eq_false_2 (id ∈ hedge_ask s)) by done.
      rewrite (bool_decide_eq_false_2 (id ∈ hedge_bid s)) by done.
      rewrite (bool_decide_eq_false_2 (id ∈ hedge_ask s)) by done. done.
Qed.

Lemma on_hedge_filled_message_once_witness :
  let s1 := on_hedge_filled_message 3 10100 12 hedging_trader in
  on_hedge_filled_message 3 10100 8 s1 = s1
  ∧ (3 ∉ hedge_bid hedging_trader → 3 ∉ hedge_ask hedging_trader → s1 = hedging_trader)
  ∧ position s1 = position hedging_trader ∧ outbox s1 = outbox hedging_trader
  ∧ bids s1 = bids hedging_trader ∧ asks s1 = asks hedging_trader
  ∧ order_ids s1 = order_ids hedging_trader.
Proof.
  apply (on_hedge_filled_message_once 3 10100 12 10100 8 hedging_trader).
  intros [_ H]. change (hedge_ask hedging_trader) with ({[4]} : gset Z) in H.
  apply elem_of_singleton in H. discriminate.
Defined.

(** ** What a send wrapper reports *)

Lemma send_bid_order_book price volume type s :
  (send_bid_order price volume type s).1 = admits s
  ∧ book (send_bid_order price volume type s).2
    = if admits s
      then ((order_ids s + 1, dict_set (order_ids s) price (bids s), asks s,
             hedge_bid s, hedge_ask s),
            outbox s ++ [InsertOrder (order_ids s) BUY price volume type])
      else book s.
Proof.
  unfold send_bid_order, admits, book, ledger. destruct s; cbn.
  by destruct (check_window _ _) as [[] ?].
Qed.

Lemma send_ask_order_book price volume type s :
  (send_ask_order price volume type s).1 = admits s
  ∧ book (send_ask_order price volume type s).2
    = if admits s
      then ((order_ids s + 1, bids s, dict_set (order_ids s) price (asks s),
             hedge_bid s, hedge_ask s),
            outbox s ++ [InsertOrder (order_ids s) SELL price volume type])
      else book s.
Proof.
  unfold send_ask_order, admits, book, ledger. destruct s; cbn.
  by destruct (check_window _ _) as [[] ?].
Qed.

Lemma send_cancel_order_book id s :
  (send_cancel_order id s).1 = admits s
  ∧ book (send_cancel_order id s).2
    = if admits s then (ledger s, outbox s ++ [CancelOrder id]) else book s.
Proof.
  unfold send_cancel_order, admits, book, ledger. destruct s; cbn.
  by destruct (check_window _ _) as [[] ?].
Qed.


Lemma dict_set_length k v (d : dict) :
  (length d ≤ length (dict_set k v d) ≤ S (length d))%nat.
Proof.
  induction d as [|[k' v'] d IH]; [simpl; lia|].
  cbn [dict_set]. case_bool_decide; simpl; lia.
Qed.


(** ** Snapshots of the future: [trim_orders] *)

Lemma trim_orders_requests s :
  trim_orders s = request_cancels (trim_requests (future_bid s) (future_ask s) s) s.
Proof.
  unfold trim_orders. cbv zeta.
  match goal with |- context [cancel_matching ?P (bids s) s] =>
    destruct (cancel_matching_frame P (bids s) s) as (Hc & Hl);
    assert (Hasks : asks (cancel_matching P (bids s) s) = asks s)
      by (unfold ledger in Hl; by simplify_eq);
    assert (Hfb : future_bid (cancel_matching P (bids s) s) = future_bid s)
      by (unfold core in Hc; by simplify_eq)
  end.
  rewrite Hasks, Hfb. clear Hasks Hfb Hc Hl.
  rewrite !cancel_matching_requests.
  unfold trim_requests. rewrite request_cancels_app.
  rewrite (list_filter_iff (λ kv : Z * Z, bool_decide (kv.2 > future_ask s))
             (λ kv, future_ask s < kv.2))
    by (intros kv; rewrite bool_decide_spec; lia).
  rewrite (list_filter_iff (λ kv : Z * Z, bool_decide (kv.2 < future_bid s))
             (λ kv, kv.2 < future_bid s))
    by (intros kv; rewrite bool_decide_spec; lia).
  done.
Qed.

Lemma request_cancels_frame ids : ∀ s,
  core (request_cancels ids s) = core s
  ∧ ledger (request_cancels ids s) = ledger s.
Proof.
  unfold request_cancels. induction ids as [|id ids IH]; intros s; [done|].
  cbn [foldl]. destruct (IH (send_cancel_order id s).2) as (-> & ->).
  destruct (send_cancel_order_frame id s) as (? & ? & _). done.
Qed.

(** X7. A snapshot of the future that passes the sequence gate with non-zero
    best prices is cached and the resting orders are trimmed against it: the
    handler returns, [future_bid] and [future_ask] are the new best prices,
    and a cancel is requested for every resting bid priced above the new
    ask, then for every resting ask priced below the new bid.  The ledger is
    left as it is (an order is only retired by its status callback), the
    position is not written, the cancels that leave are among those
    requested, in order, and all of them leave when the rate window has
    room. *)
Theorem future_snapshot_trims n ap av bp bv bid0 ask0 s :
  msg_seq s ≤ n →
  bp !! 0%nat = Some bid0 → ap !! 0%nat = Some ask0 → bid0 ≠ 0 → ask0 ≠ 0 →
  ∃ s', on_order_book_update_message FUTURE n ap av bp bv s = Some s'
    ∧ msg_seq s' = n ∧ future_bid s' = bid0 ∧ future_ask s' = ask0
    ∧ position s' = position s ∧ delta s' = delta s ∧ ledger s' = ledger s
    ∧ (∃ sent, outbox s' = outbox s ++ (CancelOrder <$> sent)
               ∧ sent `sublist_of` trim_requests bid0 ask0 s)
    ∧ ((window_load s + length (trim_requests bid0 ask0 s) ≤ RATE_CAPACITY)%nat →
       outbox s' = outbox s ++ (CancelOrder <$> trim_requests bid0 ask0 s)).
Proof.
  intros Hn Hbp Hap Hb Ha. unfold on_order_book_update_message.
  rewrite Z.max_r by lia.
  set (s0 := set_msg_seq n s).
  rewrite bool_decide_eq_false_2 by (subst s0; destruct s; cbn; intros H; by apply H).
  rewrite Hbp. cbn [mbind option_bind]. rewrite bool_decide_eq_false_2 by done.
  rewrite Hap. cbn [mbind option_bind]. rewrite bool_decide_eq_false_2 by done.
  rewrite (bool_decide_eq_false_2 (FUTURE = ETF)) by done.
  cbn [mbind option_bind].
  rewrite (bool_decide_eq_true_2 (FUTURE = FUTURE)) by done.
  set (s1 := set_future_ask ask0 (set_future_bid bid0 s0)).
  eexists. split; [reflexivity|].
  rewrite trim_orders_requests.
  assert (Hreq : trim_requests (future_bid s1) (future_ask s1) s1
                 = trim_requests bid0 ask0 s) by (subst s1 s0; by destruct s).
  assert (Hload : window_load s1 = window_load s) by (subst s1 s0; by destruct s).
  assert (Hout : outbox s1 = outbox s) by (subst s1 s0; by destruct s).
  rewrite Hreq.
  destruct (request_cancels_frame (trim_requests bid0 ask0 s) s1) as (Hc & Hl).
  unfold core, ledger in Hc, Hl.
  split_and!.
  - simplify_eq. subst s1 s0. destruct s; cbn in *. congruence.
  - simplify_eq. subst s1 s0. destruct s; cbn in *. congruence.
  - simplify_eq. subst s1 s0. destruct s; cbn in *. congruence.
  - simplify_eq. subst s1 s0. destruct s; cbn in *. congruence.
  - simplify_eq. subst s1 s0. destruct s; cbn in *. congruence.
  - unfold ledger. rewrite Hl. subst s1 s0. by destruct s.
  - rewrite <- Hout. apply request_cancels_sent.
  - intros Hroom. rewrite <- Hout. apply request_cancels_all_sent. by rewrite Hload.
Qed.

Lemma future_snapshot_trims_witness :
  ∃ s', on_order_book_update_message FUTURE 2 [9500; 9600; 9700; 9800; 9900] (five 50)
          [9400; 9300; 9200; 9100; 9000] (five 50) quoting_trader = Some s'
    ∧ msg_seq s' = 2 ∧ future_bid s' = 9400 ∧ future_ask s' = 9500
    ∧ position s' = position quoting_trader ∧ delta s' = delta quoting_trader
    ∧ ledger s' = ledger quoting_trader
    ∧ (∃ sent, outbox s' = outbox quoting_trader ++ (CancelOrder <$> sent)
               ∧ sent `sublist_of` trim_requests 9400 9500 quoting_trader)
    ∧ ((window_load quoting_trader
        + length (trim_requests 9400 9500 quoting_trader) ≤ RATE_CAPACITY)%nat →
       outbox s' = outbox quoting_trader
                   ++ (CancelOrder <$> trim_requests 9400 9500 quoting_trader)).
Proof.
  apply (future_snapshot_trims 2 [9500; 9600; 9700; 9800; 9900] (five 50)
           [9400; 9300; 9200; 9100; 9000] (five 50) 9400 9500 quoting_trader).
  - by vm_compute.
  - reflexivity.
  - reflexivity.
  - discriminate.
  - discriminate.
Defined.

(** ** Snapshots that lead to no action *)

(** X8. A snapshot that passes the sequence gate but reports a zero best bid
    or a zero best ask, and an ETF snapshot that is neither crossed with the
    future nor strictly outside it on both sides (best ask not below
    [future_bid], best bid not above [future_ask], and best ask at most
    [future_ask] or best bid at least [future_bid]), only advance [msg_seq]:
    nothing is sent and nothing else is written.  The sequence number is
    consumed all the same, so an older snapshot delivered later is stale. *)
Theorem snapshot_without_action i n ap av bp bv bid0 s :
  msg_seq s ≤ n →
  bp !! 0%nat = Some bid0 →
  bid0 = 0
  ∨ (∃ ask0, ap !! 0%nat = Some ask0
       ∧ (ask0 = 0
          ∨ (i = ETF ∧ future_bid s ≤ ask0 ∧ bid0 ≤ future_ask s
             ∧ (ask0 ≤ future_ask s ∨ future_bid s ≤ bid0)))) →
  on_order_book_update_message i n ap av bp bv s = Some (set_msg_seq n s).
Proof.
  intros Hn Hbp Hcase. unfold on_order_book_update_message.
  rewrite Z.max_r by lia.
  rewrite bool_decide_eq_false_2 by (destruct s; cbn; intros H; by apply H).
  rewrite Hbp. cbn [mbind option_bind].
  destruct Hcase as [->|(ask0 & Hap & Hcase)]; [done|].
  case_bool_decide; [done|].
  rewrite Hap. cbn [mbind option_bind].
  destruct Hcase as [->|(-> & Hask & Hbid & Hband)]; [done|].
  case_bool_decide; [done|].
  rewrite (bool_decide_eq_true_2 (ETF = ETF)) by done.
  rewrite (bool_decide_eq_false_2 (ETF = FUTURE)) by done.
  assert (future_bid (set_msg_seq n s) = future_bid s) as -> by (by destruct s).
  assert (future_ask (set_msg_seq n s) = future_ask s) as -> by (by destruct s).
  rewrite (bool_decide_eq_false_2 (ask0 < future_bid s)) by lia.
  rewrite (bool_decide_eq_false_2 (bid0 > future_ask s)) by lia.
  cbn [orb].
  destruct Hband.
  - rewrite (bool_decide_eq_false_2 (ask0 > future_ask s)) by lia. done.
  - rewrite (bool_decide_eq_false_2 (bid0 < future_bid s)) by lia.
    by rewrite andb_false_r.
Qed.

(** An ETF quoted 10000 bid, 10100 ask while the future is quoted the same. *)
Lemma snapshot_without_action_witness :
  on_order_book_update_message ETF 2 future_asks (five 50) future_bids (five 50)
    idle_trader = Some (set_msg_seq 2 idle_trader).
Proof.
  apply (snapshot_without_action ETF 2 future_asks (five 50) future_bids (five 50)
           10000 idle_trader).
  - by vm_compute.
  - reflexivity.
  - right. exists 10100. split; [reflexivity|]. right.
    split_and!; [done|by vm_compute|by vm_compute|left; by vm_compute].
Defined.

(** ** Snapshots never raise on well-formed books *)

Lemma cutoff_scan_is_Some prices volumes cutoff :
  (length volumes ≤ length prices)%nat →
  is_Some (cutoff_scan prices volumes 0 0 cutoff).
Proof.
  intros Hlen.
  destruct (cutoff_scan_spec prices volumes volumes 0 0 cutoff) as (c & -> & _);
    [done|done|lia|done|]. by eexists.
Qed.

Lemma clear_book_is_Some ap bp av bv s :
  (0 < length ap)%nat → (0 < length bp)%nat →
  (length av ≤ length ap)%nat → (length bv ≤ length bp)%nat →
  is_Some (clear_book ap bp av bv s).
Proof.
  intros Hap Hbp Hav Hbv. unfold clear_book.
  destruct (last ap) as [ca0|] eqn:Hla;
    [|apply last_None in Hla; subst; simpl in Hap; lia].
  destruct (last bp) as [cb0|] eqn:Hlb;
    [|apply last_None in Hlb; subst; simpl in Hbp; lia].
  cbn [mbind option_bind].
  destruct (cutoff_scan_is_Some ap av ca0 Hav) as [ca ->].
  destruct (cutoff_scan_is_Some bp bv cb0 Hbv) as [cb ->].
  cbn [mbind option_bind]. by eexists.
Qed.

(** X9. The book-update handler raises no [IndexError] on a well-formed
    snapshot: when each volume list is non-empty and no longer than its
    price list (in particular for the five levels a side the exchange
    reports), the handler returns a state, whatever the instrument, the
    sequence number and the state of the trader. *)
Theorem on_order_book_update_message_returns i n ap av bp bv s :
  (0 < length av ≤ length ap)%nat → (0 < length bv ≤ length bp)%nat →
  is_Some (on_order_book_update_message i n ap av bp bv s).
Proof.
  intros [Hav Hap] [Hbv Hbp]. unfold on_order_book_update_message.
  set (s0 := set_msg_seq (Z.max (msg_seq s) n) s).
  case_bool_decide; [by eexists|].
  destruct (lookup_lt_is_Some_2 bp 0) as [bid0 Hb0]; [lia|].
  destruct (lookup_lt_is_Some_2 ap 0) as [ask0 Ha0]; [lia|].
  destruct (lookup_lt_is_Some_2 bv 0) as [bv0 Hbv0]; [lia|].
  destruct (lookup_lt_is_Some_2 av 0) as [av0 Hav0]; [lia|].
  rewrite Hb0. cbn [mbind option_bind]. case_bool_decide; [by eexists|].
  rewrite Ha0. cbn [mbind option_bind]. case_bool_decide; [by eexists|].
  destruct i.
  - rewrite (bool_decide_eq_false_2 (FUTURE = ETF)) by done.
    cbn [mbind option_bind].
    rewrite (bool_decide_eq_true_2 (FUTURE = FUTURE)) by done. by eexists.
  - rewrite (bool_decide_eq_true_2 (ETF = ETF)) by done.
    rewrite (bool_decide_eq_false_2 (ETF = FUTURE)) by done.
    assert (Harb : is_Some (handle_arbitrage ap av bp bv s0)).
    { unfold handle_arbitrage. rewrite Ha0. cbn [mbind option_bind].
      case_bool_decide.
      - rewrite Hav0. cbn [mbind option_bind]. case_bool_decide; by eexists.
      - rewrite Hb0. cbn [mbind option_bind]. case_bool_decide; [|by eexists].
        rewrite Hbv0. cbn [mbind option_bind]. case_bool_decide; by eexists. }
    assert (Hmm : is_Some (handle_market_making bp bv ap av s0)).
    { unfold handle_market_making.
      destruct (clear_book_is_Some ap bp av bv s0) as [s1 ->]; [lia..|].
      cbn [mbind option_bind]. rewrite Hb0, Ha0. cbn [mbind option_bind].
      by eexists. }
    destruct (_ || _).
    + destruct Harb as [s1 ->]. cbn [mbind option_bind]. by eexists.
    + destruct (_ && _).
      * destruct Hmm as [s1 ->]. cbn [mbind option_bind]. by eexists.
      * cbn [mbind option_bind]. by eexists.
Qed.

Lemma on_order_book_update_message_returns_witness :
  is_Some (on_order_book_update_message ETF 2 wide_asks (five 50) wide_bids (five 50)
             quoting_trader).
Proof.
  apply (on_order_book_update_message_returns ETF 2 wide_asks (five 50) wide_bids
           (five 50) quoting_trader); vm_compute; lia.
Defined.

(** ** How many orders rest after market making *)

Lemma quote_ask_loop_length prices : ∀ s room,
  (length (asks s) ≤ length (asks (foldl quote_ask_step (s, room) prices).1))%nat
  ∧ Z.of_nat (length (asks (foldl quote_ask_step (s, room) prices).1))
    ≤ Z.of_nat (length (asks s)) + Z.max 0 room.
Proof.
  induction prices as [|i prices IH]; intros s room; [simpl; lia|].
  cbn [foldl]. unfold quote_ask_step at 2 4. cbn [fst snd].
  destruct (_ && bool_decide (room > 0)) eqn:Hcond.
  - apply andb_true_iff in Hcond as [_ Hroom%bool_decide_eq_true].
    specialize (IH (send_ask_order i LOT_SIZE GOOD_FOR_DAY s).2 (room - 1)).
    pose proof (send_ask_order_asks i LOT_SIZE GOOD_FOR_DAY s) as Hasks.
    pose proof (dict_set_length (order_ids s) i (asks s)).
    destruct (admits s); rewrite Hasks in IH; lia.
  - apply IH.
Qed.

Lemma quote_bid_loop_length prices : ∀ s room,
  (length (bids s) ≤ length (bids (foldl quote_bid_step (s, room) prices).1))%nat
  ∧ Z.of_nat (length (bids (foldl quote_bid_step (s, room) prices).1))
    ≤ Z.of_nat (length (bids s)) + Z.max 0 room.
Proof.
  induction prices as [|i prices IH]; intros s room; [simpl; lia|].
  cbn [foldl]. unfold quote_bid_step at 2 4. cbn [fst snd].
  destruct (_ && bool_decide (room > 0)) eqn:Hcond.
  - apply andb_true_iff in Hcond as [_ Hroom%bool_decide_eq_true].
    specialize (IH (send_bid_order i LOT_SIZE GOOD_FOR_DAY s).2 (room - 1)).
    pose proof (send_bid_order_bids i LOT_SIZE GOOD_FOR_DAY s) as Hbids.
    pose proof (dict_set_length (order_ids s) i (bids s)).
    destruct (admits s); rewrite Hbids in IH; lia.
  - apply IH.
Qed.

(** X10. Market making never retires an order and never lets a side of the
    ledger grow past the capacity of that side: after
    [handle_market_making] the number of resting asks is at least what it
    was and at most the larger of what it was and
    [floor((position + POSITION_LIMIT) / LOT_SIZE)]; the number of resting
    bids is at least what it was and at most the larger of what it was and
    [floor((POSITION_LIMIT - position) / LOT_SIZE)].  The position, [delta]
    and the cached future prices are not written. *)
Theorem handle_market_making_resting bp bv ap av s s' :
  handle_market_making bp bv ap av s = Some s' →
  (length (asks s) ≤ length (asks s'))%nat
  ∧ Z.of_nat (length (asks s'))
    ≤ Z.max (Z.of_nat (length (asks s)))
            ((position s + POSITION_LIMIT) `div` LOT_SIZE)
  ∧ (length (bids s) ≤ length (bids s'))%nat
  ∧ Z.of_nat (length (bids s'))
    ≤ Z.max (Z.of_nat (length (bids s)))
            ((POSITION_LIMIT - position s) `div` LOT_SIZE)
  ∧ core s' = core s.
Proof.
  intros Hrun. pose proof (handle_market_making_core _ _ _ _ _ _ Hrun) as Hcore.
  revert Hcore. unfold handle_market_making in Hrun.
  destruct (clear_book ap bp av bv s) as [s1|] eqn:Hclear; [|done].
  cbn [mbind option_bind] in Hrun.
  destruct (bp !! 0%nat) as [etf_bid|]; [|done].
  destruct (ap !! 0%nat) as [etf_ask|]; [|done].
  cbn [mbind option_bind] in Hrun. simplify_eq. intros Hcore.
  destruct (clear_book_frame _ _ _ _ _ _ Hclear) as (Hc & Hl).
  unfold core, ledger in Hc, Hl.
  assert (position s1 = position s ∧ bids s1 = bids s ∧ asks s1 = asks s)
    as (Hpos & Hbids & Hasks) by (by simplify_eq).
  clear Hc Hl.
  set (asks_range := py_range (future_ask s1 + 2 * TICK_SIZE_IN_CENTS) etf_ask
                       TICK_SIZE_IN_CENTS) in *.
  set (bids_range := py_range etf_bid (future_bid s1 - 2 * TICK_SIZE_IN_CENTS)
                       TICK_SIZE_IN_CENTS) in *.
  set (sell_room := (position s1 + POSITION_LIMIT) `div` LOT_SIZE
                    - Z.of_nat (length (asks s1))) in *.
  set (buy_room := (POSITION_LIMIT - position s1) `div` LOT_SIZE
                   - Z.of_nat (length (bids s1))) in *.
  pose proof (quote_ask_loop_length asks_range s1 sell_room) as [Ha1 Ha2].
  destruct (quote_ask_loop_frame asks_range (s1, sell_room)) as (_ & Hb2).
  set (s2 := (foldl quote_ask_step (s1, sell_room) asks_range).1) in *.
  cbn [fst] in Hb2.
  pose proof (quote_bid_loop_length bids_range s2 buy_room) as [Hb3 Hb4].
  destruct (quote_bid_loop_frame bids_range (s2, buy_room)) as (_ & Ha3).
  cbn [fst] in Ha3.
  rewrite Ha3. rewrite Hb2 in Hb3, Hb4.
  subst sell_room buy_room. rewrite Hpos, Hbids, Hasks in *.
  split_and!; [lia|lia|lia|lia|exact Hcore].
Qed.

Lemma handle_market_making_resting_witness :
  ∃ s', handle_market_making wide_bids (five 50) wide_asks (five 50) quoting_trader
        = Some s'
    ∧ (length (asks quoting_trader) ≤ length (asks s'))%nat
    ∧ Z.of_nat (length (asks s'))
      ≤ Z.max (Z.of_nat (length (asks quoting_trader)))
              ((position quoting_trader + POSITION_LIMIT) `div` LOT_SIZE)
    ∧ (length (bids quoting_trader) ≤ length (bids s'))%nat
    ∧ Z.of_nat (length (bids s'))
      ≤ Z.max (Z.of_nat (length (bids quoting_trader)))
              ((POSITION_LIMIT - position quoting_trader) `div` LOT_SIZE)
    ∧ core s' = core quoting_trader.
Proof.
  eexists. split; [by vm_compute|].
  apply (handle_market_making_resting wide_bids (five 50) wide_asks (five 50)
           quoting_trader).
  by vm_compute.
Defined.

(** ** The running maximum of the sequence numbers *)

Lemma deliver_msg_seq MINIMUM_BID MAXIMUM_ASK e s s' :
  deliver MINIMUM_BID MAXIMUM_ASK e s = Some s' →
  msg_seq s' = match e with
               | OrderBookUpdate _ n _ _ _ _ => Z.max (msg_seq s) n
               | _ => msg_seq s
               end.
Proof.
  intros Hrun. destruct e as [i n ap av bp bv| | | | | | |]; cbn in Hrun.
  - by apply on_order_book_update_message_msg_seq in Hrun as (? & _).
  - by simplify_eq.
  - by apply on_order_filled_message_core in Hrun as (? & _).
  - simplify_eq. unfold on_order_status_message. by case_bool_decide.
  - simplify_eq. unfold on_hedge_filled_message. by repeat case_bool_decide.
  - simplify_eq. unfold on_error_message, on_order_status_message.
    destruct (_ && _); [|done]. by case_bool_decide.
  - by simplify_eq.
  - by simplify_eq.
Qed.

Lemma book_sequence_numbers_cons e events :
  book_sequence_numbers (e :: events)
  = match e with
    | OrderBookUpdate _ n _ _ _ _ => n :: book_sequence_numbers events
    | _ => book_sequence_numbers events
    end.
Proof. by destruct e. Qed.

(** X11. [msg_seq] is the running maximum of the sequence numbers of all
    book updates delivered, whatever their instrument and whether or not
    they were discarded: after any sequence of callbacks it is the maximum
    of its initial value and of the sequence numbers of the book updates
    among them, so it never decreases, and no callback other than a book
    update writes it. *)
Theorem msg_seq_is_running_maximum MINIMUM_BID MAXIMUM_ASK events s s' :
  run MINIMUM_BID MAXIMUM_ASK events s = Some s' →
  msg_seq s' = foldl Z.max (msg_seq s) (book_sequence_numbers events)
  ∧ msg_seq s ≤ msg_seq s'
  ∧ Forall (λ n, n ≤ msg_seq s') (book_sequence_numbers events).
Proof.
  revert s. induction events as [|e events IH]; intros s Hrun.
  - cbn in Hrun. simplify_eq. split_and!; [done|lia|constructor].
  - cbn [run] in Hrun.
    destruct (deliver MINIMUM_BID MAXIMUM_ASK e s) as [s1|] eqn:Hd; [|done].
    cbn [mbind option_bind] in Hrun.
    destruct (IH _ Hrun) as (Heq & Hle & Hall).
    pose proof (deliver_msg_seq _ _ _ _ _ Hd) as H1.
    rewrite book_sequence_numbers_cons.
    destruct e; try (rewrite H1 in *; split_and!; [done|lia|done]).
    cbn [foldl]. rewrite <- H1. split_and!; [done|lia|].
    constructor; [lia|done].
Qed.

Lemma msg_seq_is_running_maximum_witness :
  ∃ s', run 1 2147483647 breach (init 0) = Some s'
    ∧ msg_seq s' = foldl Z.max 0 (book_sequence_numbers breach)
    ∧ 0 ≤ msg_seq s'
    ∧ Forall (λ n, n ≤ msg_seq s') (book_sequence_numbers breach).
Proof.
  eexists. split; [by vm_compute|].
  apply (msg_seq_is_running_maximum 1 2147483647 breach (init 0)).
  by vm_compute.
Defined.

(** ** The rate window over whole runs *)

Lemma keeps_time_refl s : keeps_time s s.
Proof. intros Hok Hf. split_and!; [done|done|lia]. Qed.

Lemma keeps_time_trans s1 s2 s3 :
  keeps_time s1 s2 → keeps_time s2 s3 → keeps_time s1 s3.
Proof.
  intros H12 H23 Hok Hf. destruct (H12 Hok Hf) as (Hok2 & Hf2 & Hk2).
  destruct (H23 Hok2 Hf2) as (Hok3 & Hf3 & Hk3). split_and!; [done|done|lia].
Qed.

Lemma keeps_time_time_state s s' : time_state s' = time_state s → keeps_time s s'.
Proof.
  unfold time_state, keeps_time, rate_window_ok, forward. intros Heq. simplify_eq.
  repeat match goal with H : _ s' = _ s |- _ => rewrite H end.
  intros (? & ? & ?) ?. split_and!; [done|done|done|done|lia].
Qed.

Lemma keeps_time_from s0 s s' :
  time_state s0 = time_state s → keeps_time s0 s' → keeps_time s s'.
Proof.
  intros Heq Hk. eapply keeps_time_trans; [|exact Hk].
  by apply keeps_time_time_state.
Qed.

Lemma next_time_forward s : forward s → clock s ≤ next_time s.
Proof.
  unfold forward, next_time, time_time. cbn [fst]. intros Hf.
  destruct (ticks s) as [|d l]; cbn [hd]; [lia|].
  apply Forall_cons in Hf as [? _]. lia.
Qed.

Lemma check_message_limit_ok s : keeps_time s (check_message_limit s).2.
Proof.
  intros (Hs & Hle & Hlen) Hf. pose proof (next_time_forward s Hf) as Hnext.
  unfold rate_window_ok, forward.
  rewrite check_message_limit_timestamps, check_message_limit_ticks.
  destruct (check_message_limit_frame s) as (_ & _ & _ & ->).
  pose proof (popleft_stale_suffix (next_time s) (order_timestamps s)) as [pre Hsuf].
  pose proof (popleft_stale_length (next_time s) (order_timestamps s)).
  set (w := popleft_stale (next_time s) (order_timestamps s)) in *.
  assert (Hsw : StronglySorted Z.le w).
  { rewrite Hsuf in Hs. by apply StronglySorted_app_1_r in Hs. }
  assert (Hlw : Forall (λ t, t ≤ next_time s) w).
  { rewrite Hsuf in Hle. apply Forall_app in Hle as [_ Hle].
    eapply Forall_impl; [exact Hle|]. intros t Ht; simpl in Ht; lia. }
  assert (Hft : Forall (λ d, 0 ≤ d) (tl (ticks s))).
  { unfold forward in Hf. destruct (ticks s); [done|]. by apply Forall_cons in Hf as [_ ?]. }
  unfold check_window. fold w. case_bool_decide; cbn [snd].
  - split_and!; [done|done|lia|done|done].
  - split_and!; [| |rewrite length_app; simpl; lia|done|done].
    + apply StronglySorted_app. split_and!; [|done|repeat constructor].
      intros a b Ha ->%list_elem_of_singleton. by eapply Forall_forall in Hlw.
    + apply Forall_app. split; [done|]. repeat constructor. lia.
Qed.

Lemma send_wrappers_time_state price volume type id s :
  time_state (send_bid_order price volume type s).2
  = time_state (check_message_limit s).2
  ∧ time_state (send_ask_order price volume type s).2
    = time_state (check_message_limit s).2
  ∧ time_state (send_cancel_order id s).2 = time_state (check_message_limit s).2.
Proof.
  unfold send_bid_order, send_ask_order, send_cancel_order, time_state.
  destruct s; cbn. by destruct (check_window _ _) as [[] ?].
Qed.

Lemma send_cancel_order_ok id s : keeps_time s (send_cancel_order id s).2.
Proof.
  eapply keeps_time_trans; [apply check_message_limit_ok|].
  apply keeps_time_time_state, (send_wrappers_time_state 0 0 GOOD_FOR_DAY id s).
Qed.

Lemma send_bid_order_ok price volume type s :
  keeps_time s (send_bid_order price volume type s).2.
Proof.
  eapply keeps_time_trans; [apply check_message_limit_ok|].
  apply keeps_time_time_state, (send_wrappers_time_state price volume type 0 s).
Qed.

Lemma send_ask_order_ok price volume type s :
  keeps_time s (send_ask_order price volume type s).2.
Proof.
  eapply keeps_time_trans; [apply check_message_limit_ok|].
  apply keeps_time_time_state, (send_wrappers_time_state price volume type 0 s).
Qed.

Lemma request_cancels_ok ids : ∀ s, keeps_time s (request_cancels ids s).
Proof.
  unfold request_cancels. induction ids as [|id ids IH]; intros s;
    [apply keeps_time_refl|].
  cbn [foldl]. eapply keeps_time_trans; [apply send_cancel_order_ok|apply IH].
Qed.

Lemma cancel_matching_ok P book s : keeps_time s (cancel_matching P book s).
Proof. rewrite cancel_matching_requests. apply request_cancels_ok. Qed.

Lemma trim_orders_ok s : keeps_time s (trim_orders s).
Proof.
  unfold trim_orders.
  eapply keeps_time_trans; [apply cancel_matching_ok|apply cancel_matching_ok].
Qed.

Lemma clear_book_ok ap bp av bv s s' :
  clear_book ap bp av bv s = Some s' → keeps_time s s'.
Proof.
  unfold clear_book. intros Hrun.
  destruct (last ap) as [ca0|]; [|done].
  destruct (last bp) as [cb0|]; [|done]. cbn [mbind option_bind] in Hrun.
  destruct (cutoff_scan ap av 0 0 ca0) as [ca|]; [|done].
  destruct (cutoff_scan bp bv 0 0 cb0) as [cb|]; [|done].
  cbn [mbind option_bind] in Hrun. simplify_eq.
  eapply keeps_time_trans; [apply cancel_matching_ok|apply cancel_matching_ok].
Qed.

Lemma handle_arbitrage_ok ap av bp bv s s' :
  handle_arbitrage ap av bp bv s = Some s' → keeps_time s s'.
Proof.
  unfold handle_arbitrage. intros Hrun.
  destruct (ap !! 0%nat) as [ask0|]; [|done]. cbn [mbind option_bind] in Hrun.
  case_bool_decide.
  - destruct (av !! 0%nat) as [av0|]; [|done]. cbn [mbind option_bind] in Hrun.
    case_bool_decide; simplify_eq; [apply send_bid_order_ok|apply keeps_time_refl].
  - destruct (bp !! 0%nat) as [bid0|]; [|done]. cbn [mbind option_bind] in Hrun.
    case_bool_decide; simplify_eq; [|apply keeps_time_refl].
    destruct (bv !! 0%nat) as [bv0|]; [|done]. cbn [mbind option_bind] in Hrun.
    case_bool_decide; simplify_eq; [apply send_ask_order_ok|apply keeps_time_refl].
Qed.

Lemma quote_ask_loop_ok prices : ∀ st,
  keeps_time st.1 (foldl quote_ask_step st prices).1.
Proof.
  induction prices as [|i prices IH]; intros st; [apply keeps_time_refl|].
  cbn [foldl]. eapply keeps_time_trans; [|apply IH]. unfold quote_ask_step.
  destruct (_ && _); [apply send_ask_order_ok|apply keeps_time_refl].
Qed.

Lemma quote_bid_loop_ok prices : ∀ st,
  keeps_time st.1 (foldl quote_bid_step st prices).1.
Proof.
  induction prices as [|i prices IH]; intros st; [apply keeps_time_refl|].
  cbn [foldl]. eapply keeps_time_trans; [|apply IH]. unfold quote_bid_step.
  destruct (_ && _); [apply send_bid_order_ok|apply keeps_time_refl].
Qed.

Lemma handle_market_making_ok bp bv ap av s s' :
  handle_market_making bp bv ap av s = Some s' → keeps_time s s'.
Proof.
  unfold handle_market_making. intros Hrun.
  destruct (clear_book ap bp av bv s) as [s1|] eqn:Hclear; [|done].
  cbn [mbind option_bind] in Hrun.
  destruct (bp !! 0%nat) as [etf_bid|]; [|done].
  destruct (ap !! 0%nat) as [etf_ask|]; [|done].
  cbn [mbind option_bind] in Hrun. simplify_eq.
  eapply keeps_time_trans; [by eapply clear_book_ok|].
  eapply keeps_time_trans; [|apply quote_bid_loop_ok]. cbn [fst].
  apply (quote_ask_loop_ok _ (s1, _)).
Qed.

Lemma on_order_book_update_message_ok i n ap av bp bv s s' :
  on_order_book_update_message i n ap av bp bv s = Some s' → keeps_time s s'.
Proof.
  unfold on_order_book_update_message. intros Hrun.
  set (s0 := set_msg_seq (Z.max (msg_seq s) n) s) in *.
  apply (keeps_time_from s0); [by destruct s|].
  clearbody s0.
  case_bool_decide; [simplify_eq; apply keeps_time_refl|].
  destruct (bp !! 0%nat) as [bid0|]; [|done]. cbn [mbind option_bind] in Hrun.
  case_bool_decide; [simplify_eq; apply keeps_time_refl|].
  destruct (ap !! 0%nat) as [ask0|]; [|done]. cbn [mbind option_bind] in Hrun.
  case_bool_decide; [simplify_eq; apply keeps_time_refl|].
  destruct i.
  - rewrite (bool_decide_eq_false_2 (FUTURE = ETF)) in Hrun by done.
    cbn [mbind option_bind] in Hrun.
    rewrite (bool_decide_eq_true_2 (FUTURE = FUTURE)) in Hrun by done. simplify_eq.
    eapply keeps_time_trans; [|apply trim_orders_ok].
    apply keeps_time_time_state. by destruct s0.
  - rewrite (bool_decide_eq_true_2 (ETF = ETF)) in Hrun by done.
    rewrite (bool_decide_eq_false_2 (ETF = FUTURE)) in Hrun by done.
    destruct (_ || _).
    + destruct (handle_arbitrage ap av bp bv s0) as [s1|] eqn:Harb; [|done].
      cbn [mbind option_bind] in Hrun. simplify_eq.
      by eapply handle_arbitrage_ok.
    + destruct (_ && _).
      * destruct (handle_market_making bp bv ap av s0) as [s1|] eqn:Hmm; [|done].
        cbn [mbind option_bind] in Hrun. simplify_eq.
        by eapply handle_market_making_ok.
      * cbn [mbind option_bind] in Hrun. simplify_eq. apply keeps_time_refl.
Qed.

Lemma popleft_stale_head t w a r :
  popleft_stale t w = a :: r → t - RATE_HORIZON ≤ a.
Proof.
  induction w as [|x w IH]; [done|].
  cbn [popleft_stale]. destruct (stale t x) eqn:Hx; [exact IH|].
  intros Heq. simplify_eq. by apply stale_ge.
Qed.

Lemma time_sleep_ok ms s : 0 ≤ ms → keeps_time s (time_sleep ms s).
Proof.
  intros Hms (Hs & Hle & Hlen) Hf. unfold rate_window_ok, forward, time_sleep.
  destruct s; cbn [order_timestamps clock ticks set_clock] in *.
  split_and!; [done| |done|done|lia].
  eapply Forall_impl; [exact Hle|]. intros t Ht. cbn beta in Ht. lia.
Qed.

Lemma Zsum_take_1 (l : list Z) : Zsum (take 1 l) = hd 0 l.
Proof. destruct l; unfold Zsum; simpl; lia. Qed.

Lemma take_1_tl (l : list Z) : l = take 1 l ++ tl l.
Proof. by destruct l. Qed.

(** The blocking admission.  It keeps the window well formed.  The clock it
    returns with is the clock it started with, plus a whole number [k] of
    sleeps, plus the ticks [read] that went by at its readings of the
    clock; a sleep only happens after a refusal, which needs a timestamp of
    the window within the horizon. *)
Lemma hedge_admission_clock fuel : ∀ s s' B,
  (∀ a, a ∈ order_timestamps s → a ≤ B) →
  forward s →
  hedge_admission fuel s = Some s' →
  keeps_time s s'
  ∧ ∃ (k : Z) (read : list Z),
      ticks s = read ++ ticks s'
      ∧ clock s' = clock s + HEDGE_SLEEP * k + Zsum read
      ∧ 0 ≤ k
      ∧ (k = 0 ∨ clock s + HEDGE_SLEEP * k ≤ B + RATE_HORIZON + HEDGE_SLEEP)
      ∧ ((window_load s < RATE_CAPACITY)%nat → k = 0).
Proof.
  induction fuel as [|fuel IH]; intros s s' B HB Hf Hrun; [done|].
  cbn [hedge_admission] in Hrun.
  pose proof (check_message_limit_frame s) as (_ & _ & _ & Hk).
  pose proof (check_message_limit_ticks s) as Htk.
  pose proof (check_message_limit_ok s) as Hok1.
  pose proof (check_message_limit_refused s) as Href.
  pose proof (next_time_forward s Hf) as Hnext.
  assert (Hread : next_time s = clock s + Zsum (take 1 (ticks s))).
  { rewrite Zsum_take_1. done. }
  destruct (check_message_limit s) as [ok s1] eqn:Hchk. cbn [fst snd] in *.
  destruct ok.
  - simplify_eq. split; [done|]. exists 0, (take 1 (ticks s)).
    rewrite Htk. split_and!; [apply take_1_tl|lia|lia|by left|done].
  - destruct (Href eq_refl) as [Hw Hlen].
    assert (Hsub : ∀ a, a ∈ order_timestamps s1 → a ∈ order_timestamps s).
    { intros a Ha. rewrite Hw in Ha.
      eapply elem_of_suffix; [exact Ha|apply popleft_stale_suffix]. }
    assert (Hrecent : next_time s - RATE_HORIZON ≤ B).
    { destruct (order_timestamps s1) as [|a r] eqn:Hs1; [done|].
      symmetry in Hw. apply popleft_stale_head in Hw.
      assert (a ≤ B); [|lia]. apply HB, Hsub. by left. }
    assert (Hf1 : forward (time_sleep HEDGE_SLEEP s1)).
    { unfold forward in *. replace (ticks (time_sleep HEDGE_SLEEP s1)) with (tl (ticks s))
        by (rewrite <- Htk; by destruct s1).
      destruct (ticks s); [done|]. by apply Forall_cons in Hf as [_ ?]. }
    destruct (IH (time_sleep HEDGE_SLEEP s1) s' B)
      as (Hok' & k & read & Hticks & Hclk & Hk0 & Hlast & _).
    { intros a Ha. apply HB, Hsub. by destruct s1. }
    { exact Hf1. }
    { exact Hrun. }
    assert (Hsl : clock (time_sleep HEDGE_SLEEP s1) = next_time s + HEDGE_SLEEP)
      by (rewrite <- Hk; by destruct s1).
    assert (Htl : ticks (time_sleep HEDGE_SLEEP s1) = tl (ticks s))
      by (rewrite <- Htk; by destruct s1).
    rewrite Hsl in Hclk, Hlast. rewrite Htl in Hticks. split.
    + eapply keeps_time_trans; [exact Hok1|].
      eapply keeps_time_trans; [|exact Hok']. by apply time_sleep_ok.
    + exists (k + 1), (take 1 (ticks s) ++ read).
      unfold HEDGE_SLEEP in *. split_and!.
      * rewrite <- app_assoc, <- Hticks. apply take_1_tl.
      * rewrite Zsum_app. lia.
      * lia.
      * right. destruct Hlast as [->|?]; lia.
      * unfold window_load. rewrite <- Hw, Hlen. lia.
Qed.

Lemma send_hedge_order_time price volume side s r :
  send_hedge_order price volume side s = Some r →
  ∃ s1, hedge_admission (hedge_fuel s) s = Some s1 ∧ time_state r.2 = time_state s1.
Proof.
  unfold send_hedge_order. intros Hrun.
  destruct (hedge_admission (hedge_fuel s) s) as [s1|]; [|done].
  cbn [mbind option_bind next_order_id] in Hrun. simplify_eq.
  exists s1. split; [done|]. case_bool_decide; by destruct s1.
Qed.

Lemma on_order_filled_message_time MINIMUM_BID MAXIMUM_ASK id price volume s s' :
  on_order_filled_message MINIMUM_BID MAXIMUM_ASK id price volume s = Some s' →
  Forall (λ t, t ≤ clock s) (order_timestamps s) → forward s →
  keeps_time s s'
  ∧ ∃ (k : Z) (read : list Z),
      ticks s = read ++ ticks s'
      ∧ clock s' = clock s + HEDGE_SLEEP * k + Zsum read
      ∧ 0 ≤ k ≤ 11
      ∧ ((window_load s < RATE_CAPACITY)%nat → k = 0).
Proof.
  intros Hrun Hle Hf.
  assert (Hgen : ∀ s0 r p side,
    time_state s0 = time_state s →
    send_hedge_order p volume side s0 = Some r →
    keeps_time s r.2
    ∧ ∃ (k : Z) (read : list Z),
        ticks s = read ++ ticks r.2
        ∧ clock r.2 = clock s + HEDGE_SLEEP * k + Zsum read
        ∧ 0 ≤ k ≤ 11
        ∧ ((window_load s < RATE_CAPACITY)%nat → k = 0)).
  { intros s0 r p side Hts Hsend.
    apply send_hedge_order_time in Hsend as (s1 & Hadm & Hr).
    pose proof Hts as Hts'. pose proof Hr as Hr'.
    unfold time_state in Hts, Hr.
    assert (order_timestamps s0 = order_timestamps s ∧ clock s0 = clock s
            ∧ ticks s0 = ticks s) as (Hw0 & Hk0 & Ht0) by (by simplify_eq).
    assert (order_timestamps r.2 = order_timestamps s1 ∧ clock r.2 = clock s1
            ∧ ticks r.2 = ticks s1) as (Hw1 & Hk1 & Ht1) by (by simplify_eq).
    destruct (hedge_admission_clock (hedge_fuel s0) s0 s1 (clock s))
      as (Hok & k & read & Hticks & Hclk & Hk & Hlast & Hfree); [| |exact Hadm|].
    { intros a Ha. rewrite Hw0 in Ha. by eapply Forall_forall in Hle. }
    { unfold forward. by rewrite Ht0. }
    split.
    - apply (keeps_time_from s0); [done|].
      eapply keeps_time_trans; [exact Hok|]. by apply keeps_time_time_state.
    - exists k, read. rewrite Hk1, Ht1, Hclk, Hk0, <- Ht0. split_and!; [done|lia|lia| |].
      + unfold HEDGE_SLEEP, RATE_HORIZON in *. destruct Hlast as [->|?]; lia.
      + intros Hload. apply Hfree. unfold window_load, next_time, time_time in *.
        by rewrite Hw0, Hk0, Ht0. }
  unfold on_order_filled_message in Hrun.
  destruct (dict_mem id (bids s)); [|destruct (dict_mem id (asks s))].
  - destruct (send_hedge_order _ _ _ _) as [r|] eqn:Hsend; [|done].
    cbn [mbind option_bind] in Hrun. simplify_eq.
    eapply Hgen; [|exact Hsend]. by destruct s.
  - destruct (send_hedge_order _ _ _ _) as [r|] eqn:Hsend; [|done].
    cbn [mbind option_bind] in Hrun. simplify_eq.
    eapply Hgen; [|exact Hsend]. by destruct s.
  - simplify_eq. split; [apply keeps_time_refl|]. exists 0, [].
    unfold HEDGE_SLEEP, Zsum. split_and!; [done|simpl; lia|lia|lia|done].
Qed.

Lemma deliver_ok MINIMUM_BID MAXIMUM_ASK e s s' :
  forward_only e → deliver MINIMUM_BID MAXIMUM_ASK e s = Some s' → keeps_time s s'.
Proof.
  intros He Hrun. destruct e; cbn in Hrun.
  - by eapply on_order_book_update_message_ok.
  - simplify_eq. apply keeps_time_refl.
  - intros Hok Hf.
    apply on_order_filled_message_time in Hrun as [Hkeep _]; [|apply Hok|done].
    by apply Hkeep.
  - simplify_eq. apply keeps_time_time_state.
    unfold on_order_status_message. case_bool_decide; by destruct s.
  - simplify_eq. apply keeps_time_time_state. unfold on_hedge_filled_message.
    repeat case_bool_decide; by destruct s.
  - simplify_eq. apply keeps_time_time_state.
    unfold on_error_message, on_order_status_message.
    destruct (_ && _); [|done]. case_bool_decide; by destruct s.
  - simplify_eq. simpl in He. by apply time_sleep_ok.
  - simplify_eq. simpl in He. intros Hok Hf.
    unfold rate_window_ok, forward in *. destruct s; cbn in *.
    split_and!; [apply Hok|apply Hok|apply Hok|done|lia].
Qed.

(** X12. The rate window stays well formed over any run in which the wall
    clock does not go backwards, between callbacks or between two readings
    inside a callback: from a state whose deque is sorted oldest first,
    holds no timestamp later than the clock and has at most 50 entries (as
    after [__init__]), every sequence of callbacks that returns leaves a
    deque with the same three properties, and the clock has not gone back.
    In particular the deque never holds more than 50 timestamps. *)
Theorem rate_window_stays_well_formed MINIMUM_BID MAXIMUM_ASK events s s' :
  Forall forward_only events →
  Forall (λ d, 0 ≤ d) (ticks s) →
  rate_window_ok s →
  run MINIMUM_BID MAXIMUM_ASK events s = Some s' →
  StronglySorted Z.le (order_timestamps s')
  ∧ Forall (λ t, t ≤ clock s') (order_timestamps s')
  ∧ (length (order_timestamps s') ≤ 50)%nat
  ∧ clock s ≤ clock s'.
Proof.
  revert s. induction events as [|e events IH]; intros s Hall Hf Hok Hrun.
  - cbn in Hrun. simplify_eq. destruct Hok as (? & ? & ?). by split_and!.
  - apply Forall_cons in Hall as [He Hall]. cbn [run] in Hrun.
    destruct (deliver MINIMUM_BID MAXIMUM_ASK e s) as [s1|] eqn:Hd; [|done].
    cbn [mbind option_bind] in Hrun.
    destruct (deliver_ok _ _ _ _ _ He Hd Hok Hf) as (Hok1 & Hf1 & Hclk).
    destruct (IH s1 Hall Hf1 Hok1 Hrun) as (? & ? & ? & ?).
    split_and!; [done|done|done|lia].
Qed.

Lemma rate_window_stays_well_formed_witness :
  ∃ s', run 1 2147483647 (Elapse 250 :: Ticks [1; 0; 2; 1; 1; 3] :: breach) (init 0)
        = Some s'
    ∧ StronglySorted Z.le (order_timestamps s')
    ∧ Forall (λ t, t ≤ clock s') (order_timestamps s')
    ∧ (length (order_timestamps s') ≤ 50)%nat
    ∧ clock (init 0) ≤ clock s'.
Proof.
  eexists. split; [by vm_compute|].
  apply (rate_window_stays_well_formed 1 2147483647
           (Elapse 250 :: Ticks [1; 0; 2; 1; 1; 3] :: breach) (init 0)).
  - repeat constructor; by vm_compute.
  - constructor.
  - unfold rate_window_ok. cbn. split_and!; [constructor|constructor|].
    unfold RATE_CAPACITY. lia.
  - by vm_compute.
Defined.

(** X13. The blocking hedge admission stalls the fill callback for at most
    1.1 seconds of sleep: in a state whose deque holds no timestamp later
    than the clock, and with a clock that runs forward,
    [on_order_filled_message] returns with the clock advanced by the ticks
    [read] that went by at its readings of the clock and by a whole number
    of 0.1 second sleeps, at most eleven, and by no sleep when the pruned
    window holds fewer than 50 timestamps. *)
Theorem hedge_stall_is_bounded MINIMUM_BID MAXIMUM_ASK id price volume s s' :
  Forall (λ t, t ≤ clock s) (order_timestamps s) →
  Forall (λ d, 0 ≤ d) (ticks s) →
  on_order_filled_message MINIMUM_BID MAXIMUM_ASK id price volume s = Some s' →
  ∃ read, ticks s = read ++ ticks s'
    ∧ let slept := clock s' - clock s - Zsum read in
      0 ≤ slept ≤ 1100
      ∧ slept `mod` 100 = 0
      ∧ ((window_load s < 50)%nat → slept = 0).
Proof.
  intros Hle Hf Hrun.
  apply on_order_filled_message_time in Hrun as (_ & k & read & Ht & Hclk & Hk & Hfree);
    [|done|done].
  exists read. split; [done|]. cbv zeta.
  unfold HEDGE_SLEEP in Hclk. rewrite Hclk.
  replace (clock s + 100 * k + Zsum read - clock s - Zsum read) with (k * 100) by lia.
  split_and!; [lia|lia|by rewrite Z.mod_mul|].
  intros Hload. rewrite (Hfree Hload). lia.
Qed.

(** With the window full of timestamps taken at time 0 and a clock that has
    moved on by 70 ms over the first two readings, the hedge waits ten
    sleeps; with a clock that only moves while the trader sleeps
    ([saturated_trader]) it waits the full eleven. *)
Lemma hedge_stall_is_bounded_witness :
  ∃ s', on_order_filled_message 1 2147483647 1 9900 20 saturated_ticking = Some s'
    ∧ clock s' = 1070
    ∧ (clock <$> on_order_filled_message 1 2147483647 1 9900 20 saturated_trader)
      = Some 1100
    ∧ ∃ read, ticks saturated_ticking = read ++ ticks s'
        ∧ let slept := clock s' - clock saturated_ticking - Zsum read in
          0 ≤ slept ≤ 1100
          ∧ slept `mod` 100 = 0
          ∧ ((window_load saturated_ticking < 50)%nat → slept = 0).
Proof.
  eexists. split; [by vm_compute|]. split; [by vm_compute|]. split; [by vm_compute|].
  apply (hedge_stall_is_bounded 1 2147483647 1 9900 20 saturated_ticking).
  - apply Forall_forall. intros t Ht. apply elem_of_replicate in Ht as [-> _].
    by vm_compute.
  - repeat constructor; lia.
  - by vm_compute.
Defined.

(** ** The ledger agrees with the commands sent *)

Lemma issued_ids_snoc out c :
  issued_ids (out ++ [c])
  = issued_ids out ++ match issued c with Some i => [i] | None => [] end.
Proof. unfold issued_ids. rewrite omap_app. f_equal. Qed.

Lemma seqZ_snoc (n : Z) : 1 ≤ n → seqZ 1 (n + 1 - 1) = seqZ 1 (n - 1) ++ [n].
Proof.
  intros Hn. replace (n + 1 - 1) with ((n - 1) + 1) by lia.
  rewrite seqZ_app by lia. f_equal.
  replace (1 + (n - 1)) with n by lia. done.
Qed.

Lemma issued_in out c i : c ∈ out → issued c = Some i → i ∈ issued_ids out.
Proof. intros Hc Hi. apply list_elem_of_omap. by exists c. Qed.

Lemma issued_below n out c i :
  issued_ids out = seqZ 1 (n - 1) → c ∈ out → issued c = Some i → 1 ≤ i < n.
Proof.
  intros Hids Hc Hi. pose proof (issued_in _ _ _ Hc Hi) as Hin.
  rewrite Hids, elem_of_seqZ in Hin. lia.
Qed.

Lemma issued_unique out : ∀ c1 c2 i,
  NoDup (issued_ids out) → c1 ∈ out → c2 ∈ out →
  issued c1 = Some i → issued c2 = Some i → c1 = c2.
Proof.
  induction out as [|x out IH]; intros c1 c2 i Hnd H1 H2 Hi1 Hi2;
    [by apply elem_of_nil in H1|].
  assert (Htail : NoDup (issued_ids out)).
  { unfold issued_ids in *. cbn [omap list_omap] in Hnd.
    destruct (issued x); [by apply NoDup_cons in Hnd as [_ ?]|done]. }
  assert (Hfresh : ∀ c, c ∈ out → issued c = Some i → issued x = Some i → False).
  { intros c Hc Hci Hx. unfold issued_ids in Hnd. cbn [omap list_omap] in Hnd.
    rewrite Hx in Hnd. apply NoDup_cons in Hnd as [Hnot _].
    apply Hnot. by eapply issued_in. }
  apply elem_of_cons in H1 as [->|H1], H2 as [->|H2]; try done.
  - exfalso. by eapply Hfresh.
  - exfalso. by eapply Hfresh.
  - by eapply IH.
Qed.

Lemma cancels_follow_inserts_snoc out c :
  cancels_follow_inserts out →
  (∀ id, c = CancelOrder id → ∃ side p v l, InsertOrder id side p v l ∈ out) →
  cancels_follow_inserts (out ++ [c]).
Proof.
  intros Hout Hc i id Hi.
  apply lookup_snoc_Some in Hi as [[Hlt Hi]|[-> ->]].
  - destruct (Hout i id Hi) as (j & side & p & v & l & Hj & Hjl).
    exists j, side, p, v, l. split; [done|].
    rewrite lookup_app_l; [done|]. apply lookup_lt_Some in Hjl. lia.
  - destruct (Hc id eq_refl) as (side & p & v & l & Hin).
    apply list_elem_of_lookup in Hin as [j Hj].
    exists j, side, p, v, l. pose proof (lookup_lt_Some _ _ _ Hj).
    split; [done|]. by rewrite lookup_app_l.
Qed.

Lemma consistent_book_fresh n b a hb ha out :
  consistent_book n b a hb ha out →
  (n ∉ b.*1) ∧ (n ∉ a.*1) ∧ (n ∉ hb) ∧ (n ∉ ha).
Proof.
  intros (_ & Hids & Hb & Ha & Hhb & Hha & _).
  split_and!.
  - intros ([k p] & -> & Hin)%list_elem_of_fmap. destruct (Hb _ _ Hin) as (v & l & Hc).
    pose proof (issued_below _ _ _ _ Hids Hc eq_refl). simpl in *. lia.
  - intros ([k p] & -> & Hin)%list_elem_of_fmap. destruct (Ha _ _ Hin) as (v & l & Hc).
    pose proof (issued_below _ _ _ _ Hids Hc eq_refl). simpl in *. lia.
  - intros Hin. destruct (Hhb _ Hin) as (p & v & Hc).
    pose proof (issued_below _ _ _ _ Hids Hc eq_refl). lia.
  - intros Hin. destruct (Hha _ Hin) as (p & v & Hc).
    pose proof (issued_below _ _ _ _ Hids Hc eq_refl). lia.
Qed.

Lemma consistent_book_insert_buy n b a hb ha out p v l :
  consistent_book n b a hb ha out →
  consistent_book (n + 1) (dict_set n p b) a hb ha (out ++ [InsertOrder n BUY p v l]).
Proof.
  intros Hcons. destruct (consistent_book_fresh _ _ _ _ _ _ Hcons) as (Hnb & _).
  destruct Hcons as (Hn & Hids & Hb & Ha & Hhb & Hha & Hndb & Hnda & Hcan).
  rewrite dict_set_fresh by done. unfold consistent_book. split_and!.
  - lia.
  - rewrite issued_ids_snoc, Hids. cbn [issued]. by rewrite seqZ_snoc.
  - intros id q [Hin|Hin]%elem_of_app.
    + destruct (Hb _ _ Hin) as (v' & l' & Hc). exists v', l'. apply elem_of_app. by left.
    + apply list_elem_of_singleton in Hin. simplify_eq. exists v, l.
      apply elem_of_app. right. apply list_elem_of_here.
  - intros id q Hin. destruct (Ha _ _ Hin) as (v' & l' & Hc).
    exists v', l'. apply elem_of_app. by left.
  - intros id Hin. destruct (Hhb _ Hin) as (q & v' & Hc).
    exists q, v'. apply elem_of_app. by left.
  - intros id Hin. destruct (Hha _ Hin) as (q & v' & Hc).
    exists q, v'. apply elem_of_app. by left.
  - rewrite fmap_app. apply NoDup_app. split_and!; [done| |apply NoDup_singleton].
    intros k Hk ->%list_elem_of_singleton. done.
  - done.
  - apply cancels_follow_inserts_snoc; [done|]. by intros id ?.
Qed.

Lemma consistent_book_insert_sell n b a hb ha out p v l :
  consistent_book n b a hb ha out →
  consistent_book (n + 1) b (dict_set n p a) hb ha (out ++ [InsertOrder n SELL p v l]).
Proof.
  intros Hcons. destruct (consistent_book_fresh _ _ _ _ _ _ Hcons) as (_ & Hna & _).
  destruct Hcons as (Hn & Hids & Hb & Ha & Hhb & Hha & Hndb & Hnda & Hcan).
  rewrite dict_set_fresh by done. unfold consistent_book. split_and!.
  - lia.
  - rewrite issued_ids_snoc, Hids. cbn [issued]. by rewrite seqZ_snoc.
  - intros id q Hin. destruct (Hb _ _ Hin) as (v' & l' & Hc).
    exists v', l'. apply elem_of_app. by left.
  - intros id q [Hin|Hin]%elem_of_app.
    + destruct (Ha _ _ Hin) as (v' & l' & Hc). exists v', l'. apply elem_of_app. by left.
    + apply list_elem_of_singleton in Hin. simplify_eq. exists v, l.
      apply elem_of_app. right. apply list_elem_of_here.
  - intros id Hin. destruct (Hhb _ Hin) as (q & v' & Hc).
    exists q, v'. apply elem_of_app. by left.
  - intros id Hin. destruct (Hha _ Hin) as (q & v' & Hc).
    exists q, v'. apply elem_of_app. by left.
  - done.
  - rewrite fmap_app. apply NoDup_app. split_and!; [done| |apply NoDup_singleton].
    intros k Hk ->%list_elem_of_singleton. done.
  - apply cancels_follow_inserts_snoc; [done|]. by intros id ?.
Qed.

Lemma consistent_book_hedge n b a hb ha out side p v :
  consistent_book n b a hb ha out →
  consistent_book (n + 1) b a
    (if bool_decide (side = BID) then {[n]} ∪ hb else hb)
    (if bool_decide (side = BID) then ha else {[n]} ∪ ha)
    (out ++ [HedgeOrder n side p v]).
Proof.
  intros (Hn & Hids & Hb & Ha & Hhb & Hha & Hndb & Hnda & Hcan).
  unfold consistent_book. split_and!.
  - lia.
  - rewrite issued_ids_snoc, Hids. cbn [issued]. by rewrite seqZ_snoc.
  - intros id q Hin. destruct (Hb _ _ Hin) as (v' & l' & Hc).
    exists v', l'. apply elem_of_app. by left.
  - intros id q Hin. destruct (Ha _ _ Hin) as (v' & l' & Hc).
    exists v', l'. apply elem_of_app. by left.
  - intros id Hin. case_bool_decide as Hside.
    + apply elem_of_union in Hin as [->%elem_of_singleton|Hin].
      * exists p, v. subst side. apply elem_of_app. right. apply list_elem_of_here.
      * destruct (Hhb _ Hin) as (q & v' & Hc). exists q, v'. apply elem_of_app. by left.
    + destruct (Hhb _ Hin) as (q & v' & Hc). exists q, v'. apply elem_of_app. by left.
  - intros id Hin. case_bool_decide as Hside.
    + destruct (Hha _ Hin) as (q & v' & Hc). exists q, v'. apply elem_of_app. by left.
    + apply elem_of_union in Hin as [->%elem_of_singleton|Hin].
      * exists p, v. assert (side = ASK) as -> by (by destruct side).
        apply elem_of_app. right. apply list_elem_of_here.
      * destruct (Hha _ Hin) as (q & v' & Hc). exists q, v'. apply elem_of_app. by left.
  - done.
  - done.
  - apply cancels_follow_inserts_snoc; [done|]. by intros id ?.
Qed.

Lemma consistent_book_cancel n b a hb ha out id :
  id ∈ b.*1 ∨ id ∈ a.*1 →
  consistent_book n b a hb ha out →
  consistent_book n b a hb ha (out ++ [CancelOrder id]).
Proof.
  intros Hid (Hn & Hids & Hb & Ha & Hhb & Hha & Hndb & Hnda & Hcan).
  unfold consistent_book. split_and!; try done.
  - rewrite issued_ids_snoc, Hids. cbn [issued]. by rewrite app_nil_r.
  - intros k q Hin. destruct (Hb _ _ Hin) as (v' & l' & Hc).
    exists v', l'. apply elem_of_app. by left.
  - intros k q Hin. destruct (Ha _ _ Hin) as (v' & l' & Hc).
    exists v', l'. apply elem_of_app. by left.
  - intros k Hin. destruct (Hhb _ Hin) as (q & v' & Hc).
    exists q, v'. apply elem_of_app. by left.
  - intros k Hin. destruct (Hha _ Hin) as (q & v' & Hc).
    exists q, v'. apply elem_of_app. by left.
  - apply cancels_follow_inserts_snoc; [done|]. intros k Hk. simplify_eq.
    destruct Hid as [([k' q] & -> & Hin)%list_elem_of_fmap
                    |([k' q] & -> & Hin)%list_elem_of_fmap].
    + destruct (Hb _ _ Hin) as (v' & l' & Hc). by exists BUY, q, v', l'.
    + destruct (Ha _ _ Hin) as (v' & l' & Hc). by exists SELL, q, v', l'.
Qed.

Lemma dict_pop_NoDup k (d : dict) : NoDup d.*1 → NoDup (dict_pop k d).*1.
Proof.
  intros Hnd. eapply sublist_NoDup; [exact Hnd|].
  apply fmap_sublist, dict_pop_sublist.
Qed.

Lemma consistent_book_retire n b a hb ha out id :
  consistent_book n b a hb ha out →
  consistent_book n (dict_pop id b) (dict_pop id a) hb ha out.
Proof.
  intros (Hn & Hids & Hb & Ha & Hhb & Hha & Hndb & Hnda & Hcan).
  unfold consistent_book. split_and!; try done.
  - intros k q [Hin _]%dict_pop_elem. by apply Hb.
  - intros k q [Hin _]%dict_pop_elem. by apply Ha.
  - by apply dict_pop_NoDup.
  - by apply dict_pop_NoDup.
Qed.

Lemma consistent_book_hedge_done n b a hb ha out id :
  consistent_book n b a hb ha out →
  consistent_book n b a (hb ∖ {[id]}) ha out
  ∧ consistent_book n b a hb (ha ∖ {[id]}) out.
Proof.
  intros (Hn & Hids & Hb & Ha & Hhb & Hha & Hndb & Hnda & Hcan).
  unfold consistent_book. split; split_and!; try done.
  - intros k [Hin _]%elem_of_difference. by apply Hhb.
  - intros k [Hin _]%elem_of_difference. by apply Hha.
Qed.

Lemma consistent_of_book s s' :
  book s' = book s → consistent s → consistent s'.
Proof.
  unfold book, ledger, consistent. intros Heq. simplify_eq.
  by repeat match goal with H : _ s' = _ s |- _ => rewrite H end.
Qed.

Lemma consistent_from_book s n b a hb ha out :
  book s = ((n, b, a, hb, ha), out) → consistent_book n b a hb ha out → consistent s.
Proof. unfold book, ledger, consistent. intros Heq. by simplify_eq. Qed.

Lemma send_bid_order_consistent price volume type s :
  consistent s → consistent (send_bid_order price volume type s).2.
Proof.
  intros Hs. destruct (send_bid_order_book price volume type s) as [_ Hb].
  destruct (admits s); [|by eapply consistent_of_book].
  eapply consistent_from_book; [exact Hb|]. by apply consistent_book_insert_buy.
Qed.

Lemma send_ask_order_consistent price volume type s :
  consistent s → consistent (send_ask_order price volume type s).2.
Proof.
  intros Hs. destruct (send_ask_order_book price volume type s) as [_ Hb].
  destruct (admits s); [|by eapply consistent_of_book].
  eapply consistent_from_book; [exact Hb|]. by apply consistent_book_insert_sell.
Qed.

Lemma send_cancel_order_consistent id s :
  id ∈ (bids s).*1 ∨ id ∈ (asks s).*1 →
  consistent s → consistent (send_cancel_order id s).2.
Proof.
  intros Hid Hs. destruct (send_cancel_order_book id s) as [_ Hb].
  destruct (admits s); [|by eapply consistent_of_book].
  eapply consistent_from_book; [exact Hb|]. by apply consistent_book_cancel.
Qed.

Lemma request_cancels_consistent ids : ∀ s,
  (∀ id, id ∈ ids → id ∈ (bids s).*1 ∨ id ∈ (asks s).*1) →
  consistent s → consistent (request_cancels ids s).
Proof.
  unfold request_cancels. induction ids as [|id ids IH]; intros s Hids Hs; [done|].
  cbn [foldl]. destruct (send_cancel_order_frame id s) as (_ & Hl & _).
  unfold ledger in Hl.
  assert (bids (send_cancel_order id s).2 = bids s
          ∧ asks (send_cancel_order id s).2 = asks s) as [Hb Ha] by (by simplify_eq).
  apply IH.
  - intros k Hk. rewrite Hb, Ha. apply Hids. by right.
  - apply send_cancel_order_consistent; [|done]. apply Hids. by left.
Qed.

Lemma filter_keys_subset (P : Z * Z → Prop) `{!∀ kv, Decision (P kv)} (d : dict) id :
  id ∈ (filter P d).*1 → id ∈ d.*1.
Proof.
  intros (kv & -> & Hin)%list_elem_of_fmap. apply list_elem_of_filter in Hin as [_ Hin].
  apply list_elem_of_fmap. by exists kv.
Qed.

Lemma trim_orders_consistent s : consistent s → consistent (trim_orders s).
Proof.
  intros Hs. rewrite trim_orders_requests. apply request_cancels_consistent; [|done].
  unfold trim_requests. intros id [Hin|Hin]%elem_of_app;
    [left|right]; by eapply filter_keys_subset.
Qed.

Lemma clear_book_requests_form ap bp av bv s s' :
  clear_book ap bp av bv s = Some s' →
  ∃ ca cb, s' = request_cancels (clear_book_requests ca cb s) s.
Proof.
  unfold clear_book. intros Hrun.
  destruct (last ap) as [ca0|]; [|done].
  destruct (last bp) as [cb0|]; [|done]. cbn [mbind option_bind] in Hrun.
  destruct (cutoff_scan ap av 0 0 ca0) as [ca|]; [|done].
  destruct (cutoff_scan bp bv 0 0 cb0) as [cb|]; [|done].
  cbn [mbind option_bind] in Hrun. simplify_eq. exists ca, cb.
  match goal with |- context [cancel_matching ?P (bids s) s] =>
    destruct (cancel_matching_frame P (bids s) s) as (_ & Hl);
    assert (Hasks : asks (cancel_matching P (bids s) s) = asks s)
      by (unfold ledger in Hl; by simplify_eq)
  end.
  rewrite Hasks. clear Hasks Hl.
  rewrite !cancel_matching_requests.
  unfold clear_book_requests. rewrite request_cancels_app.
  rewrite (list_filter_iff (λ kv : Z * Z, bool_decide (kv.2 >= ca)) (λ kv, ca ≤ kv.2))
    by (intros kv; rewrite bool_decide_spec; lia).
  rewrite (list_filter_iff (λ kv : Z * Z, bool_decide (kv.2 <= cb)) (λ kv, kv.2 ≤ cb))
    by (intros kv; rewrite bool_decide_spec; lia).
  done.
Qed.

Lemma clear_book_consistent ap bp av bv s s' :
  clear_book ap bp av bv s = Some s' → consistent s → consistent s'.
Proof.
  intros Hrun Hs. apply clear_book_requests_form in Hrun as (ca & cb & ->).
  apply request_cancels_consistent; [|done].
  unfold clear_book_requests. intros id [Hin|Hin]%elem_of_app;
    [left|right]; by eapply filter_keys_subset.
Qed.

Lemma handle_arbitrage_consistent ap av bp bv s s' :
  handle_arbitrage ap av bp bv s = Some s' → consistent s → consistent s'.
Proof.
  unfold handle_arbitrage. intros Hrun Hs.
  destruct (ap !! 0%nat) as [ask0|]; [|done]. cbn [mbind option_bind] in Hrun.
  case_bool_decide.
  - destruct (av !! 0%nat) as [av0|]; [|done]. cbn [mbind option_bind] in Hrun.
    case_bool_decide; simplify_eq; [|done]. by apply send_bid_order_consistent.
  - destruct (bp !! 0%nat) as [bid0|]; [|done]. cbn [mbind option_bind] in Hrun.
    case_bool_decide; simplify_eq; [|done].
    destruct (bv !! 0%nat) as [bv0|]; [|done]. cbn [mbind option_bind] in Hrun.
    case_bool_decide; simplify_eq; [|done]. by apply send_ask_order_consistent.
Qed.

Lemma quote_ask_loop_consistent prices : ∀ st,
  consistent st.1 → consistent (foldl quote_ask_step st prices).1.
Proof.
  induction prices as [|i prices IH]; intros st Hs; [done|].
  cbn [foldl]. apply IH. unfold quote_ask_step.
  destruct (_ && _); [|done]. by apply send_ask_order_consistent.
Qed.

Lemma quote_bid_loop_consistent prices : ∀ st,
  consistent st.1 → consistent (foldl quote_bid_step st prices).1.
Proof.
  induction prices as [|i prices IH]; intros st Hs; [done|].
  cbn [foldl]. apply IH. unfold quote_bid_step.
  destruct (_ && _); [|done]. by apply send_bid_order_consistent.
Qed.

Lemma handle_market_making_consistent bp bv ap av s s' :
  handle_market_making bp bv ap av s = Some s' → consistent s → consistent s'.
Proof.
  unfold handle_market_making. intros Hrun Hs.
  destruct (clear_book ap bp av bv s) as [s1|] eqn:Hclear; [|done].
  cbn [mbind option_bind] in Hrun.
  destruct (bp !! 0%nat) as [etf_bid|]; [|done].
  destruct (ap !! 0%nat) as [etf_ask|]; [|done].
  cbn [mbind option_bind] in Hrun. simplify_eq.
  apply quote_bid_loop_consistent. cbn [fst].
  apply quote_ask_loop_consistent. cbn [fst].
  by eapply clear_book_consistent.
Qed.

Lemma on_order_book_update_message_consistent i n ap av bp bv s s' :
  on_order_book_update_message i n ap av bp bv s = Some s' →
  consistent s → consistent s'.
Proof.
  unfold on_order_book_update_message. intros Hrun Hs.
  set (s0 := set_msg_seq (Z.max (msg_seq s) n) s) in *.
  assert (H0 : consistent s0) by (by destruct s).
  clearbody s0. clear Hs.
  case_bool_decide; [by simplify_eq|].
  destruct (bp !! 0%nat) as [bid0|]; [|done]. cbn [mbind option_bind] in Hrun.
  case_bool_decide; [by simplify_eq|].
  destruct (ap !! 0%nat) as [ask0|]; [|done]. cbn [mbind option_bind] in Hrun.
  case_bool_decide; [by simplify_eq|].
  destruct i.
  - rewrite (bool_decide_eq_false_2 (FUTURE = ETF)) in Hrun by done.
    cbn [mbind option_bind] in Hrun.
    rewrite (bool_decide_eq_true_2 (FUTURE = FUTURE)) in Hrun by done. simplify_eq.
    apply trim_orders_consistent. by destruct s0.
  - rewrite (bool_decide_eq_true_2 (ETF = ETF)) in Hrun by done.
    rewrite (bool_decide_eq_false_2 (ETF = FUTURE)) in Hrun by done.
    destruct (_ || _).
    + destruct (handle_arbitrage ap av bp bv s0) as [s1|] eqn:Harb; [|done].
      cbn [mbind option_bind] in Hrun. simplify_eq.
      by eapply handle_arbitrage_consistent.
    + destruct (_ && _).
      * destruct (handle_market_making bp bv ap av s0) as [s1|] eqn:Hmm; [|done].
        cbn [mbind option_bind] in Hrun. simplify_eq.
        by eapply handle_market_making_consistent.
      * cbn [mbind option_bind] in Hrun. by simplify_eq.
Qed.

Lemma on_order_filled_message_consistent MINIMUM_BID MAXIMUM_ASK id price volume s s' :
  on_order_filled_message MINIMUM_BID MAXIMUM_ASK id price volume s = Some s' →
  consistent s → consistent s'.
Proof.
  intros Hrun Hs.
  destruct (on_order_filled_message_book MINIMUM_BID MAXIMUM_ASK id price volume s)
    as (s1 & Hrun' & _ & _ & _ & Hspec).
  rewrite Hrun in Hrun'. injection Hrun' as <-.
  destruct (dict_mem id (bids s)); [|destruct (dict_mem id (asks s))].
  - destruct Hspec as (_ & _ & Hb). eapply consistent_from_book; [exact Hb|].
    apply (consistent_book_hedge _ _ _ _ _ _ ASK). exact Hs.
  - destruct Hspec as (_ & _ & Hb). eapply consistent_from_book; [exact Hb|].
    apply (consistent_book_hedge _ _ _ _ _ _ BID). exact Hs.
  - by subst.
Qed.

Lemma on_order_status_message_consistent id fill remaining fees s :
  consistent s → consistent (on_order_status_message id fill remaining fees s).
Proof.
  intros Hs. unfold on_order_status_message. case_bool_decide; [|done].
  apply (consistent_book_retire _ _ _ _ _ _ id) in Hs. by destruct s.
Qed.

Lemma deliver_consistent MINIMUM_BID MAXIMUM_ASK e s s' :
  deliver MINIMUM_BID MAXIMUM_ASK e s = Some s' → consistent s → consistent s'.
Proof.
  intros Hrun Hs. destruct e; cbn in Hrun.
  - by eapply on_order_book_update_message_consistent.
  - by simplify_eq.
  - by eapply on_order_filled_message_consistent.
  - simplify_eq. by apply on_order_status_message_consistent.
  - simplify_eq. unfold on_hedge_filled_message.
    destruct (consistent_book_hedge_done _ _ _ _ _ _ client_order_id Hs) as [H1 H2].
    repeat case_bool_decide; by destruct s.
  - simplify_eq. unfold on_error_message.
    destruct (_ && _); [|done]. by apply on_order_status_message_consistent.
  - simplify_eq. by destruct s.
  - simplify_eq. by destruct s.
Qed.

Lemma init_consistent t0 : consistent (init t0).
Proof.
  unfold consistent, consistent_book. cbn.
  split_and!; try done;
    try (intros id p H; by apply elem_of_nil in H);
    try (intros id H; by apply elem_of_empty in H);
    try constructor.
Qed.

Lemma run_consistent MINIMUM_BID MAXIMUM_ASK events : ∀ s s',
  run MINIMUM_BID MAXIMUM_ASK events s = Some s' → consistent s → consistent s'.
Proof.
  induction events as [|e events IH]; intros s s' Hrun Hs.
  - cbn in Hrun. by simplify_eq.
  - cbn [run] in Hrun.
    destruct (deliver MINIMUM_BID MAXIMUM_ASK e s) as [s1|] eqn:Hd; [|done].
    cbn [mbind option_bind] in Hrun.
    eapply IH; [exact Hrun|]. by eapply deliver_consistent.
Qed.

(** X14. Order identifiers are never skipped and never reused: in every
    state reached from [__init__], the identifiers carried by the insert and
    hedge commands sent so far are exactly 1, 2, ..., [order_ids - 1], in
    the order in which the commands were sent.  A throttled send does not
    consume an identifier, and no two commands allocate the same one. *)
Theorem order_ids_are_consecutive MINIMUM_BID MAXIMUM_ASK t0 events s :
  run MINIMUM_BID MAXIMUM_ASK events (init t0) = Some s →
  1 ≤ order_ids s
  ∧ issued_ids (outbox s) = seqZ 1 (order_ids s - 1)
  ∧ NoDup (issued_ids (outbox s)).
Proof.
  intros Hrun.
  destruct (run_consistent _ _ _ _ _ Hrun (init_consistent t0)) as (Hn & Hids & _).
  split_and!; [done|done|]. rewrite Hids. apply NoDup_seqZ.
Qed.

Lemma order_ids_are_consecutive_witness :
  ∃ s, run 1 2147483647 breach (init 0) = Some s
    ∧ 1 ≤ order_ids s
    ∧ issued_ids (outbox s) = seqZ 1 (order_ids s - 1)
    ∧ NoDup (issued_ids (outbox s)).
Proof.
  eexists. split; [by vm_compute|].
  apply (order_ids_are_consecutive 1 2147483647 0 breach). by vm_compute.
Defined.

(** X15. The ledger only holds what was sent: in every state reached from
    [__init__], each entry of [bids] is an insert command that was sent as a
    buy under that identifier and at that price, each entry of [asks] one
    that was sent as a sell, and each identifier of [hedge_bid]
    (respectively [hedge_ask]) a hedge command that was sent on the bid
    (ask) side.  No identifier appears twice in a ledger, in both ledgers,
    in both hedge sets, or in a ledger and a hedge set. *)
Theorem ledger_matches_commands MINIMUM_BID MAXIMUM_ASK t0 events s :
  run MINIMUM_BID MAXIMUM_ASK events (init t0) = Some s →
  (∀ id p, (id, p) ∈ bids s → ∃ v l, InsertOrder id BUY p v l ∈ outbox s)
  ∧ (∀ id p, (id, p) ∈ asks s → ∃ v l, InsertOrder id SELL p v l ∈ outbox s)
  ∧ (∀ id, id ∈ hedge_bid s → ∃ p v, HedgeOrder id BID p v ∈ outbox s)
  ∧ (∀ id, id ∈ hedge_ask s → ∃ p v, HedgeOrder id ASK p v ∈ outbox s)
  ∧ NoDup (bids s).*1 ∧ NoDup (asks s).*1
  ∧ (∀ id, id ∈ (bids s).*1 → id ∉ (asks s).*1)
  ∧ (∀ id, id ∈ hedge_bid s → id ∉ hedge_ask s)
  ∧ (∀ id, id ∈ hedge_bid s ∨ id ∈ hedge_ask s →
           (id ∉ (bids s).*1) ∧ (id ∉ (asks s).*1)).
Proof.
  intros Hrun.
  destruct (run_consistent _ _ _ _ _ Hrun (init_consistent t0))
    as (Hn & Hids & Hb & Ha & Hhb & Hha & Hndb & Hnda & _).
  assert (Hnd : NoDup (issued_ids (outbox s))) by (rewrite Hids; apply NoDup_seqZ).
  assert (Huniq : ∀ c1 c2 i, c1 ∈ outbox s → c2 ∈ outbox s →
                    issued c1 = Some i → issued c2 = Some i → c1 = c2).
  { intros c1 c2 i. by apply issued_unique. }
  assert (Hhedge_ledger : ∀ id side p v, HedgeOrder id side p v ∈ outbox s →
            (id ∉ (bids s).*1) ∧ (id ∉ (asks s).*1)).
  { intros id side p v Hc. split.
    - intros ([k q] & -> & Hin)%list_elem_of_fmap.
      destruct (Hb _ _ Hin) as (v' & l' & Hc').
      by pose proof (Huniq _ _ _ Hc Hc' eq_refl eq_refl).
    - intros ([k q] & -> & Hin)%list_elem_of_fmap.
      destruct (Ha _ _ Hin) as (v' & l' & Hc').
      by pose proof (Huniq _ _ _ Hc Hc' eq_refl eq_refl). }
  split_and!; try done.
  - intros id ([k q] & -> & Hin)%list_elem_of_fmap ([k' q'] & Hk & Hin')%list_elem_of_fmap.
    simpl in Hk. subst k'.
    destruct (Hb _ _ Hin) as (v & l & Hc). destruct (Ha _ _ Hin') as (v' & l' & Hc').
    by pose proof (Huniq _ _ _ Hc Hc' eq_refl eq_refl).
  - intros id Hin Hin'.
    destruct (Hhb _ Hin) as (p & v & Hc). destruct (Hha _ Hin') as (p' & v' & Hc').
    by pose proof (Huniq _ _ _ Hc Hc' eq_refl eq_refl).
  - intros id [Hin|Hin].
    + destruct (Hhb _ Hin) as (p & v & Hc). by eapply Hhedge_ledger.
    + destruct (Hha _ Hin) as (p & v & Hc). by eapply Hhedge_ledger.
Qed.

Lemma ledger_matches_commands_witness :
  ∃ s, run 1 2147483647 breach (init 0) = Some s
    ∧ (∀ id p, (id, p) ∈ bids s → ∃ v l, InsertOrder id BUY p v l ∈ outbox s)
    ∧ (∀ id p, (id, p) ∈ asks s → ∃ v l, InsertOrder id SELL p v l ∈ outbox s)
    ∧ (∀ id, id ∈ hedge_bid s → ∃ p v, HedgeOrder id BID p v ∈ outbox s)
    ∧ (∀ id, id ∈ hedge_ask s → ∃ p v, HedgeOrder id ASK p v ∈ outbox s)
    ∧ NoDup (bids s).*1 ∧ NoDup (asks s).*1
    ∧ (∀ id, id ∈ (bids s).*1 → id ∉ (asks s).*1)
    ∧ (∀ id, id ∈ hedge_bid s → id ∉ hedge_ask s)
    ∧ (∀ id, id ∈ hedge_bid s ∨ id ∈ hedge_ask s →
             (id ∉ (bids s).*1) ∧ (id ∉ (asks s).*1)).
Proof.
  eexists. split; [by vm_compute|].
  apply (ledger_matches_commands 1 2147483647 0 breach). by vm_compute.
Defined.

(** X16. The trader only cancels orders it has inserted: in every state
    reached from [__init__], each cancel command among the commands sent
    names an identifier under which an insert command was sent earlier. *)
Theorem cancels_name_inserted_orders MINIMUM_BID MAXIMUM_ASK t0 events s :
  run MINIMUM_BID MAXIMUM_ASK events (init t0) = Some s →
  ∀ (i : nat) id, outbox s !! i = Some (CancelOrder id) →
    ∃ (j : nat) side price volume lifespan,
      (j < i)%nat ∧ outbox s !! j = Some (InsertOrder id side price volume lifespan).
Proof.
  intros Hrun.
  destruct (run_consistent _ _ _ _ _ Hrun (init_consistent t0))
    as (_ & _ & _ & _ & _ & _ & _ & _ & Hcan).
  exact Hcan.
Qed.

Lemma cancels_name_inserted_orders_witness :
  ∃ s, run 1 2147483647 trimmed (init 0) = Some s
    ∧ CancelOrder 9 ∈ outbox s
    ∧ ∀ (i : nat) id, outbox s !! i = Some (CancelOrder id) →
        ∃ (j : nat) side price volume lifespan,
          (j < i)%nat
          ∧ outbox s !! j = Some (InsertOrder id side price volume lifespan).
Proof.
  eexists. split; [by vm_compute|]. split.
  - vm_compute. do 10 apply list_elem_of_further. apply list_elem_of_here.
  - apply (cancels_name_inserted_orders 1 2147483647 0 trimmed). by vm_compute.
Defined.

(** ** The rate budget of one book update *)

Lemma paced_refl T s0 s : paced T s0 s s.
Proof. split; [apply keeps_time_refl|]. by intros. Qed.

Lemma paced_trans T s0 s1 s2 s3 :
  paced T s0 s1 s2 → paced T s0 s2 s3 → paced T s0 s1 s3.
Proof.
  intros [Hk12 H12] [Hk23 H23]. split; [by eapply keeps_time_trans|].
  intros Hin Hclk. pose proof Hin as (_ & Hok & Hf & _).
  destruct (Hk12 Hok Hf) as (Hok2 & Hf2 & _).
  destruct (Hk23 Hok2 Hf2) as (_ & _ & Hle).
  apply H23; [|done]. apply H12; [done|lia].
Qed.

Lemma paced_time_state T s0 s s' :
  time_state s' = time_state s → outbox s' = outbox s → paced T s0 s s'.
Proof.
  intros Hts Ho. split; [by apply keeps_time_time_state|].
  intros ((kept & stamps & Hw & Hsuf & Hall & Hlen) & Hok & Hf & HT) _.
  pose proof (keeps_time_time_state _ _ Hts Hok Hf) as (Hok' & Hf' & _).
  unfold time_state in Hts.
  assert (order_timestamps s' = order_timestamps s ∧ clock s' = clock s
          ∧ ticks s' = ticks s) as (Hw' & Hk' & Ht') by (by simplify_eq).
  split_and!; [|done|done|].
  - exists kept, stamps. by rewrite Hw', Ho.
  - unfold next_time, time_time in *. by rewrite Hk', Ht'.
Qed.

Lemma paced_from T s0 s1 s s' :
  time_state s1 = time_state s → outbox s1 = outbox s →
  paced T s0 s1 s' → paced T s0 s s'.
Proof.
  intros Hts Ho Hp. eapply paced_trans; [|exact Hp]. by apply paced_time_state.
Qed.

(** Timestamps within the horizon stop the pruning loop. *)
Lemma popleft_stale_app_fresh t kept stamps :
  Forall (λ a, t - RATE_HORIZON < a) stamps →
  popleft_stale t (kept ++ stamps) = popleft_stale t kept ++ stamps.
Proof.
  intros Hfresh. induction kept as [|x kept IH].
  - destruct Hfresh as [|a stamps Ha _]; [done|].
    cbn [app popleft_stale]. by rewrite stale_gt.
  - cbn [app popleft_stale]. by destruct (stale t x).
Qed.

(** A send wrapper: the admission attempt, and one command when admitted. *)
Lemma send_paced T s0 s s1 c :
  time_state s1 = time_state (check_message_limit s).2 →
  outbox s1 = outbox s ++ (if admits s then [c] else []) →
  paced T s0 s s1.
Proof.
  intros Hts Ho.
  assert (Hkeep : keeps_time s s1).
  { eapply keeps_time_trans; [apply check_message_limit_ok|].
    by apply keeps_time_time_state. }
  split; [done|].
  intros ((kept & stamps & Hw & Hsuf & Hall & Hlen) & Hok & Hf & HT) Hclk.
  destruct (Hkeep Hok Hf) as (Hok1 & Hf1 & _).
  unfold time_state in Hts.
  assert (order_timestamps s1 = order_timestamps (check_message_limit s).2
          ∧ clock s1 = clock (check_message_limit s).2) as [Hw1 Hk1]
    by (by simplify_eq).
  destruct (check_message_limit_frame s) as (_ & _ & _ & Hk).
  rewrite Hk in Hk1. rewrite check_message_limit_timestamps in Hw1.
  rewrite Hk1 in Hclk.
  split_and!; [|done|done|].
  - unfold admits in Ho. rewrite check_message_limit_answer in Ho.
    unfold check_window in Hw1, Ho.
    rewrite Hw, popleft_stale_app_fresh in Hw1, Ho.
    2,3: eapply Forall_impl; [exact Hall|]; intros a Ha; simpl in Ha; lia.
    pose proof (popleft_stale_suffix (next_time s) kept) as Hpop.
    case_bool_decide; cbn [fst snd] in Hw1, Ho.
    + exists (popleft_stale (next_time s) kept), stamps.
      rewrite Ho, app_nil_r. split_and!; [done|by etrans|done|done].
    + exists (popleft_stale (next_time s) kept), (stamps ++ [next_time s]).
      rewrite Ho, Hw1, !length_app. simpl.
      split_and!; [by rewrite app_assoc|by etrans| |lia].
      apply Forall_app. split; [done|]. by repeat constructor.
  - pose proof (next_time_forward s1 Hf1). lia.
Qed.

Lemma send_cancel_order_paced T s0 id s : paced T s0 s (send_cancel_order id s).2.
Proof.
  eapply send_paced; [|apply send_cancel_order_outbox].
  apply (send_wrappers_time_state 0 0 GOOD_FOR_DAY id s).
Qed.

Lemma send_bid_order_paced T s0 price volume type s :
  paced T s0 s (send_bid_order price volume type s).2.
Proof.
  eapply send_paced; [|apply send_bid_order_outbox].
  apply (send_wrappers_time_state price volume type 0 s).
Qed.

Lemma send_ask_order_paced T s0 price volume type s :
  paced T s0 s (send_ask_order price volume type s).2.
Proof.
  eapply send_paced; [|apply send_ask_order_outbox].
  apply (send_wrappers_time_state price volume type 0 s).
Qed.

Lemma request_cancels_paced T s0 ids : ∀ s, paced T s0 s (request_cancels ids s).
Proof.
  unfold request_cancels. induction ids as [|id ids IH]; intros s;
    [apply paced_refl|].
  cbn [foldl]. eapply paced_trans; [apply send_cancel_order_paced|apply IH].
Qed.

Lemma cancel_matching_paced T s0 P book s : paced T s0 s (cancel_matching P book s).
Proof. rewrite cancel_matching_requests. apply request_cancels_paced. Qed.

Lemma trim_orders_paced T s0 s : paced T s0 s (trim_orders s).
Proof.
  unfold trim_orders.
  eapply paced_trans; [apply cancel_matching_paced|apply cancel_matching_paced].
Qed.

Lemma clear_book_paced T s0 ap bp av bv s s' :
  clear_book ap bp av bv s = Some s' → paced T s0 s s'.
Proof.
  unfold clear_book. intros Hrun.
  destruct (last ap) as [ca0|]; [|done].
  destruct (last bp) as [cb0|]; [|done]. cbn [mbind option_bind] in Hrun.
  destruct (cutoff_scan ap av 0 0 ca0) as [ca|]; [|done].
  destruct (cutoff_scan bp bv 0 0 cb0) as [cb|]; [|done].
  cbn [mbind option_bind] in Hrun. simplify_eq.
  eapply paced_trans; [apply cancel_matching_paced|apply cancel_matching_paced].
Qed.

Lemma handle_arbitrage_paced T s0 ap av bp bv s s' :
  handle_arbitrage ap av bp bv s = Some s' → paced T s0 s s'.
Proof.
  unfold handle_arbitrage. intros Hrun.
  destruct (ap !! 0%nat) as [ask0|]; [|done]. cbn [mbind option_bind] in Hrun.
  case_bool_decide.
  - destruct (av !! 0%nat) as [av0|]; [|done]. cbn [mbind option_bind] in Hrun.
    case_bool_decide; simplify_eq; [apply send_bid_order_paced|apply paced_refl].
  - destruct (bp !! 0%nat) as [bid0|]; [|done]. cbn [mbind option_bind] in Hrun.
    case_bool_decide; simplify_eq; [|apply paced_refl].
    destruct (bv !! 0%nat) as [bv0|]; [|done]. cbn [mbind option_bind] in Hrun.
    case_bool_decide; simplify_eq; [apply send_ask_order_paced|apply paced_refl].
Qed.

Lemma quote_ask_loop_paced T s0 prices : ∀ st,
  paced T s0 st.1 (foldl quote_ask_step st prices).1.
Proof.
  induction prices as [|i prices IH]; intros st; [apply paced_refl|].
  cbn [foldl]. eapply paced_trans; [|apply IH]. unfold quote_ask_step.
  destruct (_ && _); [apply send_ask_order_paced|apply paced_refl].
Qed.

Lemma quote_bid_loop_paced T s0 prices : ∀ st,
  paced T s0 st.1 (foldl quote_bid_step st prices).1.
Proof.
  induction prices as [|i prices IH]; intros st; [apply paced_refl|].
  cbn [foldl]. eapply paced_trans; [|apply IH]. unfold quote_bid_step.
  destruct (_ && _); [apply send_bid_order_paced|apply paced_refl].
Qed.

Lemma handle_market_making_paced T s0 bp bv ap av s s' :
  handle_market_making bp bv ap av s = Some s' → paced T s0 s s'.
Proof.
  unfold handle_market_making. intros Hrun.
  destruct (clear_book ap bp av bv s) as [s1|] eqn:Hclear; [|done].
  cbn [mbind option_bind] in Hrun.
  destruct (bp !! 0%nat) as [etf_bid|]; [|done].
  destruct (ap !! 0%nat) as [etf_ask|]; [|done].
  cbn [mbind option_bind] in Hrun. simplify_eq.
  eapply paced_trans; [by eapply clear_book_paced|].
  eapply paced_trans; [|apply quote_bid_loop_paced]. cbn [fst].
  apply (quote_ask_loop_paced _ _ _ (s1, _)).
Qed.

Lemma on_order_book_update_message_paced T s0 i n ap av bp bv s s' :
  on_order_book_update_message i n ap av bp bv s = Some s' → paced T s0 s s'.
Proof.
  unfold on_order_book_update_message. intros Hrun.
  set (s1 := set_msg_seq (Z.max (msg_seq s) n) s) in *.
  apply (paced_from _ _ s1); [by destruct s|by destruct s|].
  clearbody s1.
  case_bool_decide; [simplify_eq; apply paced_refl|].
  destruct (bp !! 0%nat) as [bid0|]; [|done]. cbn [mbind option_bind] in Hrun.
  case_bool_decide; [simplify_eq; apply paced_refl|].
  destruct (ap !! 0%nat) as [ask0|]; [|done]. cbn [mbind option_bind] in Hrun.
  case_bool_decide; [simplify_eq; apply paced_refl|].
  destruct i.
  - rewrite (bool_decide_eq_false_2 (FUTURE = ETF)) in Hrun by done.
    cbn [mbind option_bind] in Hrun.
    rewrite (bool_decide_eq_true_2 (FUTURE = FUTURE)) in Hrun by done. simplify_eq.
    eapply paced_trans; [|apply trim_orders_paced].
    apply paced_time_state; by destruct s1.
  - rewrite (bool_decide_eq_true_2 (ETF = ETF)) in Hrun by done.
    rewrite (bool_decide_eq_false_2 (ETF = FUTURE)) in Hrun by done.
    destruct (_ || _).
    + destruct (handle_arbitrage ap av bp bv s1) as [s2|] eqn:Harb; [|done].
      cbn [mbind option_bind] in Hrun. simplify_eq.
      by eapply handle_arbitrage_paced.
    + destruct (_ && _).
      * destruct (handle_market_making bp bv ap av s1) as [s2|] eqn:Hmm; [|done].
        cbn [mbind option_bind] in Hrun. simplify_eq.
        by eapply handle_market_making_paced.
      * cbn [mbind option_bind] in Hrun. simplify_eq. apply paced_refl.
Qed.

(** X17. One book update that returns less than 1.01 seconds after its
    first reading of the clock never sends more than the rate window has
    room for.  From a well-formed window and with a clock that runs
    forward, each command it sends has its timestamp in the deque on
    return: the deque is then what is left ([kept]) of the deque on
    arrival, followed by one timestamp per command sent.  As the deque
    never holds more than 50 timestamps, the number of commands sent is at
    most 50 minus the number of timestamps kept from before the callback. *)
Theorem book_update_spends_the_budget i n ap av bp bv s s' :
  rate_window_ok s →
  Forall (λ d, 0 ≤ d) (ticks s) →
  on_order_book_update_message i n ap av bp bv s = Some s' →
  clock s' < next_time s + 1010 →
  ∃ kept stamps,
    order_timestamps s' = kept ++ stamps
    ∧ kept `suffix_of` order_timestamps s
    ∧ Forall (λ t, next_time s ≤ t ≤ clock s') stamps
    ∧ (length (outbox s') = length (outbox s) + length stamps)%nat
    ∧ (length (outbox s') + length kept ≤ length (outbox s) + 50)%nat.
Proof.
  intros Hok Hf Hrun Hclk.
  destruct (on_order_book_update_message_paced (next_time s) s _ _ _ _ _ _ _ _ Hrun)
    as [_ Hin].
  destruct Hin as ((kept & stamps & Hw & Hsuf & Hall & Hlen) & Hok' & _ & _);
    [|done|].
  { split_and!; [|done|done|lia].
    exists (order_timestamps s), []. rewrite app_nil_r.
    split_and!; [done|done|constructor|simpl; lia]. }
  exists kept, stamps. destruct Hok' as (_ & Hle & Hcap).
  rewrite Hw in Hle, Hcap. rewrite length_app in Hcap. unfold RATE_CAPACITY in Hcap.
  split_and!; [done|done| |done|lia].
  apply Forall_app in Hle as [_ Hle].
  apply Forall_forall. intros t Ht. split.
  - by eapply Forall_forall in Hall.
  - by eapply Forall_forall in Hle.
Qed.

Lemma book_update_spends_the_budget_witness :
  ∃ s', on_order_book_update_message ETF 2 wide_asks (five 50) wide_bids (five 50)
          idle_ticking = Some s'
    ∧ length (outbox s') = 10%nat ∧ clock s' = 21
    ∧ ∃ kept stamps,
        order_timestamps s' = kept ++ stamps
        ∧ kept `suffix_of` order_timestamps idle_ticking
        ∧ Forall (λ t, next_time idle_ticking ≤ t ≤ clock s') stamps
        ∧ (length (outbox s') = length (outbox idle_ticking) + length stamps)%nat
        ∧ (length (outbox s') + length kept ≤ length (outbox idle_ticking) + 50)%nat.
Proof.
  eexists. split; [by vm_compute|]. split; [by vm_compute|]. split; [by vm_compute|].
  apply (book_update_spends_the_budget ETF 2 wide_asks (five 50) wide_bids (five 50)
           idle_ticking).
  - unfold rate_window_ok. cbn. split_and!; [constructor|constructor|].
    unfold RATE_CAPACITY. lia.
  - repeat constructor; lia.
  - by vm_compute.
  - by vm_compute.
Defined.

(** ** [delta] against the position *)

Lemma deliver_delta MINIMUM_BID MAXIMUM_ASK e s s' :
  not_hedge_filled e →
  deliver MINIMUM_BID MAXIMUM_ASK e s = Some s' →
  delta s' - position s' = delta s - position s.
Proof.
  intros He Hrun. destruct e as [i n ap av bp bv| |id p v| | | | |]; cbn in Hrun.
  - apply on_order_book_update_message_msg_seq in Hrun as (_ & -> & -> & _). done.
  - by simplify_eq.
  - destruct (on_order_filled_message_book MINIMUM_BID MAXIMUM_ASK id p v s)
      as (s1 & Hrun' & _ & _ & _ & Hspec).
    rewrite Hrun in Hrun'. injection Hrun' as <-.
    destruct (dict_mem id (bids s)); [|destruct (dict_mem id (asks s))].
    + destruct Hspec as (-> & -> & _). lia.
    + destruct Hspec as (-> & -> & _). lia.
    + by subst.
  - simplify_eq. unfold on_order_status_message. case_bool_decide; by destruct s.
  - done.
  - simplify_eq. unfold on_error_message, on_order_status_message.
    destruct (_ && _); [|done]. case_bool_decide; by destruct s.
  - simplify_eq. by destruct s.
  - simplify_eq. by destruct s.
Qed.

(** X18. [delta] follows the position until hedges are reported filled: over
    any sequence of callbacks without a hedge-filled callback, [delta] and
    the position move by the same amount, so a trader started by
    [__init__] has [delta = position] until the first hedge fill arrives. *)
Theorem delta_follows_position MINIMUM_BID MAXIMUM_ASK events s s' :
  Forall not_hedge_filled events →
  run MINIMUM_BID MAXIMUM_ASK events s = Some s' →
  delta s' - position s' = delta s - position s.
Proof.
  revert s. induction events as [|e events IH]; intros s Hall Hrun.
  - cbn in Hrun. by simplify_eq.
  - apply Forall_cons in Hall as [He Hall]. cbn [run] in Hrun.
    destruct (deliver MINIMUM_BID MAXIMUM_ASK e s) as [s1|] eqn:Hd; [|done].
    cbn [mbind option_bind] in Hrun.
    rewrite (IH s1 Hall Hrun). by eapply deliver_delta.
Qed.

Lemma delta_follows_position_witness :
  ∃ s', run 1 2147483647 breach (init 0) = Some s'
    ∧ position s' = 120
    ∧ delta s' - position s' = delta (init 0) - position (init 0).
Proof.
  eexists. split; [by vm_compute|]. split; [by vm_compute|].
  apply (delta_follows_position 1 2147483647 breach (init 0)).
  - repeat constructor.
  - by vm_compute.
Defined.
